(** * label-pdf-processor: order-number and tracking-number extraction

    A shallow embedding of [extractOrderNumber] and [extractTrackingNumber]
    of [src/label-pdf-processor.js].  JavaScript strings are lists of UTF-16
    code units, the regular expressions of the source are terms of a small
    syntax tree, and their meaning is the backtracking matcher of ECMA-262
    (22.2.2), written as a function that lists the end states of a match in
    the order in which backtracking tries them.

    The functions around them, from [processDirectory] down to
    [processOrder], are embedded as trees of the calls they make to the
    outside, and their properties are stated over the runs of these trees. *)

From Stdlib Require Import Ascii String.
From Stdlib Require Import List NArith Bool Arith Lia DecimalString.
Import ListNotations.

Set Implicit Arguments.

(** ** Strings *)

(** A UTF-16 code unit. *)
Definition char := N.
Definition jsstring := list char.

(** A string literal of the source that holds only ASCII characters. *)
Definition js (s : string) : jsstring :=
  map N_of_ascii (list_ascii_of_string s).

Definition emDash : char := 8212%N.   (* U+2014 *)
Definition enDash : char := 8211%N.   (* U+2013 *)
Definition hyphen : char := 45%N.     (* U+002D *)
Definition dquote : char := 34%N.     (* U+0022 *)

Definition inRange (lo hi c : N) : bool := (lo <=? c)%N && (c <=? hi)%N.

(** [\d] *)
Definition isDigit (c : char) : bool := inRange 48 57 c.

(** The word characters of [\b]: [A-Za-z0-9_] (no [u] flag). *)
Definition isWordChar (c : char) : bool :=
  inRange 97 122 c || inRange 65 90 c || inRange 48 57 c || (c =? 95)%N.

(** [\s], and what [trim] strips: WhiteSpace and LineTerminator of ECMA-262. *)
Definition isSpace (c : char) : bool :=
  inRange 9 13 c || (c =? 32)%N || (c =? 160)%N || (c =? 5760)%N
  || inRange 8192 8202 c || (c =? 8232)%N || (c =? 8233)%N
  || (c =? 8239)%N || (c =? 8287)%N || (c =? 12288)%N || (c =? 65279)%N.

Definition asciiUpper (c : char) : char :=
  if inRange 97 122 c then (c - 32)%N else c.

(** Canonicalize of ECMA-262 22.2.5.6 for a regular expression with the [i]
    flag and without the [u] flag.  A code unit of 128 or more never
    canonicalizes to one below 128, and every letter of the patterns of the
    source is ASCII, so comparing with a pattern character only needs the
    ASCII part of the upper-case mapping. *)
Definition canonicalize (ic : bool) (c : char) : char :=
  if ic then asciiUpper c else c.

Definition charEq (ic : bool) (a c : char) : bool :=
  (canonicalize ic a =? canonicalize ic c)%N.

Definition substring (s : jsstring) (i j : nat) : jsstring :=
  firstn (j - i) (skipn i s).

Fixpoint startsWith (s p : jsstring) {struct p} : bool :=
  match p, s with
  | [], _ => true
  | a :: p', c :: s' => (a =? c)%N && startsWith s' p'
  | _ :: _, [] => false
  end.

Fixpoint includes (s p : jsstring) : bool :=
  startsWith s p || match s with [] => false | _ :: s' => includes s' p end.

Definition endsWith (s p : jsstring) : bool :=
  startsWith (rev s) (rev p).

Fixpoint dropWhile (f : char -> bool) (s : jsstring) : jsstring :=
  match s with
  | [] => []
  | c :: s' => if f c then dropWhile f s' else s
  end.

(** [String.prototype.trim] *)
Definition trim (s : jsstring) : jsstring :=
  rev (dropWhile isSpace (rev (dropWhile isSpace s))).

Fixpoint join (sep : jsstring) (l : list jsstring) : jsstring :=
  match l with
  | [] => []
  | [x] => x
  | x :: l' => x ++ sep ++ join sep l'
  end.

(** ** Regular expressions *)

Inductive regex : Type :=
| Chr (c : char)                                   (* a literal character *)
| Digit                                            (* \d *)
| Space                                            (* \s *)
| Class (cs : list char)                           (* [...] of characters *)
| WordB                                            (* \b *)
| Bol                                              (* ^ *)
| Eol                                              (* $ *)
| Eps                                              (* the empty pattern *)
| Seq (r1 r2 : regex)
| Alt (r1 r2 : regex)                              (* r1|r2 *)
| Rep (min : nat) (max : option nat) (r : regex)   (* greedy r{min,max} *)
| Group (r : regex).                               (* the capturing group *)

Definition star := Rep 0 None.                 (* r*  *)
Definition plus := Rep 1 None.                 (* r+  *)
Definition opt := Rep 0 (Some 1).              (* r?  *)
Definition times (n : nat) := Rep n (Some n).  (* r{n} *)
Definition between (a b : nat) := Rep a (Some b). (* r{a,b} *)

Fixpoint seq (l : list regex) : regex :=
  match l with
  | [] => Eps
  | [r] => r
  | r :: l' => Seq r (seq l')
  end.

Fixpoint alt (l : list regex) : regex :=
  match l with
  | [] => Eps
  | [r] => r
  | r :: l' => Alt r (alt l')
  end.

(** The characters of a literal, one term each. *)
Definition lit (s : jsstring) : list regex := map Chr s.

(** The state of a match: the code unit before the current position (none at
    the start of the input), the position, the input from the position on,
    and the span of the capturing group. *)
Record state : Type := mkState {
  prev : option char;
  pos : nat;
  rest : jsstring;
  cap : option (nat * nat)
}.

Definition step (f : char -> bool) (st : state) : list state :=
  match rest st with
  | c :: s' => if f c then [mkState (Some c) (S (pos st)) s' (cap st)] else []
  | [] => []
  end.

Definition wordBefore (st : state) : bool :=
  match prev st with Some c => isWordChar c | None => false end.

Definition wordAfter (st : state) : bool :=
  match rest st with c :: _ => isWordChar c | [] => false end.

Definition setCap (start : nat) (st : state) : state :=
  mkState (prev st) (pos st) (rest st) (Some (start, pos st)).

Definition decrMax (max : option nat) : option nat :=
  match max with Some n => Some (Nat.pred n) | None => None end.

(** RepeatMatcher of ECMA-262 22.2.2.3.1 for a greedy quantifier: no
    iteration is left when [max] is 0; while [min] is positive an iteration
    is required; after that an iteration is tried first and counts only if
    it consumed input, and leaving the loop is the last resort. *)
Fixpoint repeatMatcher (f : state -> list state) (fuel min : nat)
    (max : option nat) (st : state) : list state :=
  match fuel with
  | 0 => []
  | S fuel' =>
      match max with
      | Some 0 => [st]
      | _ =>
          match min with
          | S min' => flat_map (repeatMatcher f fuel' min' (decrMax max)) (f st)
          | 0 =>
              flat_map (repeatMatcher f fuel' 0 (decrMax max))
                (filter (fun st' => negb (pos st' =? pos st)) (f st))
              ++ [st]
          end
      end
  end.

(** The end states of all the ways [r] matches at [st], in the order
    backtracking tries them.  [ic] is the [i] flag. *)
Fixpoint matcher (ic : bool) (r : regex) (st : state) : list state :=
  match r with
  | Chr c => step (charEq ic c) st
  | Digit => step isDigit st
  | Space => step isSpace st
  | Class cs => step (fun ch => existsb (fun c => charEq ic c ch) cs) st
  | WordB => if xorb (wordBefore st) (wordAfter st) then [st] else []
  | Bol => match prev st with None => [st] | Some _ => [] end
  | Eol => match rest st with [] => [st] | _ :: _ => [] end
  | Eps => [st]
  | Seq r1 r2 => flat_map (matcher ic r2) (matcher ic r1 st)
  | Alt r1 r2 => matcher ic r1 st ++ matcher ic r2 st
  | Rep min max r' =>
      repeatMatcher (matcher ic r') (S (min + length (rest st))) min max st
  | Group r' => map (setCap (pos st)) (matcher ic r' st)
  end.

(** A regular expression object: its source text, its [i] flag and the
    syntax tree of the source text. *)
Record regexp : Type := mkRegexp {
  source : jsstring;
  ignoreCase : bool;
  tree : regex
}.

(** [RegExp.prototype.toString] *)
Definition toString (re : regexp) : jsstring :=
  js "/" ++ source re ++ js "/" ++ (if ignoreCase re then js "i" else []).

(** RegExpBuiltinExec for a regular expression that is neither global nor
    sticky: the match is tried at every index from [i] on, the first index at
    which it succeeds wins, and there the first way to match wins.  The
    result is the index where the match starts and its end state. *)
Fixpoint searchFrom (re : regexp) (p : option char) (i : nat) (s : jsstring)
    : option (nat * state) :=
  match matcher (ignoreCase re) (tree re) (mkState p i s None) with
  | st' :: _ => Some (i, st')
  | [] =>
      match s with
      | [] => None
      | c :: s' => searchFrom re (Some c) (S i) s'
      end
  end.

(** [text.match(re)] *)
Definition exec (re : regexp) (text : jsstring) : option (nat * state) :=
  searchFrom re None 0 text.

(** [re.test(text)] *)
Definition test (re : regexp) (text : jsstring) : bool :=
  match exec re text with Some _ => true | None => false end.

(** [match[0]] and [match[1]] of a match of [text]. *)
Definition group0 (text : jsstring) (mt : nat * state) : jsstring :=
  substring text (fst mt) (pos (snd mt)).

Definition group1 (text : jsstring) (mt : nat * state) : option jsstring :=
  match cap (snd mt) with
  | Some (a, b) => Some (substring text a b)
  | None => None
  end.

(** [a || b] where [a] is a string or undefined: the empty string and
    undefined are falsy. *)
Definition orElse (a : option jsstring) (b : jsstring) : jsstring :=
  match a with
  | Some (c :: s) => c :: s
  | _ => b
  end.

(** [s.replace(re, by)] for a regular expression with the [g] flag and a
    replacement text without [$]: every match, found from left to right from
    the end of the match before it, is replaced; after an empty match the
    search resumes one code unit further. *)
Fixpoint replaceLoop (re : regexp) (by_ : jsstring) (fuel : nat)
    (p : option char) (i : nat) (s : jsstring) : jsstring :=
  match fuel with
  | 0 => s
  | S fuel' =>
      match searchFrom re p i s with
      | None => s
      | Some (start, st') =>
          firstn (start - i) s ++ by_ ++
          (if pos st' =? start then
             match rest st' with
             | [] => []
             | c :: s' => c :: replaceLoop re by_ fuel' (Some c) (S (pos st')) s'
             end
           else replaceLoop re by_ fuel' (prev st') (pos st') (rest st'))
      end
  end.

Definition replaceAll (re : regexp) (by_ : jsstring) (s : jsstring) : jsstring :=
  replaceLoop re by_ (S (length s)) None 0 s.

(** ** The logger

    [logger.info] and [logger.error] append a line to the log; the time
    stamp that [formatMessage] adds is left out. *)

Inductive level : Type := INFO | ERROR.

Definition entry : Type := (level * jsstring)%type.

Definition Logged (A : Type) : Type := (A * list entry)%type.

Definition ret {A : Type} (a : A) : Logged A := (a, []).

Definition bind {A B : Type} (x : Logged A) (f : A -> Logged B) : Logged B :=
  let (a, l) := x in let (b, l') := f a in (b, l ++ l').

Definition info (msg : jsstring) : Logged unit := (tt, [(INFO, msg)]).
Definition error (msg : jsstring) : Logged unit := (tt, [(ERROR, msg)]).

Notation "x <- c1 ;; c2" := (bind c1 (fun x => c2))
  (at level 61, c1 at next level, right associativity).
Notation "c1 ;; c2" := (bind c1 (fun _ => c2))
  (at level 61, right associativity).

Fixpoint forEach {A : Type} (f : A -> Logged unit) (l : list A) : Logged unit :=
  match l with
  | [] => ret tt
  | a :: l' => f a ;; forEach f l'
  end.

(** ** The order number *)

Definition longPrefixes : list jsstring := [js "EJR"; js "EJC"; js "MH"].
Definition shortPrefixes : list jsstring := [js "R"; js "AL"].

Definition longPrefixPattern : jsstring :=
  js "(?:" ++ join (js "|") longPrefixes ++ js ")".
Definition shortPrefixPattern : jsstring :=
  js "(?:" ++ join (js "|") shortPrefixes ++ js ")".

(** The syntax trees of [longPrefixPattern] and [shortPrefixPattern]. *)
Definition longPrefix : regex := alt (map (fun prefix => seq (lit prefix)) longPrefixes).
Definition shortPrefix : regex := alt (map (fun prefix => seq (lit prefix)) shortPrefixes).

Definition hash : regex := Chr 35%N.                       (* # *)
Definition dash : regex := Chr hyphen.                     (* - *)
Definition dashDigit : regex := seq [dash; Digit].         (* -\d *)
(* \s*-\s* *)
Definition spacedDash : list regex := [star Space; dash; star Space].
(* \s*-?\s*\d? *)
Definition looseSuffix : list regex :=
  [star Space; opt dash; star Space; opt Digit].
(* (?:^|\s|#) *)
Definition leftEdge : regex := alt [Bol; Space; hash].
(* EL\d{6}EL *)
Definition elRoot : list regex := lit (js "EL") ++ [times 6 Digit] ++ lit (js "EL").
(** The label in front of the group of the labelled patterns: the word Order,
    then an optional [#], or the words Order Number, then an optional colon
    or quote, each followed by optional white space. *)
Definition orderLabelSource : jsstring :=
  js "(?:Order\s*#?\s*|Order\s*Number\s*[:" ++ [dquote] ++ js "']?\s*)".
Definition orderLabel : regex :=
  Alt (seq (lit (js "Order") ++ [star Space; opt hash; star Space]))
      (seq (lit (js "Order") ++ [star Space] ++ lit (js "Number")
            ++ [star Space; opt (Class [58%N; dquote; 39%N]); star Space])).

Definition patterns : list regexp := [
  (* 9-digit numbers with multiple segments (e.g., 000235334-1-3) *)
  mkRegexp (js "\b(\d{9}(?:\s*[" ++ [emDash; enDash] ++ js "-]\s*\d)+)\b") false
    (seq [WordB;
          Group (seq [times 9 Digit;
                      plus (seq [star Space; Class [emDash; enDash; hyphen];
                                 star Space; Digit])]);
          WordB]);
  (* 2 + 9 digits format: 2000000289-1 *)
  mkRegexp (js "\b(2\d{9}(?:-\d)?)\b") false
    (seq [WordB; Group (seq [Chr 50%N; times 9 Digit; opt dashDigit]); WordB]);
  (* EL format with suffix: EL649453EL-1 *)
  mkRegexp (js "\b(EL\d{6}EL(?:-\d)?)\b") true
    (seq [WordB; Group (seq (elRoot ++ [opt dashDigit])); WordB]);
  (* Short prefix formats: R3817-1, AL5862-1 *)
  mkRegexp (js "\b(" ++ shortPrefixPattern ++ js "\d{4}(?:-\d)?)\b") true
    (seq [WordB; Group (seq [shortPrefix; times 4 Digit; opt dashDigit]); WordB]);
  (* Long prefix formats with 6 digits and optional -digit *)
  mkRegexp (js "\b(" ++ longPrefixPattern ++ js "\d{6}(?:-\d)?)\b") true
    (seq [WordB; Group (seq [longPrefix; times 6 Digit; opt dashDigit]); WordB]);
  (* 9-digit numbers with optional -digit (with space before dash) *)
  mkRegexp (js "\b(\d{9}\s*-\s*\d)\b") false
    (seq [WordB; Group (seq ([times 9 Digit] ++ spacedDash ++ [Digit])); WordB]);
  mkRegexp (js "\b(\d{9}(?:-\d)?)\b") false
    (seq [WordB; Group (seq [times 9 Digit; opt dashDigit]); WordB]);
  (* 6-digit numbers with -digit (with space before dash) *)
  mkRegexp (js "\b(\d{6}\s*-\s*\d)\b") false
    (seq [WordB; Group (seq ([times 6 Digit] ++ spacedDash ++ [Digit])); WordB]);
  mkRegexp (js "\b(\d{6}-\d)\b") false
    (seq [WordB; Group (seq [times 6 Digit; dash; Digit]); WordB]);
  (* Standalone patterns with surrounding characters *)
  mkRegexp (js "(?:^|\s|#)(EL\d{6}EL(?:-\d)?)") true
    (seq [leftEdge; Group (seq (elRoot ++ [opt dashDigit]))]);
  mkRegexp (js "(?:^|\s|#)(" ++ shortPrefixPattern ++ js "\d{4}(?:-\d)?)") true
    (seq [leftEdge; Group (seq [shortPrefix; times 4 Digit; opt dashDigit])]);
  mkRegexp (js "(?:^|\s|#)(" ++ longPrefixPattern ++ js "\d{6}(?:-\d)?)") true
    (seq [leftEdge; Group (seq [longPrefix; times 6 Digit; opt dashDigit])]);
  (* Look for order numbers with common labels *)
  mkRegexp (orderLabelSource ++ js "((?:" ++ longPrefixPattern
            ++ js ")?\d{6,9}\s*-?\s*\d?)") true
    (seq [orderLabel;
          Group (seq ([opt longPrefix; between 6 9 Digit] ++ looseSuffix))]);
  mkRegexp (orderLabelSource ++ js "((?:" ++ shortPrefixPattern
            ++ js ")?\d{4}\s*-?\s*\d?)") true
    (seq [orderLabel;
          Group (seq ([opt shortPrefix; times 4 Digit] ++ looseSuffix))]);
  mkRegexp (orderLabelSource ++ js "(EL\d{6}EL\s*-?\s*\d?)") true
    (seq [orderLabel; Group (seq (elRoot ++ looseSuffix))]);
  (* Look for # followed by number patterns *)
  mkRegexp (js "#\s*((?:" ++ longPrefixPattern ++ js "|" ++ shortPrefixPattern
            ++ js ")?\d{4,9}\s*-?\s*\d?)") true
    (seq [hash; star Space;
          Group (seq ([opt (Alt longPrefix shortPrefix); between 4 9 Digit]
                      ++ looseSuffix))]);
  mkRegexp (js "#\s*(EL\d{6}EL\s*-?\s*\d?)") true
    (seq [hash; star Space; Group (seq (elRoot ++ looseSuffix))])
].

(** The regular expressions of the clean-up: the class of the em dash and
    the en dash, runs of white space, and the pair of letters e and l, all
    with the [g] flag, the last one with the [i] flag too. *)
Definition dashGlyphs : regexp :=
  mkRegexp (js "[" ++ [emDash; enDash] ++ js "]") false (Class [emDash; enDash]).
Definition spaceRuns : regexp := mkRegexp (js "\s+") false (plus Space).
Definition elPairs : regexp := mkRegexp (js "el") true (seq (lit (js "el"))).

(** The regular expressions of the validation. *)
Definition suffixes : regex := plus dashDigit.                  (* (?:-\d)+ *)

Definition valid2Plus9 : regexp :=
  mkRegexp (js "^2\d{9}(?:-\d)+$") false
    (seq [Bol; Chr 50%N; times 9 Digit; suffixes; Eol]).
Definition validEL : regexp :=
  mkRegexp (js "^EL\d{6}EL(?:-\d)+$") true
    (seq ([Bol] ++ elRoot ++ [suffixes; Eol])).
Definition validShort (prefix : jsstring) : regexp :=
  mkRegexp (js "^" ++ prefix ++ js "\d{4}(?:-\d)+$") true
    (seq ([Bol] ++ lit prefix ++ [times 4 Digit; suffixes; Eol])).
Definition validLong (prefix : jsstring) : regexp :=
  mkRegexp (js "^" ++ prefix ++ js "\d{6}(?:-\d)+$") true
    (seq ([Bol] ++ lit prefix ++ [times 6 Digit; suffixes; Eol])).
Definition valid9 : regexp :=
  mkRegexp (js "^\d{9}(?:-\d)+$") false (seq [Bol; times 9 Digit; suffixes; Eol]).
Definition valid6 : regexp :=
  mkRegexp (js "^\d{6}(?:-\d)+$") false (seq [Bol; times 6 Digit; suffixes; Eol]).

Definition isValidFormat (found : jsstring) : bool :=
  test valid2Plus9 found
  || test validEL found
  || existsb (fun prefix => test (validShort prefix) found) shortPrefixes
  || existsb (fun prefix => test (validLong prefix) found) longPrefixes
  || test valid9 found
  || test valid6 found.

(** The clean-up of a match: [trim], then all white space removed, then the
    dash glyphs replaced. *)
Definition cleanUp (found : jsstring) : jsstring :=
  replaceAll dashGlyphs (js "-") (replaceAll spaceRuns [] (trim found)).

Section Extraction.

(** [String.prototype.toUpperCase] maps a string code point by code point;
    on ASCII it turns [a-z] into [A-Z].  What it makes of a string from its
    first code unit of 128 or more on is the Unicode upper-case mapping of
    the runtime, a parameter here. *)
Variable upperUnicode : jsstring -> jsstring.

Fixpoint toUpperCase (s : jsstring) : jsstring :=
  match s with
  | [] => []
  | c :: s' =>
      if (c <? 128)%N then asciiUpper c :: toUpperCase s' else upperUnicode s
  end.

(** The loop over [[...longPrefixes, ...shortPrefixes]]: the first prefix the
    upper-cased candidate starts with replaces as many code units as it is
    long. *)
Fixpoint normalizePrefix (found : jsstring) (prefixes : list jsstring)
    : jsstring :=
  match prefixes with
  | [] => found
  | prefix :: prefixes' =>
      if startsWith (toUpperCase found) (toUpperCase prefix)
      then prefix ++ skipn (length prefix) found
      else normalizePrefix found prefixes'
  end.

(** The special handling of the EL format and the other prefixes. *)
Definition normalizeCase (found : jsstring) : jsstring :=
  if startsWith (toUpperCase found) (js "EL")
     && includes (toUpperCase found) (js "EL-")
  then replaceAll elPairs (js "EL") found
  else normalizePrefix found (longPrefixes ++ shortPrefixes).

(** The candidate a match of [text] gives: the group (or the whole match),
    cleaned up and with its case normalized. *)
Definition candidate (text : jsstring) (mt : nat * state) : jsstring :=
  normalizeCase (cleanUp (orElse (group1 text mt) (group0 text mt))).

(** The loop [for (const pattern of patterns)]. *)
Fixpoint tryPatterns (normalizedText : jsstring) (ps : list regexp)
    : Logged (option jsstring) :=
  match ps with
  | [] => ret None
  | pattern :: ps' =>
      match exec pattern normalizedText with
      | Some mt =>
          let foundOrderNumber := candidate normalizedText mt in
          let matchedPattern := toString pattern in
          if isValidFormat foundOrderNumber then
            info (js "Found order number: " ++ foundOrderNumber
                  ++ js " (matched pattern: " ++ matchedPattern ++ js ")") ;;
            ret (Some foundOrderNumber)
          else
            info (js "Found potential order number but invalid format: "
                  ++ foundOrderNumber) ;;
            tryPatterns normalizedText ps'
      | None => tryPatterns normalizedText ps'
      end
  end.

(** What is logged when no pattern gave a valid order number. *)
Definition logFailure (normalizedText : jsstring) (ps : list regexp)
    : Logged unit :=
  error (js "No order number found. Text content:") ;;
  error (js "---Begin Text Content---") ;;
  error normalizedText ;;
  error (js "---End Text Content---") ;;
  error (js "Attempted patterns:") ;;
  forEach (fun pattern => error (js "- " ++ toString pattern)) ps.

Definition extractOrderNumber (text : jsstring) : Logged (option jsstring) :=
  info (js "Attempting to extract order number from text") ;;
  let normalizedText := replaceAll dashGlyphs (js "-") text in
  r <- tryPatterns normalizedText patterns ;;
  match r with
  | Some foundOrderNumber => ret (Some foundOrderNumber)
  | None => logFailure normalizedText patterns ;; ret None
  end.

End Extraction.

(** ** The tracking number *)

(* More specific USPS format (9205 XXXX XXXX XXXX XXXX XX) *)
Definition uspsTracking : regexp :=
  mkRegexp (js "\b(9205\s*\d{4}\s*\d{4}\s*\d{4}\s*\d{4}\s*\d{2})\b") false
    (seq [WordB;
          Group (seq (lit (js "9205")
                      ++ [star Space; times 4 Digit; star Space; times 4 Digit;
                          star Space; times 4 Digit; star Space; times 4 Digit;
                          star Space; times 2 Digit]));
          WordB]).

Definition trackingPatterns : list regexp := [uspsTracking].

Definition fileNameDigits : regexp :=
  mkRegexp (js "^\d{20,22}$") false (seq [Bol; between 20 22 Digit; Eol]).

Definition isSlash (c : char) : bool := (c =? 47)%N.

Fixpoint takeWhile (f : char -> bool) (s : jsstring) : jsstring :=
  match s with
  | [] => []
  | c :: s' => if f c then c :: takeWhile f s' else []
  end.

Fixpoint eqString (a b : jsstring) : bool :=
  match a, b with
  | [], [] => true
  | x :: a', y :: b' => (x =? y)%N && eqString a' b'
  | _, _ => false
  end.

(** The last portion of a POSIX path, trailing separators ignored. *)
Definition lastPortion (path : jsstring) : jsstring :=
  rev (takeWhile (fun c => negb (isSlash c)) (dropWhile isSlash (rev path))).

(** [path.basename(path, suffix)] of Node.js for POSIX paths, as its
    documentation has it: the last portion of the path, without the suffix
    when the portion ends with it and is longer than it; a path that is the
    suffix itself gives the empty string. *)
Definition basename (path suffix : jsstring) : jsstring :=
  if eqString path suffix then []
  else
    let portion := lastPortion path in
    if endsWith portion suffix && (length suffix <? length portion)
    then firstn (length portion - length suffix) portion
    else portion.

(** The loop [for (const pattern of patterns)] over the text of the PDF. *)
Fixpoint tryTracking (pdfText : jsstring) (ps : list regexp)
    : Logged (option jsstring) :=
  match ps with
  | [] => ret None
  | pattern :: ps' =>
      match exec pattern pdfText with
      | Some mt =>
          let trackingNumber :=
            replaceAll spaceRuns [] (orElse (group1 pdfText mt) (group0 pdfText mt)) in
          info (js "Found tracking number in PDF: " ++ trackingNumber) ;;
          ret (Some trackingNumber)
      | None => tryTracking pdfText ps'
      end
  end.

Definition extractTrackingNumber (fileName pdfText : jsstring)
    : Logged (option jsstring) :=
  info (js "Attempting to extract tracking number") ;;
  r <- tryTracking pdfText trackingPatterns ;;
  match r with
  | Some trackingNumber => ret (Some trackingNumber)
  | None =>
      let trackingNumber := basename fileName (js ".pdf") in
      if test fileNameDigits trackingNumber then
        info (js "Found tracking number in filename: " ++ trackingNumber) ;;
        ret (Some trackingNumber)
      else
        error (js "No valid tracking number found in PDF or filename") ;;
        ret None
  end.

(** ** The syntax of the patterns

    A reader for the part of the pattern syntax of ECMA-262 (22.2.1) that
    the source uses: disjunctions, groups (capturing and [(?:...)]), the
    quantifiers [*], [+], [?], [{n}] and [{n,m}], classes of single
    characters, [\b], [\d], [\s], [^], [$] and literal characters.  It is
    there to check the syntax trees above against the source texts. *)

Definition isOneOf (cs : jsstring) (c : char) : bool :=
  existsb (fun a => (a =? c)%N) cs.

Fixpoint readNumber (s : jsstring) (acc : nat) : nat * jsstring :=
  match s with
  | c :: s' =>
      if isDigit c then readNumber s' (10 * acc + N.to_nat (c - 48)) else (acc, s)
  | [] => (acc, s)
  end.

Definition readQuantifier (r : regex) (s : jsstring) : option (regex * jsstring) :=
  match s with
  | c :: s' =>
      if (c =? 42)%N then Some (Rep 0 None r, s')               (* * *)
      else if (c =? 43)%N then Some (Rep 1 None r, s')          (* + *)
      else if (c =? 63)%N then Some (Rep 0 (Some 1) r, s')      (* ? *)
      else if (c =? 123)%N then                                 (* { *)
        let (n, s1) := readNumber s' 0 in
        match s1 with
        | c1 :: s2 =>
            if (c1 =? 125)%N then Some (Rep n (Some n) r, s2)   (* } *)
            else if (c1 =? 44)%N then                           (* , *)
              let (m, s3) := readNumber s2 0 in
              match s3 with
              | c3 :: s4 => if (c3 =? 125)%N then Some (Rep n (Some m) r, s4) else None
              | [] => None
              end
            else None
        | [] => None
        end
      else Some (r, s)
  | [] => Some (r, s)
  end.

Fixpoint readClass (s acc : jsstring) : option (regex * jsstring) :=
  match s with
  | c :: s' => if (c =? 93)%N then Some (Class (rev acc), s')   (* ] *)
               else readClass s' (c :: acc)
  | [] => None
  end.

Definition closing (r : option (regex * jsstring)) (wrap : regex -> regex)
    : option (regex * jsstring) :=
  match r with
  | Some (t, c :: s) => if (c =? 41)%N then Some (wrap t, s) else None   (* ) *)
  | _ => None
  end.

Fixpoint readDisjunction (fuel : nat) (s : jsstring) : option (regex * jsstring) :=
  match fuel with
  | 0 => None
  | S fuel' =>
      let atom (s : jsstring) : option (regex * jsstring) :=
        match s with
        | c :: s' =>
            if (c =? 40)%N then                                    (* ( *)
              if startsWith s' (js "?:")
              then closing (readDisjunction fuel' (skipn 2 s')) (fun t => t)
              else closing (readDisjunction fuel' s') Group
            else if (c =? 91)%N then readClass s' []              (* [ *)
            else if (c =? 92)%N then                              (* \ *)
              match s' with
              | e :: s2 =>
                  if (e =? 98)%N then Some (WordB, s2)
                  else if (e =? 100)%N then Some (Digit, s2)
                  else if (e =? 115)%N then Some (Space, s2)
                  else None
              | [] => None
              end
            else if (c =? 94)%N then Some (Bol, s')
            else if (c =? 36)%N then Some (Eol, s')
            else if isOneOf (js ")|*+?{}]") c then None
            else Some (Chr c, s')
        | [] => None
        end in
      let fix alternative (n : nat) (s : jsstring)
          : option (list regex * jsstring) :=
        match n with
        | 0 => None
        | S n' =>
            match s with
            | [] => Some ([], [])
            | c :: _ =>
                if isOneOf (js "|)") c then Some ([], s)
                else
                  match atom s with
                  | Some (r, s1) =>
                      match readQuantifier r s1 with
                      | Some (t, s2) =>
                          match alternative n' s2 with
                          | Some (ts, s3) => Some (t :: ts, s3)
                          | None => None
                          end
                      | None => None
                      end
                  | None => None
                  end
            end
        end in
      match alternative (S (length s)) s with
      | Some (ts, c :: s1) =>
          if (c =? 124)%N then                                     (* | *)
            match readDisjunction fuel' s1 with
            | Some (r, s2) => Some (Alt (seq ts) r, s2)
            | None => None
            end
          else Some (seq ts, c :: s1)
      | Some (ts, []) => Some (seq ts, [])
      | None => None
      end
  end.

(** The syntax tree of a source text. *)
Definition readPattern (src : jsstring) : option regex :=
  match readDisjunction (S (length src)) src with
  | Some (r, []) => Some r
  | _ => None
  end.

(** * The pipeline around the two extractors

    [processOrder], [convertPDFToImage], [extractTextFromPDF],
    [processPDFFile], [processDirectory], [Logger.summary] and the entry
    point of [src/label-pdf-processor.js].  What these functions ask of the
    outside (the network, the file system, pdftoppm, the OCR) is a [call];
    a function is the tree of the calls it makes, with a branch for every
    answer a call can get: a value, or an error thrown.  Writing a line to
    the log is taken not to fail, as for the two extractors. *)

(** ** Numbers in template literals *)

(** [`${n}`] for an integer that is not negative. *)
Definition decimal (n : N) : jsstring :=
  js (NilZero.string_of_uint (N.to_uint n)).

Definition newline : jsstring := [10%N].

(** ** What the outside answers *)

(** A thrown [Error]: its [message]. *)
Record Error : Type := newError { errorMessage : jsstring }.

(** What the code reads of a [Response] of [fetch]. *)
Record Response : Type := mkResponse { ok : bool; status : N }.

(** An order of the answer of the lookup, and the answer as the service
    gives it: an object whose [orders] is absent or an array of orders, each
    with a numeric [orderId] and an [orderStatus]. *)
Record order : Type := mkOrder { orderId : N; orderStatus : jsstring }.

Record ordersData : Type := mkOrdersData { orders : option (list order) }.

(** The objects given to [JSON.stringify]. *)
Inductive payload : Type :=
| markAsShippedBody (id : N) (carrierCode tracking : jsstring)
    (notifyCustomer notifySalesChannel : bool)
| assignUserBody (orderIds : list N) (userId : jsstring).

Record requestInit : Type := mkRequestInit {
  method : jsstring;
  headers : list (jsstring * jsstring);
  body : option payload
}.

Record tesseractConfig : Type := mkConfig {
  lang : jsstring;
  oem : N;
  psm : N;
  tessdataDir : jsstring;
  dpi : N
}.

(** The calls, with the type of what they return. *)
Inductive call : Type -> Type :=
| fetch (url : jsstring) (init : requestInit) : call Response
| json (response : Response) : call ordersData
| execAsync (command : jsstring) : call unit
| existsSync (path : jsstring) : call bool
| renameSync (oldPath newPath : jsstring) : call unit
| recognize (imagePath : jsstring) (config : tesseractConfig) : call jsstring
| unlinkSync (path : jsstring) : call unit
| readdirSync (path : jsstring) : call (list jsstring).

(** [fs.existsSync] never throws; every other call can. *)
Definition throws (X : Type) (c : call X) : bool :=
  match c with
  | existsSync _ => false
  | _ => true
  end.

(** ** Programs *)

(** A program returns, throws, ends the process, or makes a call and goes on
    with its answer (a value or an error), or writes a line to the log and
    goes on. *)
Inductive io (A : Type) : Type :=
| Return (a : A)
| Throw (e : Error)
| Exit (code : N)
| Call (X : Type) (c : call X) (k : Error + X -> io A)
| Log (level message : jsstring) (k : io A).

Arguments Throw {A} e.
Arguments Exit {A} code.

Fixpoint andThen (A B : Type) (p : io A) (f : A -> io B) : io B :=
  match p with
  | Return a => f a
  | Throw e => Throw e
  | Exit code => Exit code
  | Call c k => Call c (fun r => andThen (k r) f)
  | Log level message k => Log level message (andThen k f)
  end.

Notation "x <-- c1 ;; c2" := (andThen c1 (fun x => c2))
  (at level 61, c1 at next level, right associativity).
Notation "c1 ;;; c2" := (andThen c1 (fun _ => c2))
  (at level 61, right associativity).

(** [try { p } catch (error) { handler }] *)
Fixpoint tryCatch (A : Type) (p : io A) (handler : Error -> io A) : io A :=
  match p with
  | Return a => Return a
  | Throw e => handler e
  | Exit code => Exit code
  | Call c k => Call c (fun r => tryCatch (k r) handler)
  | Log level message k => Log level message (tryCatch k handler)
  end.

(** A call whose error, if it throws, is thrown on. *)
Definition perform (X : Type) (c : call X) : io X :=
  Call c (fun r => match r with inl e => Throw e | inr x => Return x end).

(** The extractors write to the same log. *)
Definition levelName (l : level) : jsstring :=
  match l with INFO => js "INFO" | ERROR => js "ERROR" end.

Fixpoint replay (A : Type) (l : list entry) (k : io A) : io A :=
  match l with
  | [] => k
  | e :: l' => Log (levelName (fst e)) (snd e) (replay l' k)
  end.

Definition logged (A : Type) (x : Logged A) : io A :=
  replay (snd x) (Return (fst x)).

(** ** The results *)

(** The objects the functions return: [processOrder] sets [success] and
    [message] only. *)
Record result : Type := mkResult {
  fileName : option jsstring;
  success : bool;
  message : jsstring;
  orderNumber : option jsstring;
  trackingNumber : option jsstring
}.

(** [`${v}`] for a property that may be missing. *)
Definition display (v : option jsstring) : jsstring :=
  match v with Some s => s | None => js "undefined" end.

(** [v ? a : b] for a string that may be missing or empty. *)
Definition truthy (v : option jsstring) : bool :=
  match v with Some (_ :: _) => true | _ => false end.

(** ** The logger, with its levels as [log] gets them *)

Definition successCount (processedFiles : list result) : nat :=
  length (filter (fun f => success f) processedFiles).

Definition failureCount (processedFiles : list result) : nat :=
  length (filter (fun f => negb (success f)) processedFiles).

Definition detail (result : result) : jsstring :=
  ([if success result then 10003%N else 10007%N] ++ js " "
   ++ display (fileName result) ++ js ": " ++ message result)
  ++ (if truthy (orderNumber result)
      then js " (Order: " ++ display (orderNumber result) ++ js ")" else [])
  ++ (if truthy (trackingNumber result)
      then js " (Tracking: " ++ display (trackingNumber result) ++ js ")" else []).

Definition summaryMessage (processedFiles : list result) : jsstring :=
  join newline
    ([newline ++ js "=== Processing Summary ===";
      js "Total Files Processed: " ++ decimal (N.of_nat (length processedFiles));
      js "Successful: " ++ decimal (N.of_nat (successCount processedFiles));
      js "Failed: " ++ decimal (N.of_nat (failureCount processedFiles));
      newline ++ js "Detailed Results:"]
     ++ map detail processedFiles
     ++ [js "======================="]).

Module Logger.

Definition log (level message : jsstring) : io unit :=
  Log level message (Return tt).

Definition info (message : jsstring) : io unit := log (js "INFO") message.
Definition error (message : jsstring) : io unit := log (js "ERROR") message.
Definition success (message : jsstring) : io unit := log (js "SUCCESS") message.

Definition summary (processedFiles : list result) : io unit :=
  log (js "SUMMARY") (summaryMessage processedFiles).

End Logger.

(** ** The order at the shipping service *)

Definition jsonHeaders : list (jsstring * jsstring) :=
  [(js "Content-Type", js "application/json")].

Definition lookupRequest (orderNumber : jsstring) : call Response :=
  fetch (js "https://shipstation-proxy.info-ba2.workers.dev/orders?orderNumber="
         ++ orderNumber)
        (mkRequestInit (js "GET") jsonHeaders None).

Definition markAsShippedRequest (id : N) (trackingNumber : jsstring)
    : call Response :=
  fetch (js "https://shipstation-proxy.info-ba2.workers.dev/orders/markasshipped")
        (mkRequestInit (js "POST") jsonHeaders
           (Some (markAsShippedBody id (js "usps") trackingNumber true true))).

Definition assignUserRequest (id : N) : call Response :=
  fetch (js "https://shipstation-proxy.info-ba2.workers.dev/orders/assignuser")
        (mkRequestInit (js "POST") jsonHeaders
           (Some (assignUserBody [id] (js "1f021469-eff0-4cf3-a9ab-e6edccdc84f7")))).

Definition awaitingShipment (o : order) : bool :=
  eqString (orderStatus o) (js "awaiting_shipment").

(** [!data.orders || data.orders.length === 0] *)
Definition noOrders (data : ordersData) : bool :=
  match orders data with
  | None | Some [] => true
  | Some (_ :: _) => false
  end.

Definition ordersOf (data : ordersData) : list order :=
  match orders data with Some l => l | None => [] end.

Definition processOrder (orderNumber trackingNumber : jsstring) : io result :=
  tryCatch
    (response <-- perform (lookupRequest orderNumber) ;;
     if negb (ok response) then
       Throw (newError (js "HTTP error! Status: " ++ decimal (status response)))
     else
       data <-- perform (json response) ;;
       if noOrders data then Throw (newError (js "Order not found"))
       else
         match find awaitingShipment (ordersOf data) with
         | None => Throw (newError (js "No unfulfilled order found"))
         | Some firstUnfulfilled =>
             let id := orderId firstUnfulfilled in
             Logger.info (js "Found unfulfilled order: " ++ decimal id) ;;;
             markShippedResponse <--
               perform (markAsShippedRequest id trackingNumber) ;;
             if negb (ok markShippedResponse) then
               Throw (newError (js "Failed to mark as shipped: "
                                ++ decimal (status markShippedResponse)))
             else
               Logger.info (js "Marked order " ++ decimal id ++ js " as shipped") ;;;
               assignUserResponse <-- perform (assignUserRequest id) ;;
               if negb (ok assignUserResponse) then
                 Throw (newError (js "Failed to assign user: "
                                  ++ decimal (status assignUserResponse)))
               else
                 Logger.info (js "Assigned user to order " ++ decimal id) ;;;
                 Return (mkResult None true (js "Order processed successfully")
                           None None)
         end)
    (fun error =>
       Logger.error (js "Error processing order: " ++ errorMessage error) ;;;
       Return (mkResult None false (errorMessage error) None None)).

(** ** From the PDF to its text *)

(** [String.prototype.replace] with a string to search for: its first
    occurrence is replaced.  The replacements of the source hold no [$]. *)
Fixpoint replaceFirst (s searchValue replaceValue : jsstring) : jsstring :=
  if startsWith s searchValue
  then replaceValue ++ skipn (length searchValue) s
  else match s with
       | [] => []
       | c :: s' => c :: replaceFirst s' searchValue replaceValue
       end.

Definition convertPDFToImage (pdfPath : jsstring) : io jsstring :=
  let imagePath := replaceFirst pdfPath (js ".pdf") (js ".png") in
  tryCatch
    (Logger.info (js "Converting PDF to image: " ++ pdfPath) ;;;
     perform (execAsync (js "pdftoppm -png -r 300 " ++ [dquote] ++ pdfPath
                         ++ [dquote] ++ js " " ++ [dquote]
                         ++ replaceFirst pdfPath (js ".pdf") []
                         ++ [dquote])) ;;;
     let generatedPath := replaceFirst pdfPath (js ".pdf") (js "-1.png") in
     present <-- perform (existsSync generatedPath) ;;
     (if present : bool then perform (renameSync generatedPath imagePath)
      else Return tt) ;;;
     Return imagePath)
    (fun error =>
       Logger.error (js "Error converting PDF to image: " ++ errorMessage error) ;;;
       Throw error).

Definition config : tesseractConfig :=
  mkConfig (js "eng") 1 3 (js "/usr/share/tesseract-ocr/4.00/tessdata") 300.

Definition extractTextFromPDF (filePath : jsstring) : io jsstring :=
  tryCatch
    (imagePath <-- convertPDFToImage filePath ;;
     Logger.info (js "Performing OCR on image: " ++ imagePath) ;;;
     text <-- perform (recognize imagePath config) ;;
     Logger.info (js "OCR completed successfully") ;;;
     perform (unlinkSync imagePath) ;;;
     Return text)
    (fun error =>
       Logger.error (js "Error extracting text from PDF: " ++ errorMessage error) ;;;
       Throw error).

(** ** One file, a directory *)

Definition isAscii (c : char) : bool := (c <? 128)%N.

Definition asciiLower (c : char) : char :=
  if inRange 65 90 c then (c + 32)%N else c.

Section Pipeline.

(** The Unicode mappings of the runtime for strings that are not ASCII, and
    [path.join] of Node.js. *)
Variable upperUnicode : jsstring -> jsstring.
Variable lowerUnicode : jsstring -> jsstring.
Variable pathJoin : jsstring -> jsstring -> jsstring.

(** [String.prototype.toLowerCase]: on an ASCII string, [A-Z] become [a-z]. *)
Definition toLowerCase (s : jsstring) : jsstring :=
  if forallb isAscii s then map asciiLower s else lowerUnicode s.

Definition processPDFFile (filePath : jsstring) : io result :=
  tryCatch
    (Logger.info (js "Processing PDF: " ++ filePath) ;;;
     text <-- extractTextFromPDF filePath ;;
     found <-- logged (extractOrderNumber upperUnicode text) ;;
     match found with
     | None | Some [] =>
         Logger.error (js "No order number found in PDF: " ++ filePath) ;;;
         Return (mkResult (Some (lastPortion filePath)) false
                   (js "Order number not found in PDF") None None)
     | Some orderNumber =>
         found <-- logged (extractTrackingNumber filePath text) ;;
         match found with
         | None | Some [] =>
             Logger.error (js "No tracking number found in filename: "
                           ++ filePath) ;;;
             Return (mkResult (Some (lastPortion filePath)) false
                       (js "Tracking number not found") None None)
         | Some trackingNumber =>
             result <-- processOrder orderNumber trackingNumber ;;
             (if success result then
                Logger.success (js "Successfully processed order " ++ orderNumber
                                ++ js " with tracking " ++ trackingNumber)
              else
                Logger.error (js "Failed to process order " ++ orderNumber
                              ++ js ": " ++ message result)) ;;;
             Return (mkResult (Some (lastPortion filePath)) (success result)
                       (message result) (Some orderNumber) (Some trackingNumber))
         end
     end)
    (fun error =>
       Logger.error (js "Error processing file " ++ filePath ++ js ": "
                     ++ errorMessage error) ;;;
       Return (mkResult (Some (lastPortion filePath)) false (errorMessage error)
                 None None)).

(** The filter of [processDirectory]. *)
Definition isPdf (file : jsstring) : bool :=
  endsWith (toLowerCase file) (js ".pdf").

(** The loop [for (const file of files)]. *)
Fixpoint processFiles (files : list jsstring) (results : list result)
    : io (list result) :=
  match files with
  | [] => Return results
  | file :: files' =>
      Logger.info (newline ++ js "Processing file: " ++ lastPortion file) ;;;
      result <-- processPDFFile file ;;
      processFiles files' (results ++ [result])
  end.

Definition processDirectory (directoryPath : jsstring) : io unit :=
  tryCatch
    (names <-- perform (readdirSync directoryPath) ;;
     let files := map (fun file => pathJoin directoryPath file)
                      (filter isPdf names) in
     Logger.info (js "Found " ++ decimal (N.of_nat (length files))
                  ++ js " PDF files to process in " ++ directoryPath) ;;;
     results <-- processFiles files [] ;;
     Logger.summary results)
    (fun error =>
       Logger.error (js "Error processing directory: " ++ errorMessage error)).

(** The entry point: [runDirectly] is the test on [import.meta.url], [argv2]
    is [process.argv[2]]. *)
Definition main (runDirectly : bool) (argv2 : option jsstring) : io unit :=
  if runDirectly then
    let directoryPath := if truthy argv2 then display argv2 else js "." in
    if negb (truthy (Some directoryPath)) then
      Logger.error (js "Please provide a directory path") ;;;
      Exit 1
    else
      Logger.info (js "Starting PDF processing in directory: " ++ directoryPath) ;;;
      processDirectory directoryPath
  else Return tt.

End Pipeline.

(** * The vocabulary of the properties *)

(** A match only moves forward, and position and remaining input move
    together. *)
Definition shrinks (st st' : state) : Prop :=
  pos st' + length (rest st') = pos st + length (rest st)
  /\ pos st <= pos st'.

(** The code unit before the position reached after reading [w]. *)
Fixpoint lastOr (p : option char) (w : jsstring) : option char :=
  match w with
  | [] => p
  | c :: w' => lastOr (Some c) w'
  end.

(** Whether there is a word character at a place of the input. *)
Definition isWordOpt (p : option char) : bool :=
  match p with Some c => isWordChar c | None => false end.

(** [Matches ic r p w s]: between the code unit [p] and the rest [s] of the
    input, [r] matches the word [w]. *)
Inductive Matches (ic : bool) : regex -> option char -> jsstring -> jsstring -> Prop :=
| MChr c ch p s : charEq ic c ch = true -> Matches ic (Chr c) p [ch] s
| MDigit ch p s : isDigit ch = true -> Matches ic Digit p [ch] s
| MSpace ch p s : isSpace ch = true -> Matches ic Space p [ch] s
| MClass cs ch p s :
    existsb (fun c => charEq ic c ch) cs = true -> Matches ic (Class cs) p [ch] s
| MWordB p s :
    xorb (isWordOpt p) (isWordOpt (hd_error s)) = true -> Matches ic WordB p [] s
| MBol s : Matches ic Bol None [] s
| MEol p : Matches ic Eol p [] []
| MEps p s : Matches ic Eps p [] s
| MSeq r1 r2 p w1 w2 s :
    Matches ic r1 p w1 (w2 ++ s) -> Matches ic r2 (lastOr p w1) w2 s ->
    Matches ic (Seq r1 r2) p (w1 ++ w2) s
| MAltL r1 r2 p w s : Matches ic r1 p w s -> Matches ic (Alt r1 r2) p w s
| MAltR r1 r2 p w s : Matches ic r2 p w s -> Matches ic (Alt r1 r2) p w s
| MRepNone min r p s : Matches ic (Rep min (Some 0) r) p [] s
| MRepExit max r p s : Matches ic (Rep 0 max r) p [] s
| MRepIter min max r p w1 w2 s :
    max <> Some 0 -> (min = 0 -> w1 <> []) ->
    Matches ic r p w1 (w2 ++ s) ->
    Matches ic (Rep (Nat.pred min) (decrMax max) r) (lastOr p w1) w2 s ->
    Matches ic (Rep min max r) p (w1 ++ w2) s
| MGroup r p w s : Matches ic r p w s -> Matches ic (Group r) p w s.

(** [st'] is [st] after reading a word that [r] matches. *)
Definition reaches (ic : bool) (r : regex) (st st' : state) : Prop :=
  exists w, rest st = w ++ rest st' /\ pos st' = pos st + length w
            /\ prev st' = lastOr (prev st) w
            /\ Matches ic r (prev st) w (rest st').

(** The em dash and the en dash, and the code unit that replaces them. *)
Definition isDashGlyph (c : char) : bool := (c =? emDash)%N || (c =? enDash)%N.

Definition normalizeDash (c : char) : char :=
  if isDashGlyph c then hyphen else c.

Definition noDashGlyph (c : char) : bool := negb (isDashGlyph c).

Definition notSpace (c : char) : bool := negb (isSpace c).

(** The letters e and l, in either case. *)
Definition isE (c : char) : bool := (c =? 101)%N || (c =? 69)%N.
Definition isL (c : char) : bool := (c =? 108)%N || (c =? 76)%N.

(** From left to right, every e followed by an l, in either case, becomes EL. *)
Fixpoint replaceEL (s : jsstring) : jsstring :=
  match s with
  | [] => []
  | c1 :: s' =>
      match s' with
      | c2 :: t => if isE c1 && isL c2 then 69%N :: 76%N :: replaceEL t
                   else c1 :: replaceEL s'
      | [] => [c1]
      end
  end.

(** A regular expression that ends with [(?:-\d)+$]. *)
Inductive EndsWithSuffix : regex -> Prop :=
| EndsHere : EndsWithSuffix (Seq suffixes Eol)
| EndsLater r1 r2 : EndsWithSuffix r2 -> EndsWithSuffix (Seq r1 r2).

(** An upper-case mapping to run the examples with: it leaves a string as it
    is from its first code unit of 128 or more on. *)
Definition upperKeep : jsstring -> jsstring := fun s => s.

(** The note the loop writes for a match that the validation turns down. *)
Definition isInvalidNote (e : entry) : bool :=
  match fst e with INFO => true | ERROR => false end
  && startsWith (snd e) (js "Found potential order number but invalid format: ").

(** No pattern has a match that cleans up to a valid order number. *)
Definition noValidCandidate (upperUnicode : jsstring -> jsstring)
    (normalizedText : jsstring) (ps : list regexp) : bool :=
  forallb (fun pattern =>
             match exec pattern normalizedText with
             | Some mt =>
                 negb (isValidFormat (candidate upperUnicode normalizedText mt))
             | None => true
             end) ps.

(** The diagnostics of [extractOrderNumber]: the normalized text between two
    markers and the list of the patterns. *)
Definition diagnostics (normalizedText : jsstring) (ps : list regexp)
    : list entry :=
  [(ERROR, js "No order number found. Text content:");
   (ERROR, js "---Begin Text Content---");
   (ERROR, normalizedText);
   (ERROR, js "---End Text Content---");
   (ERROR, js "Attempted patterns:")]
  ++ map (fun pattern => (ERROR, js "- " ++ toString pattern)) ps.

(** The seventeen regular expressions of the cascade as the source writes
    them and as [pattern.toString()] prints them, in the order of the array
    [patterns]: what a template literal adds is written out. *)
Definition cascadeSources : list jsstring :=
  [js "/\b(\d{9}(?:\s*[" ++ [emDash; enDash] ++ js "-]\s*\d)+)\b/";
   js "/\b(2\d{9}(?:-\d)?)\b/";
   js "/\b(EL\d{6}EL(?:-\d)?)\b/i";
   js "/\b((?:R|AL)\d{4}(?:-\d)?)\b/i";
   js "/\b((?:EJR|EJC|MH)\d{6}(?:-\d)?)\b/i";
   js "/\b(\d{9}\s*-\s*\d)\b/";
   js "/\b(\d{9}(?:-\d)?)\b/";
   js "/\b(\d{6}\s*-\s*\d)\b/";
   js "/\b(\d{6}-\d)\b/";
   js "/(?:^|\s|#)(EL\d{6}EL(?:-\d)?)/i";
   js "/(?:^|\s|#)((?:R|AL)\d{4}(?:-\d)?)/i";
   js "/(?:^|\s|#)((?:EJR|EJC|MH)\d{6}(?:-\d)?)/i";
   js "/(?:Order\s*#?\s*|Order\s*Number\s*[:" ++ [dquote]
     ++ js "']?\s*)((?:(?:EJR|EJC|MH))?\d{6,9}\s*-?\s*\d?)/i";
   js "/(?:Order\s*#?\s*|Order\s*Number\s*[:" ++ [dquote]
     ++ js "']?\s*)((?:(?:R|AL))?\d{4}\s*-?\s*\d?)/i";
   js "/(?:Order\s*#?\s*|Order\s*Number\s*[:" ++ [dquote]
     ++ js "']?\s*)(EL\d{6}EL\s*-?\s*\d?)/i";
   js "/#\s*((?:(?:EJR|EJC|MH)|(?:R|AL))?\d{4,9}\s*-?\s*\d?)/i";
   js "/#\s*(EL\d{6}EL\s*-?\s*\d?)/i"].

(** What is between the slashes of a printed regular expression. *)
Definition betweenSlashes (printed : jsstring) : jsstring :=
  match printed with
  | [] => []
  | _ :: s => rev (match dropWhile (fun c => negb (isSlash c)) (rev s) with
                   | [] => []
                   | _ :: s' => s'
                   end)
  end.

(** Every match of [r] reads the character [c], in either case. *)
Fixpoint mustRead (c : char) (r : regex) : bool :=
  match r with
  | Chr a => charEq true a c
  | Seq r1 r2 => mustRead c r1 || mustRead c r2
  | Alt r1 r2 => mustRead c r1 && mustRead c r2
  | Rep (S _) (Some (S _)) r' | Rep (S _) None r' => mustRead c r'
  | Group r' => mustRead c r'
  | _ => false
  end.

(** A pattern that requires the word Order (its letter O) or a [#]. *)
Definition requiresOrderOrHash (re : regexp) : bool :=
  mustRead 79%N (tree re) || mustRead 35%N (tree re).

(** A pattern of digits, dashes, white space and word boundaries only. *)
Fixpoint bareNumeric (r : regex) : bool :=
  match r with
  | Chr c => isDigit c || (c =? hyphen)%N
  | Class cs => forallb (fun c => isDashGlyph c || (c =? hyphen)%N) cs
  | Digit | Space | WordB | Eps => true
  | Bol | Eol => false
  | Seq r1 r2 | Alt r1 r2 => bareNumeric r1 && bareNumeric r2
  | Rep _ _ r' | Group r' => bareNumeric r'
  end.

(** The class of a code unit: 0 for the digits other than 2, the code unit
    itself otherwise. *)
Definition digitClass (c : char) : char :=
  if isDigit c && negb (c =? 50)%N then 48%N else c.

(** A state of the matcher on the classes of a text. *)
Definition classState (st : state) : state :=
  mkState (option_map digitClass (prev st)) (pos st) (map digitClass (rest st))
    (cap st).

(** A character of a pattern that is not a digit other than 2. *)
Definition plainLiteral (a : char) : bool := negb (isDigit a) || (a =? 50)%N.

(** A pattern whose characters are all plain. *)
Fixpoint plainLiterals (r : regex) : bool :=
  match r with
  | Chr a => plainLiteral a
  | Class cs => forallb plainLiteral cs
  | Seq r1 r2 | Alt r1 r2 => plainLiterals r1 && plainLiterals r2
  | Rep _ _ r' | Group r' => plainLiterals r'
  | _ => true
  end.

(** A match on the classes of a text. *)
Definition classMatch (mt : nat * state) : nat * state :=
  (fst mt, classState (snd mt)).

(** The words of [n] characters 0 and 2. *)
Fixpoint digitWords (n : nat) : list jsstring :=
  match n with
  | 0 => [[]]
  | S n' => flat_map (fun w => [48%N :: w; 50%N :: w]) (digitWords n')
  end.

(** The shape of a text: fixed parts and runs of digits that are left open. *)
Inductive part : Type :=
| Fixed (s : jsstring)
| Digits (n : nat).

(** A text of a shape. *)
Inductive Fills : list part -> jsstring -> Prop :=
| FillsNil : Fills [] []
| FillsFixed s shape t : Fills shape t -> Fills (Fixed s :: shape) (s ++ t)
| FillsDigits ds shape t :
    forallb isDigit ds = true -> Fills shape t ->
    Fills (Digits (length ds) :: shape) (ds ++ t).

(** The digit classes of the texts of a shape. *)
Fixpoint instances (shape : list part) : list jsstring :=
  match shape with
  | [] => [[]]
  | Fixed s :: shape' => map (app (map digitClass s)) (instances shape')
  | Digits n :: shape' =>
      flat_map (fun w => map (app w) (instances shape')) (digitWords n)
  end.

(** All the code units of the fixed parts of a shape satisfy [f]. *)
Definition fixedParts (f : char -> bool) (shape : list part) : bool :=
  forallb (fun p => match p with Fixed s => forallb f s | Digits _ => true end)
    shape.

(** On the text [T], the patterns before the one of index [k] do not match,
    and that one matches with its group at [span]. *)
Definition decidedBy (k : nat) (span : nat * nat) (T : jsstring) : bool :=
  forallb (fun q => match exec q T with None => true | Some _ => false end)
    (firstn k patterns)
  && match nth_error patterns k with
     | Some pattern =>
         match exec pattern T with
         | Some mt =>
             match cap (snd mt) with
             | Some c => (fst c =? fst span) && (snd c =? snd span)
             | None => false
             end
         | None => false
         end
     | None => false
     end.

(** The roots of the six families of order numbers, with their letters in
    any case, and the same roots in canonical case. *)
Inductive Root : jsstring -> jsstring -> Prop :=
| RootLong prefix letters ds :
    In prefix longPrefixes -> map asciiUpper letters = prefix ->
    length ds = 6 -> forallb isDigit ds = true ->
    Root (letters ++ ds) (prefix ++ ds)
| RootShort prefix letters ds :
    In prefix shortPrefixes -> map asciiUpper letters = prefix ->
    length ds = 4 -> forallb isDigit ds = true ->
    Root (letters ++ ds) (prefix ++ ds)
| RootEL e1 l1 e2 l2 ds :
    isE e1 = true -> isL l1 = true -> isE e2 = true -> isL l2 = true ->
    length ds = 6 -> forallb isDigit ds = true ->
    Root ([e1; l1] ++ ds ++ [e2; l2]) (js "EL" ++ ds ++ js "EL")
| Root2Plus9 ds :
    length ds = 9 -> forallb isDigit ds = true -> Root (50%N :: ds) (50%N :: ds)
| Root9 ds : length ds = 9 -> forallb isDigit ds = true -> Root ds ds
| Root6 ds : length ds = 6 -> forallb isDigit ds = true -> Root ds ds.

(** The suffixes [-d] for the digits [d] of [sfx], one after the other. *)
Definition chain (sfx : jsstring) : jsstring :=
  flat_map (fun d => [hyphen; d]) sfx.

(** The first way to match. *)
Definition headIs (A : Type) (l : list A) (x : A) : Prop := exists l', l = x :: l'.

(** One link of the chain as the first pattern reads it: a dash, then a
    digit, each after optional white space. *)
Definition segment : regex :=
  seq [star Space; Class [emDash; enDash; hyphen]; star Space; Digit].

(** The strings of a canonical format that come back whole: a root with one
    suffix, or nine bare digits with one suffix or more. *)
Inductive Suffixed : jsstring -> jsstring -> Prop :=
| OneSuffix root canonical d :
    Root root canonical -> isDigit d = true ->
    Suffixed (root ++ [hyphen; d]) (canonical ++ [hyphen; d])
| NineChained ds sfx :
    length ds = 9 -> forallb isDigit ds = true ->
    sfx <> [] -> forallb isDigit sfx = true ->
    Suffixed (ds ++ chain sfx) (ds ++ chain sfx).

(** ** Words that begin like an order number *)

(** Whether a text begins with code units that satisfy the predicates of a
    list, one each and in order. *)
Fixpoint matchesAt (preds : list (char -> bool)) (s : jsstring) : bool :=
  match preds, s with
  | [], _ => true
  | q :: preds', c :: s' => q c && matchesAt preds' s'
  | _ :: _, [] => false
  end.

(** Whether a word of a text begins that way: somewhere in the text, right
    after a code unit that is not a word character or at the very start
    ([p] is the code unit before the text). *)
Fixpoint wordStarts (preds : list (char -> bool)) (p : option char)
    (s : jsstring) : bool :=
  (negb (isWordOpt p) && matchesAt preds s)
  || match s with
     | [] => false
     | c :: s' => wordStarts preds (Some c) s'
     end.

(** The letter [a], in either case. *)
Definition sameLetter (a c : char) : bool := (asciiUpper a =? asciiUpper c)%N.

(** Nine digits; a prefix directly followed by a digit. *)
Definition nineDigits : list (char -> bool) := repeat isDigit 9.

Definition prefixThenDigit (prefix : jsstring) : list (char -> bool) :=
  map sameLetter prefix ++ [isDigit].

(** How the order numbers that the cascade tries before the bare numbers of
    six digits begin: with nine digits, or with one of the prefixes EL, R,
    AL, EJR, EJC and MH and a digit. *)
Definition numberStarts : list (list (char -> bool)) :=
  nineDigits :: map prefixThenDigit (js "EL" :: shortPrefixes ++ longPrefixes).

(** A text in which no word begins like one of these order numbers. *)
Definition plain (s : jsstring) : bool :=
  forallb (fun preds => negb (wordStarts preds None s)) numberStarts.

(** A root that begins with a letter: one of a family with a prefix. *)
Definition prefixed (root : jsstring) : bool :=
  match root with
  | c :: _ => negb (isDigit c)
  | [] => false
  end.

(** Predicates that only word characters satisfy. *)
Definition WordOnly (preds : list (char -> bool)) : Prop :=
  forall q, In q preds -> forall c, q c = true -> isWordChar c = true.

(** The occurrences of [preds] that begin in [x] are the same in [x ++ y]
    as in [x]. *)
Definition Closed (preds : list (char -> bool)) (x y : jsstring) : Prop :=
  forall a b, x = a ++ b -> b <> [] -> matchesAt preds (b ++ y) = matchesAt preds b.

(** ** What an expression reads *)

(** The characters written in a regular expression. *)
Fixpoint literals (r : regex) : list char :=
  match r with
  | Chr c => [c]
  | Class cs => cs
  | Seq r1 r2 | Alt r1 r2 => literals r1 ++ literals r2
  | Rep _ _ r' | Group r' => literals r'
  | _ => []
  end.

(** The group of a state, if it has one, lies between [lo] and the
    position. *)
Definition capWithin (lo : nat) (st : state) : Prop :=
  lo <= pos st
  /\ match cap st with
     | Some (a, b) => lo <= a /\ a <= b /\ b <= pos st
     | None => True
     end.

(** A code unit other than the slash. *)
Definition notSlash (c : char) : bool := negb (isSlash c).


(** ** Runs of a program *)

(** What a run leaves behind: the calls with their answers and the lines of
    the log, in order. *)
Inductive event : Type :=
| Called (X : Type) (c : call X) (answer : Error + X)
| Wrote (level message : jsstring).

Inductive outcome (A : Type) : Type :=
| Returned (a : A)
| Thrown (e : Error)
| Exited (code : N).

Arguments Thrown {A} e.
Arguments Exited {A} code.

(** An answer a call can get. *)
Definition possible (X : Type) (c : call X) (answer : Error + X) : Prop :=
  match answer with
  | inl _ => throws c = true
  | inr _ => True
  end.

(** [Run p t o]: the program [p] can run leaving the trace [t] and ending
    with [o]. *)
Inductive Run (A : Type) : io A -> list event -> outcome A -> Prop :=
| RunReturn a : Run (Return a) [] (Returned a)
| RunThrow e : Run (Throw e) [] (Thrown e)
| RunExit code : Run (Exit code) [] (Exited code)
| RunCall X (c : call X) k answer t o :
    possible c answer -> Run (k answer) t o ->
    Run (Call c k) (Called c answer :: t) o
| RunLog level message k t o :
    Run k t o -> Run (Log level message k) (Wrote level message :: t) o.

(** [always p P]: [P] holds of every run of [p]. *)
Fixpoint always (A : Type) (p : io A) (P : list event -> outcome A -> Prop)
    : Prop :=
  match p with
  | Return a => P [] (Returned a)
  | Throw e => P [] (Thrown e)
  | Exit code => P [] (Exited code)
  | Call c k =>
      forall answer, possible c answer ->
        always (k answer) (fun t o => P (Called c answer :: t) o)
  | Log level message k => always k (fun t o => P (Wrote level message :: t) o)
  end.

(** *** What a trace holds *)

Definition fetchOf (X : Type) (c : call X)
    : Error + X -> list (call Response * (Error + Response)) :=
  match c in call T return Error + T -> list (call Response * (Error + Response)) with
  | fetch url init => fun answer => [(fetch url init, answer)]
  | _ => fun _ => []
  end.

(** The requests sent, with their answers. *)
Definition fetches (t : list event) : list (call Response * (Error + Response)) :=
  flat_map (fun e => match e with
                     | Called c answer => fetchOf c answer
                     | Wrote _ _ => []
                     end) t.

Definition requests (t : list event) : list (call Response) :=
  map fst (fetches t).

Definition answeredOk (answer : Error + Response) : bool :=
  match answer with inr response => ok response | inl _ => false end.

Definition jsonOf (X : Type) (c : call X) : Error + X -> list ordersData :=
  match c in call T return Error + T -> list ordersData with
  | json _ => fun answer => match answer with inr data => [data] | inl _ => [] end
  | _ => fun _ => []
  end.

(** The answers of the lookup that were read. *)
Definition lookups (t : list event) : list ordersData :=
  flat_map (fun e => match e with
                     | Called c answer => jsonOf c answer
                     | Wrote _ _ => []
                     end) t.

Definition textOf (X : Type) (c : call X) : Error + X -> list (jsstring * jsstring) :=
  match c in call T return Error + T -> list (jsstring * jsstring) with
  | recognize imagePath _ =>
      fun answer => match answer with inr text => [(imagePath, text)] | inl _ => [] end
  | _ => fun _ => []
  end.

(** The images the OCR read, with their texts. *)
Definition recognized (t : list event) : list (jsstring * jsstring) :=
  flat_map (fun e => match e with
                     | Called c answer => textOf c answer
                     | Wrote _ _ => []
                     end) t.

(** The commands run, the files handed to the OCR, the files renamed and the
    files deleted, whatever the answer was. *)
Definition commandOf (X : Type) (c : call X) : list jsstring :=
  match c with execAsync command => [command] | _ => [] end.

Definition scanOf (X : Type) (c : call X) : list jsstring :=
  match c with recognize imagePath _ => [imagePath] | _ => [] end.

Definition renameOf (X : Type) (c : call X) : list (jsstring * jsstring) :=
  match c with renameSync oldPath newPath => [(oldPath, newPath)] | _ => [] end.

Definition unlinkOf (X : Type) (c : call X) : list jsstring :=
  match c with unlinkSync path => [path] | _ => [] end.

Definition calls (A : Type) (f : forall X, call X -> list A) (t : list event)
    : list A :=
  flat_map (fun e => match e with
                     | Called c _ => f _ c
                     | Wrote _ _ => []
                     end) t.

Definition commands : list event -> list jsstring := calls commandOf.
Definition scanned : list event -> list jsstring := calls scanOf.
Definition renamed : list event -> list (jsstring * jsstring) := calls renameOf.
Definition unlinked : list event -> list jsstring := calls unlinkOf.

Definition listingOf (X : Type) (c : call X)
    : Error + X -> list (Error + list jsstring) :=
  match c in call T return Error + T -> list (Error + list jsstring) with
  | readdirSync _ => fun answer => [answer]
  | _ => fun _ => []
  end.

(** What listing the directory gave. *)
Definition listings (t : list event) : list (Error + list jsstring) :=
  flat_map (fun e => match e with
                     | Called c answer => listingOf c answer
                     | Wrote _ _ => []
                     end) t.

(** The errors the calls threw. *)
Definition failures (t : list event) : list Error :=
  flat_map (fun e => match e with
                     | Called _ (inl error) => [error]
                     | _ => []
                     end) t.

(** The lines written to the log. *)
Definition written (t : list event) : list (jsstring * jsstring) :=
  flat_map (fun e => match e with
                     | Wrote level message => [(level, message)]
                     | Called _ _ => []
                     end) t.

Definition wrote (e : entry) : event := Wrote (levelName (fst e)) (snd e).

(** *** What [processOrder] leaves behind *)

(** The requests of a run of [processOrder]: the lookup, then the order it
    found marked as shipped, then that order assigned. *)
Definition orderRequests (orderNumber trackingNumber : jsstring)
    (t : list event) : Prop :=
  requests t = [lookupRequest orderNumber]
  \/ exists data firstUnfulfilled,
       lookups t = [data]
       /\ find awaitingShipment (ordersOf data) = Some firstUnfulfilled
       /\ (requests t
           = [lookupRequest orderNumber;
              markAsShippedRequest (orderId firstUnfulfilled) trackingNumber]
           \/ requests t
              = [lookupRequest orderNumber;
                 markAsShippedRequest (orderId firstUnfulfilled) trackingNumber;
                 assignUserRequest (orderId firstUnfulfilled)]).

(** A trace without a call of the file system, of pdftoppm or of the OCR. *)
Definition networkOnly (t : list event) : Prop :=
  commands t = [] /\ scanned t = [] /\ recognized t = [] /\ renamed t = []
  /\ unlinked t = [] /\ listings t = [].

Definition lastWritten (t : list event) : jsstring * jsstring :=
  last (written t) ([], []).

Definition orderRun (orderNumber trackingNumber : jsstring)
    (t : list event) (o : outcome result) : Prop :=
  exists r,
    o = Returned r
    /\ fileName r = None
    /\ (success r = true -> message r = js "Order processed successfully")
    /\ (success r = false ->
        lastWritten t = (js "ERROR", js "Error processing order: " ++ message r))
    /\ success r = (length (fetches t) =? 3) && forallb answeredOk (map snd (fetches t))
    /\ orderRequests orderNumber trackingNumber t
    /\ networkOnly t.

(** *** What the conversion and the OCR leave behind *)

(** A trace without a request. *)
Definition offline (t : list event) : Prop :=
  fetches t = [] /\ lookups t = [] /\ listings t = [].

Definition pdftoppm (pdfPath : jsstring) : jsstring :=
  js "pdftoppm -png -r 300 " ++ [dquote] ++ pdfPath ++ [dquote] ++ js " "
  ++ [dquote] ++ replaceFirst pdfPath (js ".pdf") [] ++ [dquote].

Definition convertRun (pdfPath : jsstring) (t : list event)
    (o : outcome jsstring) : Prop :=
  let imagePath := replaceFirst pdfPath (js ".pdf") (js ".png") in
  commands t = [pdftoppm pdfPath]
  /\ (renamed t = []
      \/ renamed t = [(replaceFirst pdfPath (js ".pdf") (js "-1.png"), imagePath)])
  /\ offline t /\ scanned t = [] /\ recognized t = [] /\ unlinked t = []
  /\ match o with
     | Returned p => p = imagePath /\ failures t = []
     | Thrown e =>
         failures t = [e]
         /\ lastWritten t
            = (js "ERROR", js "Error converting PDF to image: " ++ errorMessage e)
     | Exited _ => False
     end.

Definition extractRun (filePath : jsstring) (t : list event)
    (o : outcome jsstring) : Prop :=
  let imagePath := replaceFirst filePath (js ".pdf") (js ".png") in
  commands t = [pdftoppm filePath]
  /\ (renamed t = []
      \/ renamed t = [(replaceFirst filePath (js ".pdf") (js "-1.png"), imagePath)])
  /\ offline t
  /\ (scanned t = [] \/ scanned t = [imagePath])
  /\ unlinked t = map (fun _ => imagePath) (recognized t)
  /\ match o with
     | Returned text => recognized t = [(imagePath, text)] /\ failures t = []
     | Thrown e =>
         failures t = [e]
         /\ (recognized t = [] \/ exists text, recognized t = [(imagePath, text)])
         /\ lastWritten t
            = (js "ERROR", js "Error extracting text from PDF: " ++ errorMessage e)
     | Exited _ => False
     end.

(** *** What one file leaves behind *)

Definition baseResult (filePath : jsstring) (success : bool) (message : jsstring)
    (orderNumber trackingNumber : option jsstring) : result :=
  mkResult (Some (lastPortion filePath)) success message orderNumber trackingNumber.

(** The four ways [processPDFFile] ends. *)
Inductive fileOutcome (upperUnicode : jsstring -> jsstring) (filePath : jsstring)
    (t : list event) : result -> Prop :=
| UpstreamFailed e :
    failures t = [e] -> fetches t = [] ->
    lastWritten t
    = (js "ERROR",
       js "Error processing file " ++ filePath ++ js ": " ++ errorMessage e) ->
    fileOutcome upperUnicode filePath t
      (baseResult filePath false (errorMessage e) None None)
| NoOrderNumber imagePath text :
    recognized t = [(imagePath, text)] -> failures t = [] ->
    fst (extractOrderNumber upperUnicode text) = None ->
    fetches t = [] ->
    lastWritten t = (js "ERROR", js "No order number found in PDF: " ++ filePath) ->
    fileOutcome upperUnicode filePath t
      (baseResult filePath false (js "Order number not found in PDF") None None)
| NoTrackingNumber imagePath text orderNumber :
    recognized t = [(imagePath, text)] -> failures t = [] ->
    fst (extractOrderNumber upperUnicode text) = Some orderNumber ->
    fst (extractTrackingNumber filePath text) = None ->
    fetches t = [] ->
    lastWritten t
    = (js "ERROR", js "No tracking number found in filename: " ++ filePath) ->
    fileOutcome upperUnicode filePath t
      (baseResult filePath false (js "Tracking number not found") None None)
| HandedOver imagePath text orderNumber trackingNumber success message :
    recognized t = [(imagePath, text)] ->
    fst (extractOrderNumber upperUnicode text) = Some orderNumber ->
    fst (extractTrackingNumber filePath text) = Some trackingNumber ->
    orderRequests orderNumber trackingNumber t ->
    success = (length (fetches t) =? 3) && forallb answeredOk (map snd (fetches t)) ->
    (success = true -> message = js "Order processed successfully") ->
    lastWritten t
    = (if success
       then (js "SUCCESS",
             js "Successfully processed order " ++ orderNumber
             ++ js " with tracking " ++ trackingNumber)
       else (js "ERROR",
             js "Failed to process order " ++ orderNumber ++ js ": " ++ message)) ->
    fileOutcome upperUnicode filePath t
      (baseResult filePath success message (Some orderNumber) (Some trackingNumber)).

Definition fileRun (upperUnicode : jsstring -> jsstring) (filePath : jsstring)
    (t : list event) (o : outcome result) : Prop :=
  exists r,
    o = Returned r
    /\ fileOutcome upperUnicode filePath t r
    /\ commands t = [pdftoppm filePath]
    /\ unlinked t
       = map (fun _ => replaceFirst filePath (js ".pdf") (js ".png")) (recognized t)
    /\ listings t = [].

(** *** What a directory leaves behind *)

Definition filesRun (files : list jsstring) (results : list result)
    (t : list event) (o : outcome (list result)) : Prop :=
  exists rs,
    o = Returned (results ++ rs)
    /\ map fileName rs = map (fun file => Some (lastPortion file)) files
    /\ commands t = map pdftoppm files
    /\ listings t = [].

Definition directoryRun (lowerUnicode : jsstring -> jsstring)
    (pathJoin : jsstring -> jsstring -> jsstring) (directoryPath : jsstring)
    (t : list event) (o : outcome unit) : Prop :=
  o = Returned tt
  /\ match listings t with
     | [inl e] =>
         written t
         = [(js "ERROR", js "Error processing directory: " ++ errorMessage e)]
         /\ commands t = []
     | [inr names] =>
         let files := map (fun file => pathJoin directoryPath file)
                          (filter (isPdf lowerUnicode) names) in
         exists results,
           lastWritten t = (js "SUMMARY", summaryMessage results)
           /\ map fileName results = map (fun file => Some (lastPortion file)) files
           /\ commands t = map pdftoppm files
     | _ => False
     end.

(** *** The characters of the identifiers *)

(** The characters of an order number: digits, ASCII letters and the hyphen. *)
Definition orderNumberChar (c : char) : bool :=
  isDigit c || inRange 65 90 c || inRange 97 122 c || (c =? hyphen)%N.

(** Whether every character a regular expression can read is among [P]
    (white space is taken not to be). *)
Fixpoint confined (P : char -> bool) (r : regex) : bool :=
  match r with
  | Chr c => P c
  | Digit => true
  | Space => false
  | Class cs => forallb P cs
  | WordB | Bol | Eol | Eps => true
  | Seq r1 r2 | Alt r1 r2 => confined P r1 && confined P r2
  | Rep _ _ r' => confined P r'
  | Group r' => confined P r'
  end.

(** *** Sample runs *)

Definition okResponse : Response := mkResponse true 200.

Definition sampleOrders : ordersData :=
  mkOrdersData (Some [mkOrder 41 (js "shipped");
                      mkOrder 42 (js "awaiting_shipment")]).

(** [processOrder] when every request is answered well. *)
Definition shippedTrace (orderNumber trackingNumber : jsstring) : list event :=
  [Called (lookupRequest orderNumber) (inr okResponse);
   Called (json okResponse) (inr sampleOrders);
   Wrote (js "INFO") (js "Found unfulfilled order: 42");
   Called (markAsShippedRequest 42 trackingNumber) (inr okResponse);
   Wrote (js "INFO") (js "Marked order 42 as shipped");
   Called (assignUserRequest 42) (inr okResponse);
   Wrote (js "INFO") (js "Assigned user to order 42")].

Definition shippedResult : result :=
  mkResult None true (js "Order processed successfully") None None.

(** The conversion of [/in/label.pdf] and its OCR, when all goes well. *)
Definition convertedTrace : list event :=
  [Wrote (js "INFO") (js "Converting PDF to image: /in/label.pdf");
   Called (execAsync (js "pdftoppm -png -r 300 " ++ [dquote] ++ js "/in/label.pdf"
                      ++ [dquote] ++ js " " ++ [dquote] ++ js "/in/label"
                      ++ [dquote])) (inr tt);
   Called (existsSync (js "/in/label-1.png")) (inr true);
   Called (renameSync (js "/in/label-1.png") (js "/in/label.png")) (inr tt)].

Definition recognizedTrace (text : jsstring) : list event :=
  convertedTrace
  ++ [Wrote (js "INFO") (js "Performing OCR on image: /in/label.png");
      Called (recognize (js "/in/label.png") config) (inr text);
      Wrote (js "INFO") (js "OCR completed successfully");
      Called (unlinkSync (js "/in/label.png")) (inr tt)].

(** The same for [/in/LABEL.PDF]. *)
Definition upperCaseTrace (text : jsstring) : list event :=
  [Wrote (js "INFO") (js "Converting PDF to image: /in/LABEL.PDF");
   Called (execAsync (js "pdftoppm -png -r 300 " ++ [dquote] ++ js "/in/LABEL.PDF"
                      ++ [dquote] ++ js " " ++ [dquote] ++ js "/in/LABEL.PDF"
                      ++ [dquote])) (inr tt);
   Called (existsSync (js "/in/LABEL.PDF")) (inr true);
   Called (renameSync (js "/in/LABEL.PDF") (js "/in/LABEL.PDF")) (inr tt);
   Wrote (js "INFO") (js "Performing OCR on image: /in/LABEL.PDF");
   Called (recognize (js "/in/LABEL.PDF") config) (inr text);
   Wrote (js "INFO") (js "OCR completed successfully");
   Called (unlinkSync (js "/in/LABEL.PDF")) (inr tt)].

Definition sampleText : jsstring :=
  js "Order #R3817-1 9205 1234 5678 9012 3456 78".

(** [processPDFFile] on [/in/label.pdf] when the OCR reads [text] and no
    request is sent: [last] is its last line. *)
Definition readTrace (text : jsstring) (last : list event) : list event :=
  [Wrote (js "INFO") (js "Processing PDF: /in/label.pdf")]
  ++ recognizedTrace text
  ++ map wrote (snd (extractOrderNumber upperKeep text))
  ++ last.

(** [processPDFFile] when pdftoppm fails. *)
Definition failedTrace (filePath : jsstring) (e : Error) : list event :=
  [Wrote (js "INFO") (js "Processing PDF: " ++ filePath);
   Wrote (js "INFO") (js "Converting PDF to image: " ++ filePath);
   Called (execAsync (pdftoppm filePath)) (inl e);
   Wrote (js "ERROR") (js "Error converting PDF to image: " ++ errorMessage e);
   Wrote (js "ERROR") (js "Error extracting text from PDF: " ++ errorMessage e);
   Wrote (js "ERROR")
     (js "Error processing file " ++ filePath ++ js ": " ++ errorMessage e)].

Definition notInstalled : Error := newError (js "pdftoppm: not found").


Definition sampleJoin (directoryPath file : jsstring) : jsstring :=
  directoryPath ++ js "/" ++ file.




Definition unreadable : Error := newError (js "ENOENT: no such file or directory").

Definition unreadableTrace (directoryPath : jsstring) : list event :=
  [Called (readdirSync directoryPath) (inl unreadable);
   Wrote (js "ERROR") (js "Error processing directory: " ++ errorMessage unreadable)].

(** [processPDFFile] on [/in/label.pdf] when all goes well. *)
Definition sampleOrderNumber : jsstring := js "R3817-1".
Definition sampleTracking : jsstring := js "9205123456789012345678".

Definition processedTrace : list event :=
  readTrace sampleText
    (map wrote (snd (extractTrackingNumber (js "/in/label.pdf") sampleText))
     ++ shippedTrace sampleOrderNumber sampleTracking
     ++ [Wrote (js "SUCCESS")
           (js "Successfully processed order R3817-1 with tracking 9205123456789012345678")]).

Definition processedResult : result :=
  mkResult (Some (js "label.pdf")) true (js "Order processed successfully")
    (Some sampleOrderNumber) (Some sampleTracking).

(** The same when the text holds no order number, and when it holds no
    tracking number. *)
Definition noOrderTrace : list event :=
  readTrace (js "hello")
    [Wrote (js "ERROR") (js "No order number found in PDF: /in/label.pdf")].

Definition noTrackingTrace : list event :=
  readTrace (js "Order #R3817-1")
    (map wrote (snd (extractTrackingNumber (js "/in/label.pdf") (js "Order #R3817-1")))
     ++ [Wrote (js "ERROR") (js "No tracking number found in filename: /in/label.pdf")]).

(** *** More sample runs, and what a run deletes *)







(** * Properties of the matcher *)

(** ** The syntax trees are those of the source texts *)

Lemma patterns_read :
  map (fun re => readPattern (source re)) patterns
  = map (fun re => Some (tree re)) patterns.
Proof. vm_compute. reflexivity. Qed.

Lemma other_expressions_read :
  map (fun re => readPattern (source re))
    ([dashGlyphs; spaceRuns; elPairs; valid2Plus9; validEL; valid9; valid6;
      uspsTracking; fileNameDigits]
     ++ map validShort shortPrefixes ++ map validLong longPrefixes)
  = map (fun re => Some (tree re))
      ([dashGlyphs; spaceRuns; elPairs; valid2Plus9; validEL; valid9; valid6;
        uspsTracking; fileNameDigits]
       ++ map validShort shortPrefixes ++ map validLong longPrefixes).
Proof. vm_compute. reflexivity. Qed.

(** ** The loop of a quantifier never runs out of fuel *)

Lemma shrinks_refl (st : state) : shrinks st st.
Proof. split; lia. Qed.

Lemma shrinks_trans (a b c : state) : shrinks a b -> shrinks b c -> shrinks a c.
Proof. unfold shrinks; intros [? ?] [? ?]; split; lia. Qed.

Lemma step_shrinks (f : char -> bool) (st st' : state) :
  In st' (step f st) -> shrinks st st'.
Proof.
  unfold step, shrinks. destruct (rest st) as [|c s] eqn:E; [intros []|].
  destruct (f c); [|intros []]. intros [<-|[]]; simpl; lia.
Qed.

Lemma repeatMatcher_shrinks (f : state -> list state) :
  (forall st st', In st' (f st) -> shrinks st st') ->
  forall fuel min max st st',
    In st' (repeatMatcher f fuel min max st) -> shrinks st st'.
Proof.
  intros Hf. induction fuel as [|fuel IH]; intros min max st st' H; [destruct H|].
  simpl in H.
  assert (Hiter : forall m l, (forall x, In x l -> shrinks st x) ->
            In st' (flat_map (repeatMatcher f fuel m (decrMax max)) l) ->
            shrinks st st').
  { intros m l Hl Hin. apply in_flat_map in Hin as (x & Hx & Hx').
    eapply shrinks_trans; [apply Hl, Hx | eapply IH, Hx']. }
  assert (Hbody : In st'
            match min with
            | S min' => flat_map (repeatMatcher f fuel min' (decrMax max)) (f st)
            | 0 => flat_map (repeatMatcher f fuel 0 (decrMax max))
                     (filter (fun x => negb (pos x =? pos st)) (f st)) ++ [st]
            end -> shrinks st st').
  { destruct min as [|min'].
    - intros Hin. apply in_app_or in Hin as [Hin|[<-|[]]].
      + eapply Hiter; [|exact Hin]. intros x Hx. apply filter_In in Hx as [Hx _].
        now apply Hf.
      + apply shrinks_refl.
    - apply Hiter. intros x Hx. now apply Hf. }
  destruct max as [[|n]|]; [destruct H as [<-|[]]; apply shrinks_refl| |]; auto.
Qed.

Lemma matcher_shrinks (ic : bool) (r : regex) :
  forall st st', In st' (matcher ic r st) -> shrinks st st'.
Proof.
  induction r; intros st st' H; cbn [matcher] in H;
    try (eapply step_shrinks; exact H).
  - destruct (xorb _ _); [destruct H as [<-|[]]; apply shrinks_refl|destruct H].
  - destruct (prev st); [destruct H|destruct H as [<-|[]]; apply shrinks_refl].
  - destruct (rest st); [destruct H as [<-|[]]; apply shrinks_refl|destruct H].
  - destruct H as [<-|[]]; apply shrinks_refl.
  - apply in_flat_map in H as (x & Hx & Hx').
    eapply shrinks_trans; [eapply IHr1, Hx|eapply IHr2, Hx'].
  - apply in_app_or in H as [H|H]; auto.
  - eapply repeatMatcher_shrinks; [exact IHr|exact H].
  - apply in_map_iff in H as (x & <- & Hx). apply IHr in Hx.
    unfold shrinks in *; simpl; lia.
Qed.

Lemma flat_map_ext_In (A B : Type) (f g : A -> list B) (l : list A) :
  (forall a, In a l -> f a = g a) -> flat_map f l = flat_map g l.
Proof.
  induction l as [|a l IH]; intros H; simpl; [reflexivity|].
  rewrite H by (left; reflexivity). f_equal. apply IH. intros; apply H; now right.
Qed.

(** Any two amounts of fuel above the bound give the same result. *)
Lemma repeatMatcher_fuel (f : state -> list state) :
  (forall st st', In st' (f st) -> shrinks st st') ->
  forall fuel1 fuel2 min max st,
    min + length (rest st) < fuel1 -> min + length (rest st) < fuel2 ->
    repeatMatcher f fuel1 min max st = repeatMatcher f fuel2 min max st.
Proof.
  intros Hf. induction fuel1 as [|fuel1 IH]; intros fuel2 min max st H1 H2; [lia|].
  destruct fuel2 as [|fuel2]; [lia|]. simpl.
  destruct max as [[|n]|]; try reflexivity;
    (destruct min as [|min'];
     [ f_equal; apply flat_map_ext_In; intros x Hx;
       apply filter_In in Hx as [Hx Hp]; apply Hf in Hx as [Ha Hb];
       apply negb_true_iff, Nat.eqb_neq in Hp; apply IH; simpl; lia
     | apply flat_map_ext_In; intros x Hx; apply Hf in Hx as [Ha Hb];
       apply IH; simpl; lia ]).
Qed.

(** RepeatMatcher as ECMA-262 states it, by recursion on the quantifier:
    the fuel is out of the picture. *)
Theorem matcher_Rep (ic : bool) (min : nat) (max : option nat) (r : regex)
    (st : state) :
  matcher ic (Rep min max r) st =
  match max with
  | Some 0 => [st]
  | _ =>
      match min with
      | S min' => flat_map (matcher ic (Rep min' (decrMax max) r)) (matcher ic r st)
      | 0 =>
          flat_map (matcher ic (Rep 0 (decrMax max) r))
            (filter (fun st' => negb (pos st' =? pos st)) (matcher ic r st))
          ++ [st]
      end
  end.
Proof.
  change (matcher ic (Rep min max r) st)
    with (repeatMatcher (matcher ic r) (S (min + length (rest st))) min max st).
  cbn [repeatMatcher].
  destruct max as [[|n]|]; try reflexivity;
    (destruct min as [|min'];
     [ f_equal; apply flat_map_ext_In; intros x Hx;
       apply filter_In in Hx as [Hx Hp]; apply matcher_shrinks in Hx as [Ha Hb];
       apply negb_true_iff, Nat.eqb_neq in Hp;
       change (matcher ic (Rep 0 ?m r) x)
         with (repeatMatcher (matcher ic r) (S (0 + length (rest x))) 0 m x);
       apply repeatMatcher_fuel; [apply matcher_shrinks| |]; simpl; lia
     | apply flat_map_ext_In; intros x Hx; apply matcher_shrinks in Hx as [Ha Hb];
       change (matcher ic (Rep min' ?m r) x)
         with (repeatMatcher (matcher ic r) (S (min' + length (rest x))) min' m x);
       apply repeatMatcher_fuel; [apply matcher_shrinks| |]; simpl; lia ]).
Qed.

(** ** What a match is *)

Lemma lastOr_app (p : option char) (w1 w2 : jsstring) :
  lastOr p (w1 ++ w2) = lastOr (lastOr p w1) w2.
Proof. revert p; induction w1; intro p; simpl; auto. Qed.

Lemma reaches_nil (ic : bool) (r : regex) (st : state) :
  Matches ic r (prev st) [] (rest st) -> reaches ic r st st.
Proof. intros H; exists []; simpl; repeat split; auto. Qed.

Lemma step_reaches (ic : bool) (r : regex) (f : char -> bool) (st st' : state) :
  (forall ch p s, f ch = true -> Matches ic r p [ch] s) ->
  In st' (step f st) -> reaches ic r st st'.
Proof.
  intros Hr. unfold step. destruct (rest st) as [|c s] eqn:E; [intros []|].
  destruct (f c) eqn:Hc; [|intros []]. intros [<-|[]].
  exists [c]; simpl; repeat split; auto. lia.
Qed.

Lemma reaches_iter (ic : bool) (r : regex) (min : nat) (max : option nat)
    (st st1 st' : state) :
  max <> Some 0 -> (min = 0 -> pos st1 <> pos st) ->
  reaches ic r st st1 ->
  reaches ic (Rep (Nat.pred min) (decrMax max) r) st1 st' ->
  reaches ic (Rep min max r) st st'.
Proof.
  intros Hmax Hmin (w1 & E1 & P1 & L1 & M1) (w2 & E2 & P2 & L2 & M2).
  exists (w1 ++ w2). rewrite length_app, lastOr_app, <- app_assoc.
  repeat split; try congruence; try lia.
  apply MRepIter; auto.
  - intros Hz ->. apply (Hmin Hz). simpl in P1. lia.
  - rewrite <- E2. exact M1.
  - rewrite <- L1. exact M2.
Qed.

Lemma repeatMatcher_sound (ic : bool) (r : regex) (f : state -> list state) :
  (forall st st', In st' (f st) -> reaches ic r st st') ->
  forall fuel min max st st',
    In st' (repeatMatcher f fuel min max st) -> reaches ic (Rep min max r) st st'.
Proof.
  intros Hf. induction fuel as [|fuel IH]; intros min max st st' H; [destruct H|].
  simpl in H.
  assert (Hbody : max <> Some 0 -> In st'
            match min with
            | S min' => flat_map (repeatMatcher f fuel min' (decrMax max)) (f st)
            | 0 => flat_map (repeatMatcher f fuel 0 (decrMax max))
                     (filter (fun x => negb (pos x =? pos st)) (f st)) ++ [st]
            end -> reaches ic (Rep min max r) st st').
  { intros Hmax. destruct min as [|min'].
    - intros Hin. apply in_app_or in Hin as [Hin|[<-|[]]].
      + apply in_flat_map in Hin as (x & Hx & Hx').
        apply filter_In in Hx as [Hx Hp].
        apply negb_true_iff, Nat.eqb_neq in Hp.
        eapply reaches_iter; eauto.
      + apply reaches_nil, MRepExit.
    - intros Hin. apply in_flat_map in Hin as (x & Hx & Hx').
      eapply reaches_iter; eauto. discriminate. }
  destruct max as [[|n]|].
  - destruct H as [<-|[]]. apply reaches_nil, MRepNone.
  - apply Hbody; [discriminate|exact H].
  - apply Hbody; [discriminate|exact H].
Qed.

(** Every end state the matcher lists is the end of a match. *)
Theorem matcher_sound (ic : bool) (r : regex) :
  forall st st', In st' (matcher ic r st) -> reaches ic r st st'.
Proof.
  induction r; intros st st' H; cbn [matcher] in H.
  - eapply step_reaches; [|exact H]. intros; now apply MChr.
  - eapply step_reaches; [|exact H]. intros; now apply MDigit.
  - eapply step_reaches; [|exact H]. intros; now apply MSpace.
  - eapply step_reaches; [|exact H]. intros ch p s Hc; now apply MClass.
  - destruct (xorb _ _) eqn:E; [|destruct H]. destruct H as [<-|[]].
    apply reaches_nil, MWordB. unfold wordBefore, wordAfter in E.
    destruct (rest st); exact E.
  - destruct (prev st) eqn:E; [destruct H|]. destruct H as [<-|[]].
    apply reaches_nil. rewrite E. apply MBol.
  - destruct (rest st) eqn:E; [|destruct H]. destruct H as [<-|[]].
    apply reaches_nil. rewrite E. apply MEol.
  - destruct H as [<-|[]]. apply reaches_nil, MEps.
  - apply in_flat_map in H as (x & Hx & Hx').
    apply IHr1 in Hx as (w1 & E1 & P1 & L1 & M1).
    apply IHr2 in Hx' as (w2 & E2 & P2 & L2 & M2).
    exists (w1 ++ w2). rewrite length_app, lastOr_app, <- app_assoc.
    repeat split; try congruence; try lia.
    apply MSeq; [rewrite <- E2; exact M1|rewrite <- L1; exact M2].
  - apply in_app_or in H as [H|H].
    + apply IHr1 in H as (w & ? & ? & ? & ?). exists w; repeat split; auto.
      now apply MAltL.
    + apply IHr2 in H as (w & ? & ? & ? & ?). exists w; repeat split; auto.
      now apply MAltR.
  - eapply repeatMatcher_sound; [exact IHr|exact H].
  - apply in_map_iff in H as (x & <- & Hx).
    apply IHr in Hx as (w & ? & ? & ? & ?). exists w; simpl; repeat split; auto.
    now apply MGroup.
Qed.

(** Every match is the end state of a way the matcher lists. *)
Theorem matcher_complete (ic : bool) (r : regex) (p : option char)
    (w s : jsstring) :
  Matches ic r p w s ->
  forall i c, exists c',
    In (mkState (lastOr p w) (i + length w) s c')
       (matcher ic r (mkState p i (w ++ s) c)).
Proof.
  induction 1; intros i c0.
  - exists c0. cbn [matcher]. unfold step. simpl. rewrite H, Nat.add_1_r. now left.
  - exists c0. cbn [matcher]. unfold step. simpl. rewrite H, Nat.add_1_r. now left.
  - exists c0. cbn [matcher]. unfold step. simpl. rewrite H, Nat.add_1_r. now left.
  - exists c0. cbn [matcher]. unfold step. simpl. rewrite H, Nat.add_1_r. now left.
  - exists c0. cbn [matcher]. unfold wordBefore, wordAfter.
    cbn [prev rest app lastOr length].
    replace (match s with [] => false | c :: _ => isWordChar c end)
      with (isWordOpt (hd_error s)) by (destruct s; reflexivity).
    fold (isWordOpt p). rewrite H, Nat.add_0_r. now left.
  - exists c0. simpl. rewrite Nat.add_0_r. now left.
  - exists c0. simpl. rewrite Nat.add_0_r. now left.
  - exists c0. simpl. rewrite Nat.add_0_r. now left.
  - destruct (IHMatches1 i c0) as (c1 & H1).
    destruct (IHMatches2 (i + length w1) c1) as (c2 & H2).
    exists c2. cbn [matcher]. apply in_flat_map.
    eexists; split; [rewrite <- app_assoc; exact H1|].
    rewrite lastOr_app, length_app, Nat.add_assoc. exact H2.
  - destruct (IHMatches i c0) as (c1 & H1). exists c1. cbn [matcher].
    apply in_or_app; now left.
  - destruct (IHMatches i c0) as (c1 & H1). exists c1. cbn [matcher].
    apply in_or_app; now right.
  - exists c0. rewrite matcher_Rep. simpl. rewrite Nat.add_0_r. now left.
  - exists c0. rewrite matcher_Rep. simpl. rewrite Nat.add_0_r.
    destruct max as [[|n]|]; [now left| |]; apply in_or_app; right; now left.
  - destruct (IHMatches1 i c0) as (c1 & H3).
    destruct (IHMatches2 (i + length w1) c1) as (c2 & H4).
    exists c2. rewrite matcher_Rep.
    rewrite <- app_assoc, lastOr_app, length_app, Nat.add_assoc.
    assert (Hiter : In (mkState (lastOr (lastOr p w1) w2)
                          (i + length w1 + length w2) s c2)
              match min with
              | S min' => flat_map (matcher ic (Rep min' (decrMax max) r))
                            (matcher ic r (mkState p i (w1 ++ w2 ++ s) c0))
              | 0 => flat_map (matcher ic (Rep 0 (decrMax max) r))
                       (filter (fun st' => negb (pos st' =? pos (mkState p i (w1 ++ w2 ++ s) c0)))
                          (matcher ic r (mkState p i (w1 ++ w2 ++ s) c0)))
                     ++ [mkState p i (w1 ++ w2 ++ s) c0]
              end).
    { destruct min as [|min'].
      - apply in_or_app; left. apply in_flat_map. eexists; split; [|exact H4].
        apply filter_In; split; [exact H3|]. simpl.
        apply negb_true_iff, Nat.eqb_neq.
        assert (w1 <> []) by auto. destruct w1; [congruence|simpl; lia].
      - apply in_flat_map. eexists; split; [exact H3|exact H4]. }
    destruct max as [[|n]|]; [congruence| |]; exact Hiter.
  - destruct (IHMatches i c0) as (c1 & H1). eexists. cbn [matcher].
    apply in_map_iff. eexists; split; [|exact H1]. reflexivity.
Qed.

(** ** Searching and replacing *)

Lemma searchFrom_Some (re : regexp) :
  forall s p i start st',
    searchFrom re p i s = Some (start, st') ->
    exists a s1 l,
      s = a ++ s1 /\ start = i + length a
      /\ matcher (ignoreCase re) (tree re) (mkState (lastOr p a) start s1 None)
         = st' :: l.
Proof.
  induction s as [|c s IH]; intros p i start st' H; simpl in H.
  - destruct (matcher _ _ _) as [|x l] eqn:E; [discriminate|].
    injection H as <- <-. exists [], [], l. simpl. rewrite Nat.add_0_r. auto.
  - destruct (matcher _ _ _) as [|x l] eqn:E.
    + apply IH in H as (a & s1 & l & -> & -> & Hm).
      exists (c :: a), s1, l. simpl. rewrite Nat.add_succ_r. auto.
    + injection H as <- <-. exists [], (c :: s), l. simpl.
      rewrite Nat.add_0_r. auto.
Qed.

Lemma searchFrom_None (re : regexp) :
  forall s p i,
    searchFrom re p i s = None ->
    forall a s1, s = a ++ s1 ->
      matcher (ignoreCase re) (tree re)
        (mkState (lastOr p a) (i + length a) s1 None) = [].
Proof.
  induction s as [|c s IH]; intros p i H a s1 E; simpl in H.
  - destruct a; [|discriminate]. simpl in *. subst s1. rewrite Nat.add_0_r.
    destruct (matcher _ _ _); [reflexivity|discriminate].
  - destruct (matcher _ _ _) as [|x l] eqn:Em; [|discriminate].
    destruct a as [|c' a]; simpl in *.
    + subst s1. rewrite Nat.add_0_r. exact Em.
    + injection E as <- ->. rewrite Nat.add_succ_r. now apply (IH _ (S i)).
Qed.

Lemma searchFrom_ge (re : regexp) (s : jsstring) (p : option char)
    (i start : nat) (st' : state) :
  searchFrom re p i s = Some (start, st') -> i <= start.
Proof. intros H. apply searchFrom_Some in H as (a & ? & ? & ? & -> & ?). lia. Qed.

(** [re.test(text)] holds exactly when some part of [text] matches. *)
Theorem test_iff (re : regexp) (text : jsstring) :
  test re text = true <->
  exists a w s, text = a ++ w ++ s
                /\ Matches (ignoreCase re) (tree re) (lastOr None a) w s.
Proof.
  unfold test, exec. split.
  - destruct (searchFrom re None 0 text) as [[start st']|] eqn:E; [|discriminate].
    intros _. apply searchFrom_Some in E as (a & s1 & l & -> & -> & Hm).
    assert (Hin : In st' (matcher (ignoreCase re) (tree re)
                            (mkState (lastOr None a) (0 + length a) s1 None)))
      by (rewrite Hm; now left).
    apply matcher_sound in Hin as (w & E1 & _ & _ & M). simpl in E1, M.
    exists a, w, (rest st'). split; [now rewrite E1|exact M].
  - intros (a & w & s & -> & M).
    destruct (searchFrom re None 0 (a ++ w ++ s)) eqn:E; [reflexivity|].
    exfalso. eapply searchFrom_None in E; [|reflexivity].
    destruct (matcher_complete M (0 + length a) None) as (c' & Hin).
    rewrite E in Hin. destruct Hin.
Qed.

(** One round of [replaceLoop] where the expression does not match at the
    current position. *)
Lemma replaceLoop_skip (re : regexp) (by_ : jsstring) (fuel : nat)
    (p : option char) (i : nat) (c : char) (s : jsstring) :
  matcher (ignoreCase re) (tree re) (mkState p i (c :: s) None) = [] ->
  replaceLoop re by_ (S fuel) p i (c :: s)
  = c :: replaceLoop re by_ (S fuel) (Some c) (S i) s.
Proof.
  intros Hm. cbn [replaceLoop searchFrom]. rewrite Hm.
  destruct (searchFrom re (Some c) (S i) s) as [[start st']|] eqn:E; [|reflexivity].
  apply searchFrom_ge in E.
  replace (start - i) with (S (start - S i)) by lia. reflexivity.
Qed.

(** One round of [replaceLoop] where the expression matches at the current
    position and the match is not empty. *)
Lemma replaceLoop_hit (re : regexp) (by_ : jsstring) (fuel : nat)
    (p : option char) (i : nat) (s : jsstring) (st' : state) (l : list state) :
  matcher (ignoreCase re) (tree re) (mkState p i s None) = st' :: l ->
  pos st' <> i ->
  replaceLoop re by_ (S fuel) p i s
  = by_ ++ replaceLoop re by_ fuel (prev st') (pos st') (rest st').
Proof.
  intros Hm Hp. cbn [replaceLoop].
  assert (E : searchFrom re p i s = Some (i, st'))
    by (destruct s; simpl; rewrite Hm; reflexivity).
  rewrite E, Nat.sub_diag. apply Nat.eqb_neq in Hp. rewrite Hp. reflexivity.
Qed.

Lemma replaceLoop_nil (re : regexp) (by_ : jsstring) (fuel : nat)
    (p : option char) (i : nat) :
  matcher (ignoreCase re) (tree re) (mkState p i [] None) = [] ->
  replaceLoop re by_ fuel p i [] = [].
Proof. intros Hm. destruct fuel; simpl; [|rewrite Hm]; reflexivity. Qed.

(** *** The dash glyphs *)

Lemma existsb_dashGlyph (c : char) :
  existsb (fun a => charEq false a c) [emDash; enDash] = isDashGlyph c.
Proof.
  unfold isDashGlyph, charEq, canonicalize. cbn [existsb].
  rewrite orb_false_r, (N.eqb_sym emDash c), (N.eqb_sym enDash c). reflexivity.
Qed.

Lemma replaceLoop_dashGlyphs :
  forall s fuel p i,
    length s <= fuel ->
    replaceLoop dashGlyphs (js "-") fuel p i s = map normalizeDash s.
Proof.
  induction s as [|c s IH]; intros fuel p i Hf.
  - apply replaceLoop_nil. reflexivity.
  - destruct fuel as [|fuel]; [simpl in Hf; lia|]. simpl in Hf.
    assert (Hm : matcher false (Class [emDash; enDash]) (mkState p i (c :: s) None)
                 = if isDashGlyph c then [mkState (Some c) (S i) s None] else []).
    { cbn [matcher]. unfold step. cbn [rest pos cap].
      rewrite existsb_dashGlyph. reflexivity. }
    simpl map. unfold normalizeDash at 1. destruct (isDashGlyph c).
    + erewrite replaceLoop_hit; [|exact Hm|simpl; lia]. simpl.
      f_equal. apply IH. lia.
    + rewrite replaceLoop_skip by exact Hm. f_equal. apply IH. simpl; lia.
Qed.

(** Replacing the dash glyphs maps every code unit on its own. *)
Lemma replaceAll_dashGlyphs (s : jsstring) :
  replaceAll dashGlyphs (js "-") s = map normalizeDash s.
Proof. apply replaceLoop_dashGlyphs. unfold replaceAll. lia. Qed.

(** *** Runs of white space *)

Lemma length_dropWhile (f : char -> bool) (s : jsstring) :
  length (dropWhile f s) <= length s.
Proof. induction s as [|c s IH]; simpl; [lia|]. destruct (f c); simpl; lia. Qed.

Lemma filter_dropWhile_isSpace (s : jsstring) :
  filter notSpace (dropWhile isSpace s) = filter notSpace s.
Proof.
  induction s as [|c s IH]; simpl; [reflexivity|]. unfold notSpace at 2.
  destruct (isSpace c) eqn:E; simpl; [exact IH|].
  unfold notSpace at 1. rewrite E. reflexivity.
Qed.

(** [\s*] first tries the longest run of white space. *)
Lemma matcher_star_Space (ic : bool) :
  forall s p i c, exists l,
    matcher ic (star Space) (mkState p i s c)
    = mkState (lastOr p (takeWhile isSpace s)) (i + length (takeWhile isSpace s))
        (dropWhile isSpace s) c :: l.
Proof.
  unfold star. induction s as [|ch s IH]; intros p i c; rewrite matcher_Rep;
    cbn [decrMax];
    change (matcher ic Space ?st) with (step isSpace st);
    unfold step; cbn [rest pos cap prev].
  - exists []. simpl. rewrite Nat.add_0_r. reflexivity.
  - simpl takeWhile. simpl dropWhile. destruct (isSpace ch).
    + cbn [filter pos]. replace (S i =? i) with false
        by (symmetry; apply Nat.eqb_neq; lia).
      cbn [negb flat_map]. destruct (IH (Some ch) (S i) c) as (l & ->).
      eexists. simpl. rewrite Nat.add_succ_r. reflexivity.
    + exists []. simpl. rewrite Nat.add_0_r. reflexivity.
Qed.

Lemma matcher_plus_Space (ic : bool) (p : option char) (i : nat) (ch : char)
    (s : jsstring) (c : option (nat * nat)) :
  if isSpace ch
  then exists l,
      matcher ic (plus Space) (mkState p i (ch :: s) c)
      = mkState (lastOr (Some ch) (takeWhile isSpace s))
          (S i + length (takeWhile isSpace s)) (dropWhile isSpace s) c :: l
  else matcher ic (plus Space) (mkState p i (ch :: s) c) = [].
Proof.
  unfold plus. rewrite matcher_Rep. cbn [decrMax].
  change (matcher ic Space ?st) with (step isSpace st).
  unfold step; cbn [rest pos cap prev].
  destruct (isSpace ch); [|reflexivity].
  cbn [flat_map]. destruct (matcher_star_Space ic s (Some ch) (S i) c) as (l & E).
  unfold star in E. rewrite E. eexists. reflexivity.
Qed.

Lemma replaceLoop_spaceRuns :
  forall n s, length s <= n ->
  forall fuel p i,
    length s <= fuel ->
    replaceLoop spaceRuns [] fuel p i s = filter notSpace s.
Proof.
  induction n as [|n IH]; intros s Hn fuel p i Hf.
  - destruct s; [|simpl in Hn; lia]. apply replaceLoop_nil. reflexivity.
  - destruct s as [|ch s]; [apply replaceLoop_nil; reflexivity|].
    destruct fuel as [|fuel]; [simpl in Hf; lia|]. simpl in Hn, Hf.
    pose proof (matcher_plus_Space false p i ch s None) as Hm.
    simpl filter. unfold notSpace at 1. destruct (isSpace ch); simpl negb.
    + destruct Hm as (l & Hm).
      erewrite replaceLoop_hit; [|exact Hm|simpl; lia]. simpl.
      pose proof (length_dropWhile isSpace s).
      rewrite IH by lia. apply filter_dropWhile_isSpace.
    + rewrite replaceLoop_skip by exact Hm. f_equal. apply IH; simpl; lia.
Qed.

(** Removing the runs of white space removes every white-space code unit. *)
Lemma replaceAll_spaceRuns (s : jsstring) :
  replaceAll spaceRuns [] s = filter notSpace s.
Proof. unfold replaceAll. apply replaceLoop_spaceRuns with (n := length s); lia. Qed.

(** *** The letters e and l *)

Lemma isE_cases (c : char) : isE c = true -> c = 69%N \/ c = 101%N.
Proof.
  unfold isE. intros H. apply orb_true_iff in H as [H|H]; apply N.eqb_eq in H; auto.
Qed.

Lemma isL_cases (c : char) : isL c = true -> c = 76%N \/ c = 108%N.
Proof.
  unfold isL. intros H. apply orb_true_iff in H as [H|H]; apply N.eqb_eq in H; auto.
Qed.

Lemma charEq_e (c : char) : charEq true 101%N c = isE c.
Proof.
  unfold charEq, isE. change (canonicalize true 101%N) with 69%N.
  unfold canonicalize, asciiUpper, inRange.
  destruct (N.leb_spec 97 c), (N.leb_spec c 122); cbn [andb];
    destruct (N.eqb_spec c 101), (N.eqb_spec c 69); cbn [orb];
    (apply N.eqb_eq; lia) || (apply N.eqb_neq; lia).
Qed.

Lemma charEq_l (c : char) : charEq true 108%N c = isL c.
Proof.
  unfold charEq, isL. change (canonicalize true 108%N) with 76%N.
  unfold canonicalize, asciiUpper, inRange.
  destruct (N.leb_spec 97 c), (N.leb_spec c 122); cbn [andb];
    destruct (N.eqb_spec c 108), (N.eqb_spec c 76); cbn [orb];
    (apply N.eqb_eq; lia) || (apply N.eqb_neq; lia).
Qed.

Lemma matcher_elPairs (p : option char) (i : nat) (c1 : char) (s : jsstring) :
  matcher true (tree elPairs) (mkState p i (c1 :: s) None)
  = match s with
    | c2 :: t => if isE c1 && isL c2 then [mkState (Some c2) (S (S i)) t None]
                 else []
    | [] => []
    end.
Proof.
  change (tree elPairs) with (Seq (Chr 101%N) (Chr 108%N)).
  cbn [matcher step rest pos cap prev]. rewrite charEq_e.
  destruct (isE c1); [|destruct s; reflexivity]. cbn [flat_map].
  destruct s as [|c2 t]; [reflexivity|]. unfold step; cbn [rest pos cap andb].
  rewrite charEq_l. destruct (isL c2); reflexivity.
Qed.

Lemma replaceLoop_elPairs :
  forall n s, length s <= n ->
  forall fuel p i,
    length s <= fuel ->
    replaceLoop elPairs (js "EL") fuel p i s = replaceEL s.
Proof.
  induction n as [|n IH]; intros s Hn fuel p i Hf.
  - destruct s; [|simpl in Hn; lia]. apply replaceLoop_nil. reflexivity.
  - destruct s as [|c1 s]; [apply replaceLoop_nil; reflexivity|].
    destruct fuel as [|fuel]; [simpl in Hf; lia|]. simpl in Hn, Hf.
    pose proof (matcher_elPairs p i c1 s) as Hm.
    destruct s as [|c2 t].
    + rewrite replaceLoop_skip by exact Hm. reflexivity.
    + cbn [replaceEL]. destruct (isE c1 && isL c2).
      * erewrite replaceLoop_hit; [|exact Hm|simpl; lia]. simpl in *.
        do 2 f_equal. apply IH; lia.
      * rewrite replaceLoop_skip by exact Hm. f_equal. apply IH; simpl in *; lia.
Qed.

Lemma replaceAll_elPairs (s : jsstring) :
  replaceAll elPairs (js "EL") s = replaceEL s.
Proof. unfold replaceAll. apply replaceLoop_elPairs with (n := length s); lia. Qed.

(** ** Reading a match back *)

Lemma Matches_Seq_inv (ic : bool) (r1 r2 : regex) (p : option char)
    (w s : jsstring) :
  Matches ic (Seq r1 r2) p w s ->
  exists w1 w2, w = w1 ++ w2 /\ Matches ic r1 p w1 (w2 ++ s)
                /\ Matches ic r2 (lastOr p w1) w2 s.
Proof. inversion 1; subst. eauto. Qed.

Lemma lastOr_Some (c : char) (w : jsstring) : lastOr (Some c) w <> None.
Proof. revert c; induction w; intro c; simpl; [discriminate|apply IHw]. Qed.

Lemma lastOr_None (p : option char) (w : jsstring) :
  lastOr p w = None -> w = [].
Proof. destruct w; [reflexivity|]. simpl. intros H. now apply lastOr_Some in H. Qed.

Lemma charEq_hyphen (ic : bool) (c : char) :
  charEq ic hyphen c = true -> c = hyphen.
Proof.
  unfold charEq, hyphen. destruct ic.
  - change (canonicalize true 45%N) with 45%N.
    unfold canonicalize, asciiUpper, inRange. intros H. apply N.eqb_eq in H.
    destruct (N.leb_spec 97 c), (N.leb_spec c 122); cbn [andb] in H; lia.
  - unfold canonicalize. intros H. apply N.eqb_eq in H. congruence.
Qed.

Lemma Matches_dashDigit (ic : bool) (p : option char) (w s : jsstring) :
  Matches ic dashDigit p w s ->
  exists d, w = [hyphen; d] /\ isDigit d = true.
Proof.
  intros H. apply Matches_Seq_inv in H as (w1 & w2 & -> & H1 & H2).
  inversion H1; subst. inversion H2; subst.
  match goal with H : charEq _ _ _ = true |- _ => apply charEq_hyphen in H as -> end.
  simpl. eauto.
Qed.

(** What [(?:-\d)+] and [(?:-\d)*] match ends with a hyphen and a digit,
    unless it is empty. *)
Lemma Matches_suffixes (ic : bool) (r : regex) (p : option char) (w s : jsstring) :
  Matches ic r p w s ->
  forall min, r = Rep min None dashDigit ->
    (min = 0 /\ w = [])
    \/ exists root d, w = root ++ [hyphen; d] /\ isDigit d = true.
Proof.
  induction 1; intros m E; try discriminate.
  - injection E as -> ->. now left.
  - injection E as -> -> ->. right.
    apply Matches_dashDigit in H1 as (d & -> & Hd).
    destruct (IHMatches2 (Nat.pred m) eq_refl) as [[_ ->]|(root & d' & -> & Hd')].
    + exists [], d. auto.
    + exists ([hyphen; d] ++ root), d'. rewrite <- app_assoc. auto.
Qed.

Lemma EndsWithSuffix_Matches (ic : bool) (r : regex) :
  EndsWithSuffix r ->
  forall p w s, Matches ic r p w s ->
    s = [] /\ exists root d, w = root ++ [hyphen; d] /\ isDigit d = true.
Proof.
  induction 1; intros p w s M; apply Matches_Seq_inv in M as (w1 & w2 & -> & M1 & M2).
  - inversion M2; subst. split; [reflexivity|]. rewrite app_nil_r.
    destruct (Matches_suffixes M1 eq_refl) as [[? _]|?]; [discriminate|assumption].
  - apply IHEndsWithSuffix in M2 as (-> & root & d & -> & Hd).
    split; [reflexivity|]. exists (w1 ++ root), d. rewrite <- app_assoc. auto.
Qed.

(** A validator: anchored at the start, and ending with [(?:-\d)+$]. *)
Lemma validator_suffix (re : regexp) (r : regex) (text : jsstring) :
  tree re = Seq Bol r -> EndsWithSuffix r -> test re text = true ->
  exists root d, text = root ++ [hyphen; d] /\ isDigit d = true.
Proof.
  intros Et Hr Ht. apply test_iff in Ht as (a & w & s & -> & M).
  rewrite Et in M. apply Matches_Seq_inv in M as (w1 & w2 & -> & M1 & M2).
  inversion M1; subst.
  match goal with H : None = lastOr None a |- _ =>
    symmetry in H; apply lastOr_None in H; subst a end.
  apply (EndsWithSuffix_Matches Hr) in M2 as (-> & root & d & -> & Hd).
  simpl. rewrite app_nil_r. eauto.
Qed.

Ltac ends_with_suffix :=
  repeat first [apply EndsHere | apply EndsLater].

(** Every format of the validation asks for a [-digit] at the end. *)
Lemma isValidFormat_suffix (found : jsstring) :
  isValidFormat found = true ->
  exists root d, found = root ++ [hyphen; d] /\ isDigit d = true.
Proof.
  unfold isValidFormat, shortPrefixes, longPrefixes. cbn [existsb].
  rewrite !orb_false_r. intros H.
  repeat (apply orb_true_iff in H as [H|H]);
    (refine (@validator_suffix _ _ _ _ _ H); [reflexivity|ends_with_suffix]).
Qed.

Lemma hyphen_not_digit_end (root : jsstring) (d : char) :
  forallb isDigit (root ++ [hyphen; d]) = false.
Proof.
  rewrite forallb_app. cbn [forallb]. change (isDigit hyphen) with false.
  apply andb_false_r.
Qed.

(** ** The cascade *)

Section Cascade.

Variable upperUnicode : jsstring -> jsstring.

Lemma fst_bind (A B : Type) (x : Logged A) (f : A -> Logged B) :
  fst (bind x f) = fst (f (fst x)).
Proof. unfold bind. destruct x as [a l]. simpl. destruct (f a). reflexivity. Qed.

(** The value of the loop, without the log. *)
Lemma tryPatterns_fst (text : jsstring) (pattern : regexp) (ps : list regexp) :
  fst (tryPatterns upperUnicode text (pattern :: ps))
  = match exec pattern text with
    | Some mt =>
        if isValidFormat (candidate upperUnicode text mt)
        then Some (candidate upperUnicode text mt)
        else fst (tryPatterns upperUnicode text ps)
    | None => fst (tryPatterns upperUnicode text ps)
    end.
Proof.
  cbn [tryPatterns]. destruct (exec pattern text) as [mt|]; [|reflexivity].
  destruct (isValidFormat _); rewrite fst_bind; reflexivity.
Qed.

Lemma extractOrderNumber_fst (text : jsstring) :
  fst (extractOrderNumber upperUnicode text)
  = fst (tryPatterns upperUnicode (replaceAll dashGlyphs (js "-") text) patterns).
Proof.
  unfold extractOrderNumber. rewrite !fst_bind.
  destruct (fst (tryPatterns _ _ _)); [reflexivity|]. rewrite fst_bind. reflexivity.
Qed.

Lemma tryPatterns_valid (text : jsstring) (ps : list regexp) (s : jsstring) :
  fst (tryPatterns upperUnicode text ps) = Some s -> isValidFormat s = true.
Proof.
  induction ps as [|pattern ps IH]; [discriminate|]. rewrite tryPatterns_fst.
  destruct (exec pattern text) as [mt|]; [|exact IH].
  destruct (isValidFormat (candidate upperUnicode text mt)) eqn:E; [|exact IH].
  intros [= <-]. exact E.
Qed.

End Cascade.

(** ** Normalization and validation *)

(** C8.  Replacing the dash glyphs is total, maps every em dash and en dash
    to the ASCII hyphen and every other code unit to itself, and doing it
    twice gives what doing it once gives. *)
Theorem normalization_pointwise_idempotent (text : jsstring) :
  replaceAll dashGlyphs (js "-") text
  = map (fun c => if (c =? emDash)%N || (c =? enDash)%N then hyphen else c) text
  /\ replaceAll dashGlyphs (js "-") (replaceAll dashGlyphs (js "-") text)
     = replaceAll dashGlyphs (js "-") text.
Proof.
  rewrite !replaceAll_dashGlyphs. split; [reflexivity|].
  rewrite map_map. apply map_ext. intros c. unfold normalizeDash, isDashGlyph.
  destruct ((c =? emDash)%N || (c =? enDash)%N) eqn:E; [reflexivity|].
  rewrite E. reflexivity.
Qed.

(** C1.  Whatever [extractOrderNumber] returns as an order number has passed
    the validation, and the validation only accepts what ends with a hyphen
    and a digit: a string of digits alone is never returned. *)
Theorem extractOrderNumber_validated (upperUnicode : jsstring -> jsstring)
    (text found : jsstring) :
  fst (extractOrderNumber upperUnicode text) = Some found ->
  isValidFormat found = true
  /\ (exists root d, found = root ++ [hyphen; d] /\ isDigit d = true)
  /\ forallb isDigit found = false.
Proof.
  rewrite extractOrderNumber_fst. intros H. apply tryPatterns_valid in H.
  split; [exact H|]. destruct (isValidFormat_suffix _ H) as (root & d & -> & Hd).
  split; [eauto|apply hyphen_not_digit_end].
Qed.

Lemma extractOrderNumber_validated_witness :
  fst (extractOrderNumber upperKeep (js "Order #r3817-1")) = Some (js "R3817-1")
  /\ isValidFormat (js "R3817-1") = true
  /\ (exists root d, js "R3817-1" = root ++ [hyphen; d] /\ isDigit d = true)
  /\ forallb isDigit (js "R3817-1") = false.
Proof.
  split; [vm_compute; reflexivity|].
  apply (@extractOrderNumber_validated upperKeep (js "Order #r3817-1")).
  vm_compute; reflexivity.
Defined.

(** The seventh pattern of the cascade matches the bare number 123456789, the
    validation turns it down, and no order number is returned. *)
Example bare_digits_rejected (upperUnicode : jsstring -> jsstring) :
  option_map (group0 (js "123456789")) (exec (nth 6 patterns valid9) (js "123456789"))
  = Some (js "123456789")
  /\ isValidFormat (js "123456789") = false
  /\ fst (extractOrderNumber upperUnicode (js "123456789")) = None.
Proof. vm_compute. auto. Qed.

(** ** Quantified character classes and anchored expressions *)

Section RepOfClass.

Variables (ic : bool) (r0 : regex) (P : char -> bool).

Hypothesis r0_reads :
  forall p w s, Matches ic r0 p w s -> exists c, w = [c] /\ P c = true.

Lemma Matches_Rep_class (r : regex) (p : option char) (w s : jsstring) :
  Matches ic r p w s ->
  forall min max, r = Rep min max r0 ->
    forallb P w = true
    /\ (forall k, max = Some k -> length w <= k)
    /\ ((forall k, max = Some k -> min <= k) -> min <= length w).
Proof.
  induction 1; intros m mx E; try discriminate.
  - injection E as E1 E2 E3; subst. repeat split; simpl; intros; try lia.
    specialize (H 0 eq_refl). lia.
  - injection E as E1 E2 E3; subst. repeat split; simpl; intros; lia.
  - injection E as E1 E2 E3; subst.
    apply r0_reads in H1 as (c & -> & Hc).
    destruct (IHMatches2 _ _ eq_refl) as (Hall & Hmax & Hmin).
    cbn [app forallb length]. rewrite Hc, Hall. repeat split.
    + intros k ->. specialize (Hmax _ eq_refl). destruct k; [congruence|simpl in *; lia].
    + intros Hk. assert (Nat.pred m <= length w2); [|lia].
      apply Hmin. intros k' Ek. destruct mx as [k|]; [|discriminate].
      injection Ek as <-. specialize (Hk _ eq_refl). lia.
Qed.

Hypothesis r0_accepts :
  forall c p s, P c = true -> Matches ic r0 p [c] s.

Lemma Rep_class_Matches (w : jsstring) :
  forall min max p s,
    forallb P w = true -> min <= length w ->
    (forall k, max = Some k -> length w <= k) ->
    Matches ic (Rep min max r0) p w s.
Proof.
  induction w as [|c w IH]; intros min max p s Hall Hmin Hmax.
  - simpl in Hmin. replace min with 0 by lia. apply MRepExit.
  - cbn [forallb] in Hall. apply andb_true_iff in Hall as [Hc Hall].
    change (c :: w) with ([c] ++ w). apply MRepIter.
    + intros ->. specialize (Hmax _ eq_refl). simpl in Hmax. lia.
    + discriminate.
    + now apply r0_accepts.
    + apply IH; [exact Hall|simpl in Hmin; lia|].
      intros k Ek. destruct max as [k'|]; [|discriminate]. injection Ek as <-.
      specialize (Hmax _ eq_refl). simpl in Hmax. lia.
Qed.

End RepOfClass.

Lemma Digit_reads (ic : bool) (p : option char) (w s : jsstring) :
  Matches ic Digit p w s -> exists c, w = [c] /\ isDigit c = true.
Proof. inversion 1; subst; eauto. Qed.

Lemma Space_reads (ic : bool) (p : option char) (w s : jsstring) :
  Matches ic Space p w s -> exists c, w = [c] /\ isSpace c = true.
Proof. inversion 1; subst; eauto. Qed.

(** [\d{n}] reads [n] digits. *)
Lemma Matches_times_Digit (ic : bool) (n : nat) (p : option char) (w s : jsstring) :
  Matches ic (times n Digit) p w s -> forallb isDigit w = true /\ length w = n.
Proof.
  intros H.
  destruct (@Matches_Rep_class ic Digit isDigit (@Digit_reads ic) _ _ _ _ H _ _ eq_refl)
    as (Hall & Hmax & Hmin).
  split; [exact Hall|]. specialize (Hmax _ eq_refl).
  assert (n <= length w) by (apply Hmin; intros k [= <-]; lia). lia.
Qed.

(** [\s*] reads white space. *)
Lemma Matches_star_Space (ic : bool) (p : option char) (w s : jsstring) :
  Matches ic (star Space) p w s -> forallb isSpace w = true.
Proof.
  intros H.
  exact (proj1 (@Matches_Rep_class ic Space isSpace (@Space_reads ic) _ _ _ _ H _ _ eq_refl)).
Qed.

(** An expression [^r$] tests whether [r] matches the whole text. *)
Lemma test_anchored (re : regexp) (r : regex) (text : jsstring) :
  tree re = Seq Bol (Seq r Eol) ->
  test re text = true <-> Matches (ignoreCase re) r None text [].
Proof.
  intros Et. rewrite test_iff, Et. split.
  - intros (a & w & s & -> & M).
    apply Matches_Seq_inv in M as (w1 & w2 & -> & M1 & M2). inversion M1; subst.
    match goal with H : None = lastOr None a |- _ =>
      symmetry in H; apply lastOr_None in H; subst a end.
    apply Matches_Seq_inv in M2 as (w3 & w4 & -> & M3 & M4). inversion M4; subst.
    simpl in *. rewrite !app_nil_r in *. exact M3.
  - intros M. exists [], text, []. split; [now rewrite app_nil_r|].
    change text with ([] ++ text). apply MSeq; [apply MBol|].
    rewrite <- (app_nil_r text). apply MSeq; [now rewrite app_nil_r|apply MEol].
Qed.

Lemma digit_notSpace (c : char) : isDigit c = true -> notSpace c = true.
Proof.
  unfold isDigit, notSpace, isSpace, inRange. intros H.
  apply andb_true_iff in H as [H1 H2]. apply N.leb_le in H1, H2.
  apply negb_true_iff. repeat (apply orb_false_iff; split);
    try (apply andb_false_iff; left; apply N.leb_gt; lia);
    try (apply andb_false_iff; right; apply N.leb_gt; lia);
    apply N.eqb_neq; lia.
Qed.

Lemma filter_notSpace_spaces (w : jsstring) :
  forallb isSpace w = true -> filter notSpace w = [].
Proof.
  induction w as [|c w IH]; [reflexivity|]. cbn [forallb filter]. intros H.
  apply andb_true_iff in H as [Hc H]. unfold notSpace at 1. rewrite Hc. simpl. auto.
Qed.

Lemma filter_notSpace_digits (w : jsstring) :
  forallb isDigit w = true -> filter notSpace w = w.
Proof.
  induction w as [|c w IH]; [reflexivity|]. cbn [forallb filter]. intros H.
  apply andb_true_iff in H as [Hc H]. rewrite (digit_notSpace _ Hc). f_equal. auto.
Qed.

Lemma substring_app (a w s : jsstring) :
  substring (a ++ w ++ s) (length a) (length a + length w) = w.
Proof.
  unfold substring. rewrite skipn_app, skipn_all, Nat.sub_diag. simpl.
  replace (length a + length w - length a) with (length w) by lia.
  rewrite firstn_app, firstn_all, Nat.sub_diag. simpl. apply app_nil_r.
Qed.

(** For an expression [\b(g)\b], the group of a match is a word that [g]
    matches. *)
Lemma exec_bounded_group (re : regexp) (g : regex) (text : jsstring)
    (mt : nat * state) :
  tree re = Seq WordB (Seq (Group g) WordB) ->
  exec re text = Some mt ->
  exists a w s, text = a ++ w ++ s
                /\ Matches (ignoreCase re) g (lastOr None a) w s
                /\ group1 text mt = Some w.
Proof.
  intros Et H. destruct mt as [start st']. unfold exec in H.
  apply searchFrom_Some in H as (a & s1 & l & -> & -> & Hm). rewrite Et in Hm.
  assert (Hin : In st' (matcher (ignoreCase re) (Seq WordB (Seq (Group g) WordB))
                          (mkState (lastOr None a) (0 + length a) s1 None)))
    by (rewrite Hm; now left).
  cbn [matcher] in Hin. apply in_flat_map in Hin as (x & Hx & Hin).
  destruct (xorb _ _); [|destruct Hx]. destruct Hx as [<-|[]].
  apply in_flat_map in Hin as (y & Hy & Hin).
  apply in_map_iff in Hy as (z & <- & Hz).
  destruct (xorb _ _); [|destruct Hin]. destruct Hin as [<-|[]].
  apply matcher_sound in Hz as (w & E & Hp & _ & M). cbn [rest pos prev] in *.
  exists a, w, (rest z). subst s1. repeat split; [exact M|].
  unfold group1, setCap. cbn [snd cap pos]. rewrite Hp. simpl (0 + _).
  now rewrite substring_app.
Qed.

(** ** The tracking number, without the log *)

Lemma extractTrackingNumber_fst (fileName pdfText : jsstring) :
  fst (extractTrackingNumber fileName pdfText)
  = match exec uspsTracking pdfText with
    | Some mt =>
        Some (replaceAll spaceRuns [] (orElse (group1 pdfText mt) (group0 pdfText mt)))
    | None =>
        if test fileNameDigits (basename fileName (js ".pdf"))
        then Some (basename fileName (js ".pdf"))
        else None
    end.
Proof.
  unfold extractTrackingNumber. rewrite !fst_bind.
  unfold trackingPatterns. cbn [tryTracking].
  destruct (exec uspsTracking pdfText) as [mt|].
  - rewrite fst_bind. reflexivity.
  - cbn [ret fst]. destruct (test fileNameDigits _); rewrite fst_bind; reflexivity.
Qed.

Lemma test_fileNameDigits (name : jsstring) :
  test fileNameDigits name
  = forallb isDigit name && (20 <=? length name) && (length name <=? 22).
Proof.
  apply eq_iff_eq_true.
  rewrite (@test_anchored fileNameDigits (between 20 22 Digit) name eq_refl).
  rewrite !andb_true_iff, !Nat.leb_le. split.
  - intros M.
    destruct (@Matches_Rep_class false Digit isDigit (@Digit_reads false)
                _ _ _ _ M _ _ eq_refl) as (Hall & Hmax & Hmin).
    repeat split; [exact Hall| |exact (Hmax _ eq_refl)].
    apply Hmin. intros k [= <-]. lia.
  - intros [[Hall H20] H22]. apply Rep_class_Matches with (P := isDigit); auto.
    + intros; now apply MDigit.
    + intros k [= <-]. exact H22.
Qed.

Ltac split_seqs :=
  repeat match goal with
  | H : Matches _ (Seq _ _) _ _ _ |- _ =>
      apply Matches_Seq_inv in H; destruct H as (? & ? & -> & ? & ?)
  end.

Ltac read_chrs :=
  repeat match goal with
  | H : Matches false (Chr _) _ _ _ |- _ => inversion H; subst; clear H
  | H : charEq false _ _ = true |- _ => apply N.eqb_eq in H; cbn in H; subst
  end.

Ltac read_classes :=
  repeat match goal with
  | H : Matches _ (Rep 0 None Space) _ _ _ |- _ => apply Matches_star_Space in H
  | H : Matches _ (Rep ?n (Some ?n) Digit) _ _ _ |- _ =>
      apply (@Matches_times_Digit _ n) in H; destruct H as [? ?]
  end.

(** C3, as the claim has it, fails: 9205 and four groups of four digits, 20
    digits in all, are not a tracking number for the code.  With such a text
    the file name is what is returned, or nothing. *)
Lemma tracking_twenty_digits_not_matched :
  exec uspsTracking (js "9205 1234 5678 9012 3456") = None
  /\ fst (extractTrackingNumber (js "12345678901234567890.pdf")
            (js "9205 1234 5678 9012 3456"))
     = Some (js "12345678901234567890")
  /\ fst (extractTrackingNumber (js "label.pdf") (js "9205 1234 5678 9012 3456"))
     = None.
Proof. vm_compute. auto. Qed.

(** The two file names of the claim. *)
Example tracking_fileName_examples :
  fst (extractTrackingNumber (js "12345678901234567890.pdf") (js "no number here"))
  = Some (js "12345678901234567890")
  /\ fst (extractTrackingNumber (js "label.pdf") (js "no number here")) = None
  /\ basename (js "/labels/12345678901234567890.pdf") (js ".pdf")
     = js "12345678901234567890".
Proof. vm_compute. auto. Qed.

(** ** The log of a failed extraction *)

Lemma snd_bind (A B : Type) (x : Logged A) (f : A -> Logged B) :
  snd (bind x f) = snd x ++ snd (f (fst x)).
Proof. unfold bind. destruct x as [a l]. simpl. destruct (f a). reflexivity. Qed.

Lemma logFailure_diagnostics (normalizedText : jsstring) (ps : list regexp) :
  snd (logFailure normalizedText ps) = diagnostics normalizedText ps.
Proof.
  unfold logFailure, diagnostics. rewrite !snd_bind. cbn [error snd fst app].
  do 5 f_equal. induction ps as [|p ps IH]; [reflexivity|].
  cbn [forEach map]. rewrite snd_bind. cbn [error snd fst app]. now rewrite IH.
Qed.

Lemma tryPatterns_exhausted (upperUnicode : jsstring -> jsstring)
    (text : jsstring) (ps : list regexp) :
  noValidCandidate upperUnicode text ps = true ->
  fst (tryPatterns upperUnicode text ps) = None
  /\ forallb isInvalidNote (snd (tryPatterns upperUnicode text ps)) = true.
Proof.
  induction ps as [|pattern ps IH]; [intros _; split; reflexivity|].
  cbn [noValidCandidate forallb]. intros H. apply andb_true_iff in H as [Hp H].
  destruct (IH H) as [IH1 IH2]. rewrite tryPatterns_fst. cbn [tryPatterns].
  destruct (exec pattern text) as [mt|]; [|split; assumption].
  apply negb_true_iff in Hp. rewrite Hp. split; [exact IH1|].
  rewrite snd_bind. cbn [info snd fst]. rewrite forallb_app, IH2.
  cbn [forallb]. unfold isInvalidNote. cbn [fst snd].
  rewrite andb_true_r. cbn [andb].
  generalize (candidate upperUnicode text mt). intros c.
  induction (js "Found potential order number but invalid format: ") as [|x l IHl];
    [destruct c; reflexivity|].
  cbn [app startsWith]. now rewrite N.eqb_refl.
Qed.

Lemma patterns_printed : map toString patterns = cascadeSources.
Proof. vm_compute. reflexivity. Qed.

(** C9.  When no pattern of either recognizer gives a candidate -- as for the
    empty text -- and the file name is not a number, both recognizers return
    nothing, as a value; [extractOrderNumber] has then logged, after the
    notes on the matches it turned down, the normalized text between its two
    markers and the list of the seventeen patterns, each as it is printed, in
    the order of the cascade. *)
Theorem notFound_with_diagnostics (upperUnicode : jsstring -> jsstring)
    (fileName text : jsstring) :
  noValidCandidate upperUnicode (replaceAll dashGlyphs (js "-") text) patterns = true ->
  exec uspsTracking text = None ->
  test fileNameDigits (basename fileName (js ".pdf")) = false ->
  (exists rejected,
      extractOrderNumber upperUnicode text
      = (None,
         (INFO, js "Attempting to extract order number from text")
         :: rejected
            ++ [(ERROR, js "No order number found. Text content:");
                (ERROR, js "---Begin Text Content---");
                (ERROR, map normalizeDash text);
                (ERROR, js "---End Text Content---");
                (ERROR, js "Attempted patterns:")]
            ++ map (fun printed => (ERROR, js "- " ++ printed)) cascadeSources)
      /\ forallb isInvalidNote rejected = true)
  /\ extractTrackingNumber fileName text
     = (None,
        [(INFO, js "Attempting to extract tracking number");
         (ERROR, js "No valid tracking number found in PDF or filename")]).
Proof.
  intros Ho Ht Hf. split.
  - destruct (tryPatterns_exhausted _ _ _ Ho) as [H1 H2].
    exists (snd (tryPatterns upperUnicode (replaceAll dashGlyphs (js "-") text) patterns)).
    split; [|exact H2].
    rewrite (surjective_pairing (extractOrderNumber upperUnicode text)).
    rewrite extractOrderNumber_fst, H1. f_equal.
    unfold extractOrderNumber. rewrite !snd_bind, H1, snd_bind, logFailure_diagnostics.
    cbn [info ret snd fst app]. rewrite app_nil_r. unfold diagnostics.
    rewrite <- patterns_printed, map_map, replaceAll_dashGlyphs. reflexivity.
  - rewrite (surjective_pairing (extractTrackingNumber fileName text)).
    rewrite extractTrackingNumber_fst, Ht, Hf. f_equal.
    unfold extractTrackingNumber, trackingPatterns. rewrite !snd_bind.
    cbn [tryTracking]. rewrite Ht, Hf. reflexivity.
Qed.

Lemma notFound_with_diagnostics_witness :
  noValidCandidate upperKeep (replaceAll dashGlyphs (js "-") []) patterns = true
  /\ exec uspsTracking [] = None
  /\ test fileNameDigits (basename (js "label.pdf") (js ".pdf")) = false
  /\ (exists rejected,
        extractOrderNumber upperKeep []
        = (None,
           (INFO, js "Attempting to extract order number from text")
           :: rejected
              ++ [(ERROR, js "No order number found. Text content:");
                  (ERROR, js "---Begin Text Content---");
                  (ERROR, map normalizeDash []);
                  (ERROR, js "---End Text Content---");
                  (ERROR, js "Attempted patterns:")]
              ++ map (fun printed => (ERROR, js "- " ++ printed)) cascadeSources)
        /\ forallb isInvalidNote rejected = true)
  /\ extractTrackingNumber (js "label.pdf") []
     = (None,
        [(INFO, js "Attempting to extract tracking number");
         (ERROR, js "No valid tracking number found in PDF or filename")]).
Proof.
  split; [vm_compute; reflexivity|]. split; [reflexivity|].
  split; [vm_compute; reflexivity|].
  apply (@notFound_with_diagnostics upperKeep (js "label.pdf") []);
    vm_compute; reflexivity.
Defined.

(** A text that has nothing to do with an order, with an em dash in it:
    nothing is found, and the log is the first line, the text with a hyphen
    for the em dash, and the list of the patterns. *)
Example irrelevant_text_not_found (upperUnicode : jsstring -> jsstring) :
  extractOrderNumber upperUnicode (js "Fragile " ++ [emDash] ++ js " handle with care")
  = (None,
     [(INFO, js "Attempting to extract order number from text");
      (ERROR, js "No order number found. Text content:");
      (ERROR, js "---Begin Text Content---");
      (ERROR, js "Fragile - handle with care");
      (ERROR, js "---End Text Content---");
      (ERROR, js "Attempted patterns:")]
     ++ map (fun printed => (ERROR, js "- " ++ printed)) cascadeSources).
Proof. vm_compute. reflexivity. Qed.

(** ** The order of the cascade *)

Lemma tryPatterns_first_valid (upperUnicode : jsstring -> jsstring)
    (text : jsstring) :
  forall ps i pattern mt,
    nth_error ps i = Some pattern ->
    exec pattern text = Some mt ->
    isValidFormat (candidate upperUnicode text mt) = true ->
    noValidCandidate upperUnicode text (firstn i ps) = true ->
    fst (tryPatterns upperUnicode text ps) = Some (candidate upperUnicode text mt).
Proof.
  induction ps as [|q ps IH]; intros i pattern mt Hi He Hv Hn;
    [destruct i; discriminate|].
  rewrite tryPatterns_fst. destruct i as [|i]; simpl in Hi.
  - injection Hi as ->. rewrite He, Hv. reflexivity.
  - cbn [firstn noValidCandidate forallb] in Hn.
    apply andb_true_iff in Hn as [Hq Hn].
    destruct (exec q text) as [mq|]; [|eapply IH; eauto].
    apply negb_true_iff in Hq. rewrite Hq. eapply IH; eauto.
Qed.

Lemma bareNumeric_index (i : nat) (pattern : regexp) :
  nth_error patterns i = Some pattern -> bareNumeric (tree pattern) = true ->
  i <= 8.
Proof.
  do 17 (destruct i as [|i];
         [intros [= <-]; vm_compute; intros; first [lia|discriminate]|]).
  destruct i; discriminate.
Qed.

Lemma requiresOrderOrHash_index (i : nat) (pattern : regexp) :
  nth_error patterns i = Some pattern -> requiresOrderOrHash pattern = true ->
  12 <= i.
Proof.
  do 17 (destruct i as [|i];
         [intros [= <-]; vm_compute; intros; first [lia|discriminate]|]).
  destruct i; discriminate.
Qed.

(** C2, as the code has it.  The cascade has seventeen patterns, in the
    order of [cascadeSources], and what the model runs for each of them is
    the syntax tree and the [i] flag of that source text.  The multi-segment
    form of nine digits comes first; the patterns of bare digits and the
    prefixed forms come before the five patterns that require the word Order
    or a [#], which are the last ones; and the first pattern whose match
    gives a valid order number decides, whatever the later patterns match. *)
Theorem cascade_first_valid_wins (upperUnicode : jsstring -> jsstring) :
  map toString patterns = cascadeSources
  /\ map (fun pattern => Some (tree pattern)) patterns
     = map (fun printed => readPattern (betweenSlashes printed)) cascadeSources
  /\ map ignoreCase patterns
     = map (fun printed => endsWith printed (js "/i")) cascadeSources
  /\ map requiresOrderOrHash patterns
     = [false; false; false; false; false; false; false; false; false;
        false; false; false; true; true; true; true; true]
  /\ map (fun pattern => bareNumeric (tree pattern)) patterns
     = [true; true; false; false; false; true; true; true; true;
        false; false; false; false; false; false; false; false]
  /\ (forall i j p q,
         nth_error patterns i = Some p -> nth_error patterns j = Some q ->
         bareNumeric (tree p) = true -> requiresOrderOrHash q = true -> i < j)
  /\ (forall text i pattern mt,
         nth_error patterns i = Some pattern ->
         exec pattern (replaceAll dashGlyphs (js "-") text) = Some mt ->
         isValidFormat
           (candidate upperUnicode (replaceAll dashGlyphs (js "-") text) mt) = true ->
         noValidCandidate upperUnicode (replaceAll dashGlyphs (js "-") text)
           (firstn i patterns) = true ->
         fst (extractOrderNumber upperUnicode text)
         = Some (candidate upperUnicode (replaceAll dashGlyphs (js "-") text) mt)).
Proof.
  split; [vm_compute; reflexivity|]. split; [vm_compute; reflexivity|].
  split; [vm_compute; reflexivity|]. split; [vm_compute; reflexivity|].
  split; [vm_compute; reflexivity|]. split.
  - intros i j p q Hi Hj Hp Hq.
    pose proof (bareNumeric_index _ Hi Hp).
    pose proof (requiresOrderOrHash_index _ Hj Hq). lia.
  - intros text i pattern mt Hi He Hv Hn. rewrite extractOrderNumber_fst.
    eapply tryPatterns_first_valid; eauto.
Qed.

(** On a text with a bare number and, after it, a labelled number, the
    eighth pattern (six bare digits) decides although the thirteenth (the
    word Order) has a match as well. *)
Lemma cascade_first_valid_wins_witness :
  exists mt,
    nth_error patterns 7 = Some (nth 7 patterns valid6)
    /\ bareNumeric (tree (nth 7 patterns valid6)) = true
    /\ nth_error patterns 12 = Some (nth 12 patterns valid6)
    /\ requiresOrderOrHash (nth 12 patterns valid6) = true
    /\ 7 < 12
    /\ exec (nth 7 patterns valid6)
         (replaceAll dashGlyphs (js "-") (js "123456-1 Order #654321-2")) = Some mt
    /\ fst (extractOrderNumber upperKeep (js "123456-1 Order #654321-2"))
       = Some (candidate upperKeep
                 (replaceAll dashGlyphs (js "-") (js "123456-1 Order #654321-2")) mt)
    /\ nth_error (map toString patterns) 7 = Some (js "/\b(\d{6}\s*-\s*\d)\b/")
    /\ length patterns = 17.
Proof.
  exists (0, mkState (Some 49%N) 8 (js " Order #654321-2") (Some (0, 8))).
  destruct (cascade_first_valid_wins upperKeep)
    as (Hsources & _ & _ & _ & _ & Horder & Hfirst).
  split; [reflexivity|]. split; [reflexivity|].
  split; [reflexivity|]. split; [vm_compute; reflexivity|].
  split; [exact (Horder 7 12 _ _ eq_refl eq_refl eq_refl eq_refl)|].
  split; [vm_compute; reflexivity|].
  split.
  - apply (Hfirst (js "123456-1 Order #654321-2") 7 (nth 7 patterns valid6)
             (0, mkState (Some 49%N) 8 (js " Order #654321-2") (Some (0, 8))));
      vm_compute; reflexivity.
  - rewrite <- (length_map toString), Hsources. split; reflexivity.
Defined.

(** C2, as the claim has it, fails: the patterns that require the word Order
    or a [#] are the last five of the seventeen, after the patterns of bare
    digits; and on the text below the bare number wins over the labelled one,
    which the thirteenth pattern would have found. *)
Lemma labelled_patterns_come_last :
  map requiresOrderOrHash patterns
  = [false; false; false; false; false; false; false; false; false;
     false; false; false; true; true; true; true; true]
  /\ map (fun pattern => bareNumeric (tree pattern)) patterns
     = [true; true; false; false; false; true; true; true; true;
        false; false; false; false; false; false; false; false]
  /\ (forall upperUnicode,
         fst (extractOrderNumber upperUnicode (js "123456-1 Order #654321-2"))
         = Some (js "123456-1")
         /\ option_map (candidate upperUnicode (js "123456-1 Order #654321-2"))
              (exec (nth 12 patterns valid6) (js "123456-1 Order #654321-2"))
            = Some (js "654321-2")
         /\ isValidFormat (js "654321-2") = true).
Proof.
  split; [vm_compute; reflexivity|]. split; [vm_compute; reflexivity|].
  intros upperUnicode. vm_compute. auto.
Qed.

(** C10.  A pattern is tried once, on its leftmost match: when that match is
    not valid the loop goes on with the next pattern.  So the text below,
    which ends with a valid order number that only the second pattern can
    match, gives no order number: the leftmost match of the second pattern
    is the number before it, which has no suffix. *)
Theorem leftmost_match_only (upperUnicode : jsstring -> jsstring) :
  (forall text pattern ps mt,
      exec pattern text = Some mt ->
      isValidFormat (candidate upperUnicode text mt) = false ->
      fst (tryPatterns upperUnicode text (pattern :: ps))
      = fst (tryPatterns upperUnicode text ps))
  /\ js "2000000289 2111111111-1" = js "2000000289 " ++ js "2111111111-1"
  /\ isValidFormat (js "2111111111-1") = true
  /\ map (fun pattern =>
            option_map (candidate upperUnicode (js "2111111111-1"))
              (exec pattern (js "2111111111-1"))) patterns
     = [None; Some (js "2111111111-1"); None; None; None; None; None; None;
        None; None; None; None; None; None; None; None; None]
  /\ map (fun pattern =>
            option_map (candidate upperUnicode (js "2000000289 2111111111-1"))
              (exec pattern (js "2000000289 2111111111-1"))) patterns
     = [None; Some (js "2000000289"); None; None; None; None; None; None;
        None; None; None; None; None; None; None; None; None]
  /\ isValidFormat (js "2000000289") = false
  /\ fst (extractOrderNumber upperUnicode (js "2111111111-1"))
     = Some (js "2111111111-1")
  /\ fst (extractOrderNumber upperUnicode (js "2000000289 2111111111-1")) = None.
Proof.
  split.
  - intros text pattern ps mt He Hv. rewrite tryPatterns_fst, He, Hv. reflexivity.
  - vm_compute. repeat split; reflexivity.
Qed.

Lemma leftmost_match_only_witness :
  exists mt,
    exec (nth 1 patterns valid6) (js "2000000289 2111111111-1") = Some mt
    /\ isValidFormat (candidate upperKeep (js "2000000289 2111111111-1") mt) = false
    /\ fst (tryPatterns upperKeep (js "2000000289 2111111111-1")
              (nth 1 patterns valid6 :: skipn 2 patterns))
       = fst (tryPatterns upperKeep (js "2000000289 2111111111-1") (skipn 2 patterns)).
Proof.
  exists (0, mkState (Some 57%N) 10 (js " 2111111111-1") (Some (0, 10))).
  split; [vm_compute; reflexivity|]. split; [vm_compute; reflexivity|].
  apply (proj1 (leftmost_match_only upperKeep)
           (js "2000000289 2111111111-1") (nth 1 patterns valid6) (skipn 2 patterns)
           (0, mkState (Some 57%N) 10 (js " 2111111111-1") (Some (0, 10))));
    vm_compute; reflexivity.
Defined.

(** * Digits are interchangeable

    No pattern of the source names a digit other than 2: every other digit
    is read by [\d] and as a word character only.  So where a pattern
    matches, and what it captures, does not change when the digits other
    than 2 of a text are replaced by 0. *)

Ltac char_facts :=
  repeat match goal with
  | H : (_ && _) = true |- _ => apply andb_true_iff in H; destruct H
  | H : (_ || _) = true |- _ => apply orb_true_iff in H; destruct H
  | H : negb _ = true |- _ => apply negb_true_iff in H
  | H : (_ <=? _)%N = true |- _ => apply N.leb_le in H
  | H : (_ <=? _)%N = false |- _ => apply N.leb_gt in H
  | H : (_ <? _)%N = true |- _ => apply N.ltb_lt in H
  | H : (_ =? _)%N = true |- _ => apply N.eqb_eq in H
  | H : (_ =? _)%N = false |- _ => apply N.eqb_neq in H
  end.

Ltac char_goal :=
  repeat match goal with
  | |- (_ && _) = false => apply andb_false_iff
  | |- (_ || _) = false => apply orb_false_iff; split
  | |- (_ && _) = true => apply andb_true_iff; split
  | |- negb _ = true => apply negb_true_iff
  | |- negb _ = false => apply negb_false_iff
  | |- (_ <=? _)%N = true => apply N.leb_le; lia
  | |- (_ <? _)%N = true => apply N.ltb_lt; lia
  | |- (_ =? _)%N = false => apply N.eqb_neq; lia
  | |- (_ =? _)%N = true => apply N.eqb_eq; lia
  | |- _ \/ _ => first [left; apply N.leb_gt; lia | right; apply N.leb_gt; lia]
  end.

Lemma digit_bounds (c : char) : isDigit c = true -> (48 <= c <= 57)%N.
Proof. unfold isDigit, inRange. intros H. char_facts. lia. Qed.

Lemma bounds_digit (c : char) : (48 <= c <= 57)%N -> isDigit c = true.
Proof. unfold isDigit, inRange. intros H. char_goal. Qed.

Lemma digit_isSpace (c : char) : isDigit c = true -> isSpace c = false.
Proof. intros H. apply digit_notSpace in H. now apply negb_true_iff in H. Qed.

Lemma digit_isWordChar (c : char) : isDigit c = true -> isWordChar c = true.
Proof.
  intros H. unfold isWordChar. fold (isDigit c). rewrite H.
  now rewrite orb_true_r.
Qed.

Lemma digit_asciiUpper (c : char) : isDigit c = true -> asciiUpper c = c.
Proof.
  intros H. apply digit_bounds in H. unfold asciiUpper, inRange.
  replace (97 <=? c)%N with false by (symmetry; apply N.leb_gt; lia). reflexivity.
Qed.

(** A plain literal is never read as a digit other than 2. *)
Lemma charEq_digit (ic : bool) (a d : char) :
  plainLiteral a = true -> isDigit d = true -> d <> 50%N -> charEq ic a d = false.
Proof.
  intros Ha Hd Hn. unfold charEq. apply N.eqb_neq. intros E.
  assert (Ec : canonicalize ic d = d)
    by (destruct ic; [now apply digit_asciiUpper|reflexivity]).
  rewrite Ec in E. apply digit_bounds in Hd.
  unfold plainLiteral, isDigit, inRange in Ha.
  destruct ic; unfold canonicalize, asciiUpper, inRange in E.
  - destruct (N.leb_spec 97 a), (N.leb_spec a 122); cbn [andb] in E;
      destruct (N.leb_spec 48 a), (N.leb_spec a 57); cbn [andb negb orb] in Ha;
      char_facts; try discriminate; lia.
  - destruct (N.leb_spec 48 a), (N.leb_spec a 57); cbn [andb negb orb] in Ha;
      char_facts; try discriminate; lia.
Qed.

Section DigitClass.

Lemma digitClass_cases (c : char) :
  digitClass c = c
  \/ (isDigit c = true /\ c <> 50%N /\ digitClass c = 48%N).
Proof.
  unfold digitClass. destruct (isDigit c && negb (c =? 50)%N) eqn:E; [right|now left].
  char_facts. auto.
Qed.

Lemma isDigit_digitClass (c : char) : isDigit (digitClass c) = isDigit c.
Proof. destruct (digitClass_cases c) as [->|(H & _ & ->)]; [reflexivity|now rewrite H]. Qed.

Lemma isSpace_digitClass (c : char) : isSpace (digitClass c) = isSpace c.
Proof.
  destruct (digitClass_cases c) as [->|(H & _ & ->)]; [reflexivity|].
  now rewrite (digit_isSpace _ H).
Qed.

Lemma isWordChar_digitClass (c : char) : isWordChar (digitClass c) = isWordChar c.
Proof.
  destruct (digitClass_cases c) as [->|(H & _ & ->)]; [reflexivity|].
  now rewrite (digit_isWordChar _ H).
Qed.

Lemma charEq_digitClass (ic : bool) (a c : char) :
  plainLiteral a = true -> charEq ic a (digitClass c) = charEq ic a c.
Proof.
  intros Ha. destruct (digitClass_cases c) as [->|(H & Hn & ->)]; [reflexivity|].
  rewrite (@charEq_digit ic a c Ha H Hn). apply charEq_digit; [exact Ha|reflexivity|].
  discriminate.
Qed.

Lemma existsb_digitClass (ic : bool) (cs : list char) (c : char) :
  forallb plainLiteral cs = true ->
  existsb (fun a => charEq ic a (digitClass c)) cs
  = existsb (fun a => charEq ic a c) cs.
Proof.
  induction cs as [|a cs IH]; [reflexivity|]. cbn [forallb existsb]. intros H.
  apply andb_true_iff in H as [Ha H]. now rewrite charEq_digitClass, IH.
Qed.

Lemma step_classState (f : char -> bool) (st : state) :
  (forall c, f (digitClass c) = f c) ->
  step f (classState st) = map classState (step f st).
Proof.
  intros Hf. unfold step, classState. cbn [rest pos cap prev].
  destruct (rest st) as [|c s]; [reflexivity|]. cbn [map]. rewrite Hf.
  destruct (f c); reflexivity.
Qed.

Lemma flat_map_map (A B C : Type) (f : B -> list C) (g : A -> B) (l : list A) :
  flat_map f (map g l) = flat_map (fun a => f (g a)) l.
Proof. induction l as [|a l IH]; simpl; [reflexivity|now rewrite IH]. Qed.

Lemma map_flat_map (A B C : Type) (f : B -> C) (g : A -> list B) (l : list A) :
  map f (flat_map g l) = flat_map (fun a => map f (g a)) l.
Proof. induction l as [|a l IH]; simpl; [reflexivity|now rewrite map_app, IH]. Qed.

Lemma filter_map_comm (A B : Type) (f : A -> B) (P : B -> bool) (l : list A) :
  filter P (map f l) = map f (filter (fun a => P (f a)) l).
Proof.
  induction l as [|a l IH]; simpl; [reflexivity|].
  destruct (P (f a)); simpl; now rewrite IH.
Qed.

Lemma repeatMatcher_classState (f : state -> list state) :
  (forall st, f (classState st) = map classState (f st)) ->
  forall fuel min max st,
    repeatMatcher f fuel min max (classState st)
    = map classState (repeatMatcher f fuel min max st).
Proof.
  intros Hf. induction fuel as [|fuel IH]; intros min max st; [reflexivity|].
  cbn [repeatMatcher].
  assert (Hbody :
    match min with
    | S min' => flat_map (repeatMatcher f fuel min' (decrMax max)) (f (classState st))
    | 0 => flat_map (repeatMatcher f fuel 0 (decrMax max))
             (filter (fun st' => negb (pos st' =? pos (classState st)))
                (f (classState st))) ++ [classState st]
    end
    = map classState
        match min with
        | S min' => flat_map (repeatMatcher f fuel min' (decrMax max)) (f st)
        | 0 => flat_map (repeatMatcher f fuel 0 (decrMax max))
                 (filter (fun st' => negb (pos st' =? pos st)) (f st)) ++ [st]
        end).
  { rewrite Hf. destruct min as [|min'].
    - rewrite map_app, filter_map_comm, flat_map_map, map_flat_map. cbn [map].
      f_equal. apply flat_map_ext. intros a. apply IH.
    - rewrite flat_map_map, map_flat_map. apply flat_map_ext. intros a. apply IH. }
  destruct max as [[|n]|]; [reflexivity| |]; exact Hbody.
Qed.

(** The matcher does not tell a text from its digit classes. *)
Theorem matcher_classState (ic : bool) (r : regex) :
  plainLiterals r = true ->
  forall st, matcher ic r (classState st) = map classState (matcher ic r st).
Proof.
  induction r; cbn [plainLiterals]; intros Hr st; cbn [matcher].
  - apply step_classState. intros c0. now apply charEq_digitClass.
  - apply step_classState. apply isDigit_digitClass.
  - apply step_classState. apply isSpace_digitClass.
  - apply step_classState. intros c0. now apply existsb_digitClass.
  - unfold wordBefore, wordAfter, classState. cbn [prev rest].
    replace (match option_map digitClass (prev st) with
             | Some c => isWordChar c | None => false end)
      with (match prev st with Some c => isWordChar c | None => false end)
      by (destruct (prev st); cbn; [now rewrite isWordChar_digitClass|reflexivity]).
    replace (match map digitClass (rest st) with
             | [] => false | c :: _ => isWordChar c end)
      with (match rest st with [] => false | c :: _ => isWordChar c end)
      by (destruct (rest st); cbn; [reflexivity|now rewrite isWordChar_digitClass]).
    destruct (xorb _ _); reflexivity.
  - unfold classState at 1. cbn [prev]. destruct (prev st); reflexivity.
  - unfold classState at 1. cbn [rest]. destruct (rest st); reflexivity.
  - reflexivity.
  - apply andb_true_iff in Hr as [H1 H2].
    rewrite IHr1 by exact H1. rewrite flat_map_map, map_flat_map.
    apply flat_map_ext. intros a. now apply IHr2.
  - apply andb_true_iff in Hr as [H1 H2].
    now rewrite IHr1, IHr2, map_app.
  - replace (length (rest (classState st))) with (length (rest st))
      by (unfold classState; cbn [rest]; now rewrite length_map).
    apply repeatMatcher_classState. now apply IHr.
  - rewrite IHr by exact Hr. rewrite !map_map. apply map_ext. reflexivity.
Qed.

Lemma searchFrom_digitClass (re : regexp) :
  plainLiterals (tree re) = true ->
  forall s p i,
    searchFrom re (option_map digitClass p) i (map digitClass s)
    = option_map classMatch (searchFrom re p i s).
Proof.
  intros Hr. induction s as [|c s IH]; intros p i; cbn [searchFrom map].
  - change (mkState (option_map digitClass p) i [] None)
      with (classState (mkState p i [] None)).
    rewrite matcher_classState by exact Hr.
    destruct (matcher _ _ _); reflexivity.
  - change (mkState (option_map digitClass p) i (digitClass c :: map digitClass s) None)
      with (classState (mkState p i (c :: s) None)).
    rewrite matcher_classState by exact Hr.
    destruct (matcher _ _ _); [|reflexivity]. apply (IH (Some c)).
Qed.

(** Where an expression matches, and where its group is, can be read off
    the digit classes of the text. *)
Theorem exec_digitClass (re : regexp) (text : jsstring) :
  plainLiterals (tree re) = true ->
  exec re (map digitClass text) = option_map classMatch (exec re text).
Proof. intros Hr. exact (searchFrom_digitClass re Hr text None 0). Qed.

Lemma test_digitClass (re : regexp) (text : jsstring) :
  plainLiterals (tree re) = true ->
  test re (map digitClass text) = test re text.
Proof.
  intros Hr. unfold test. rewrite exec_digitClass by exact Hr.
  destruct (exec re text); reflexivity.
Qed.

Lemma isValidFormat_digitClass (found : jsstring) :
  isValidFormat (map digitClass found) = isValidFormat found.
Proof.
  unfold isValidFormat, shortPrefixes, longPrefixes. cbn [existsb].
  rewrite !test_digitClass by reflexivity. reflexivity.
Qed.

End DigitClass.

(** ** Texts with digits left open *)

Lemma digitClass_digit (d : char) :
  isDigit d = true -> digitClass d = 48%N \/ digitClass d = 50%N.
Proof.
  intros H. unfold digitClass. rewrite H. cbn [andb].
  destruct (N.eqb_spec d 50); [right; assumption|now left].
Qed.

Lemma digitWords_complete (ds : jsstring) :
  forallb isDigit ds = true -> In (map digitClass ds) (digitWords (length ds)).
Proof.
  induction ds as [|d ds IH]; [now left|]. cbn [forallb map length digitWords].
  intros H. apply andb_true_iff in H as [Hd H]. apply in_flat_map.
  exists (map digitClass ds). split; [auto|].
  destruct (digitClass_digit _ Hd) as [-> | ->]; [now left|right; now left].
Qed.

Lemma Fills_instances (shape : list part) (text : jsstring) :
  Fills shape text -> In (map digitClass text) (instances shape).
Proof.
  induction 1; cbn [instances]; [now left| |]; rewrite map_app.
  - now apply in_map.
  - apply in_flat_map. exists (map digitClass ds).
    split; [now apply digitWords_complete|now apply in_map].
Qed.

Lemma Fills_forallb (f : char -> bool) (shape : list part) (text : jsstring) :
  (forall c, isDigit c = true -> f c = true) ->
  Fills shape text -> fixedParts f shape = true -> forallb f text = true.
Proof.
  intros Hf. induction 1; cbn [fixedParts forallb]; intros Hs;
    [reflexivity| |]; apply andb_true_iff in Hs as [H1 H2];
    rewrite forallb_app; apply andb_true_iff; split; auto.
  apply forallb_forall. intros c Hc. apply Hf.
  exact (proj1 (forallb_forall _ _) H c Hc).
Qed.

Lemma patterns_plainLiterals :
  forallb (fun pattern => plainLiterals (tree pattern)) patterns = true.
Proof. vm_compute. reflexivity. Qed.

Lemma firstn_In (A : Type) (n : nat) (l : list A) (x : A) :
  In x (firstn n l) -> In x l.
Proof.
  revert l; induction n as [|n IH]; intros [|a l]; simpl; try tauto.
  intros [->|H]; [now left|right; now apply IH].
Qed.

Lemma forallb_ext_In (A : Type) (f g : A -> bool) (l : list A) :
  (forall a, In a l -> f a = g a) -> forallb f l = forallb g l.
Proof.
  induction l as [|a l IH]; intros H; simpl; [reflexivity|].
  rewrite H by (now left). f_equal. apply IH. intros; apply H; now right.
Qed.

Lemma decidedBy_digitClass (k : nat) (span : nat * nat) (text : jsstring) :
  decidedBy k span (map digitClass text) = decidedBy k span text.
Proof.
  unfold decidedBy. f_equal.
  - apply forallb_ext_In. intros q Hq. apply firstn_In in Hq.
    rewrite exec_digitClass
      by exact (proj1 (forallb_forall _ _) patterns_plainLiterals q Hq).
    destruct (exec q text); reflexivity.
  - destruct (nth_error patterns k) as [pattern|] eqn:E; [|reflexivity].
    rewrite exec_digitClass
      by exact (proj1 (forallb_forall _ _) patterns_plainLiterals pattern
                  (nth_error_In _ _ E)).
    destruct (exec pattern text); reflexivity.
Qed.

Lemma noValidCandidate_no_match (upperUnicode : jsstring -> jsstring)
    (text : jsstring) (ps : list regexp) :
  forallb (fun q => match exec q text with None => true | Some _ => false end) ps
  = true ->
  noValidCandidate upperUnicode text ps = true.
Proof.
  unfold noValidCandidate. intros H. apply forallb_forall. intros q Hq.
  apply (proj1 (forallb_forall _ _) H) in Hq. destruct (exec q text);
    [discriminate|reflexivity].
Qed.

(** A text that holds no em dash and no en dash is its own normalized text. *)
Lemma normalizeDash_fixed (s : jsstring) :
  forallb noDashGlyph s = true -> map normalizeDash s = s.
Proof.
  induction s as [|c s IH]; [reflexivity|]. cbn [forallb map]. intros H.
  apply andb_true_iff in H as [Hc H]. rewrite IH by exact H.
  unfold normalizeDash. apply negb_true_iff in Hc. now rewrite Hc.
Qed.

(** The value of [extractOrderNumber] on a text that [decidedBy] describes. *)
Lemma extractOrderNumber_decided (upperUnicode : jsstring -> jsstring)
    (text : jsstring) (k a b : nat) :
  forallb noDashGlyph text = true ->
  decidedBy k (a, b) text = true ->
  substring text a b <> [] ->
  isValidFormat (normalizeCase upperUnicode (cleanUp (substring text a b))) = true ->
  fst (extractOrderNumber upperUnicode text)
  = Some (normalizeCase upperUnicode (cleanUp (substring text a b))).
Proof.
  intros Hd Hk Hne Hv. rewrite extractOrderNumber_fst, replaceAll_dashGlyphs.
  rewrite (normalizeDash_fixed _ Hd).
  unfold decidedBy in Hk. apply andb_true_iff in Hk as [Hbefore Hk].
  destruct (nth_error patterns k) as [pattern|] eqn:Ep; [|discriminate].
  destruct (exec pattern text) as [mt|] eqn:Em; [|discriminate].
  destruct (cap (snd mt)) as [[x y]|] eqn:Ec; [|discriminate].
  cbn [fst snd] in Hk. apply andb_true_iff in Hk as [Hx Hy].
  apply Nat.eqb_eq in Hx, Hy. subst x y.
  assert (Ecand : candidate upperUnicode text mt
                  = normalizeCase upperUnicode (cleanUp (substring text a b))).
  { unfold candidate, group1. rewrite Ec.
    destruct (substring text a b); [congruence|reflexivity]. }
  rewrite <- Ecand. eapply tryPatterns_first_valid; eauto.
  - now rewrite Ecand.
  - now apply noValidCandidate_no_match.
Qed.

Lemma digit_noDashGlyph (c : char) : isDigit c = true -> noDashGlyph c = true.
Proof.
  intros H. apply digit_bounds in H. unfold noDashGlyph, isDashGlyph, emDash, enDash.
  char_goal.
Qed.

(** The value of [extractOrderNumber] on the texts of a shape, from what
    the patterns do on the digit classes of the shape. *)
Lemma extractOrderNumber_shape (upperUnicode : jsstring -> jsstring)
    (shape : list part) (text expected : jsstring) (k a b : nat) :
  Fills shape text ->
  fixedParts noDashGlyph shape = true ->
  forallb (decidedBy k (a, b)) (instances shape) = true ->
  substring text a b <> [] ->
  normalizeCase upperUnicode (cleanUp (substring text a b)) = expected ->
  isValidFormat expected = true ->
  fst (extractOrderNumber upperUnicode text) = Some expected.
Proof.
  intros Hf Hd Hk Hne <- Hv. apply extractOrderNumber_decided with (k := k); auto.
  - exact (Fills_forallb noDashGlyph digit_noDashGlyph Hf Hd).
  - rewrite <- decidedBy_digitClass.
    exact (proj1 (forallb_forall _ _) Hk _ (Fills_instances Hf)).
Qed.

Lemma isValidFormat_shape (shape : list part) (found : jsstring) :
  Fills shape found ->
  forallb isValidFormat (instances shape) = true ->
  isValidFormat found = true.
Proof.
  intros Hf Hv. rewrite <- isValidFormat_digitClass.
  exact (proj1 (forallb_forall _ _) Hv _ (Fills_instances Hf)).
Qed.

(** ** The clean-up of a tidy string *)

Lemma dropWhile_isSpace_fixed (s : jsstring) :
  forallb notSpace s = true -> dropWhile isSpace s = s.
Proof.
  destruct s as [|c s]; [reflexivity|]. cbn [forallb dropWhile]. intros H.
  apply andb_true_iff in H as [Hc _]. apply negb_true_iff in Hc. now rewrite Hc.
Qed.

Lemma forallb_rev (f : char -> bool) (s : jsstring) :
  forallb f s = true -> forallb f (rev s) = true.
Proof.
  intros H. apply forallb_forall. intros c Hc. apply in_rev in Hc.
  exact (proj1 (forallb_forall _ _) H c Hc).
Qed.

Lemma filter_fixed (f : char -> bool) (s : jsstring) :
  forallb f s = true -> filter f s = s.
Proof.
  induction s as [|c s IH]; [reflexivity|]. cbn [forallb filter]. intros H.
  apply andb_true_iff in H as [Hc H]. rewrite Hc. f_equal. auto.
Qed.

Lemma cleanUp_tidy (s : jsstring) :
  forallb notSpace s = true -> forallb noDashGlyph s = true -> cleanUp s = s.
Proof.
  intros Hs Hd. unfold cleanUp, trim.
  rewrite (dropWhile_isSpace_fixed _ Hs).
  rewrite (dropWhile_isSpace_fixed _ (forallb_rev _ _ Hs)), rev_involutive.
  rewrite replaceAll_spaceRuns, (filter_fixed _ _ Hs).
  rewrite replaceAll_dashGlyphs. now apply normalizeDash_fixed.
Qed.

Lemma substring_whole (s : jsstring) (n : nat) :
  length s = n -> substring s 0 n = s.
Proof. intros <-. unfold substring. simpl. rewrite Nat.sub_0_r. apply firstn_all. Qed.

(** ** The case of a candidate *)

Section NormalizeCase.

Variable upperUnicode : jsstring -> jsstring.

Lemma toUpperCase_digit (c : char) (s : jsstring) :
  isDigit c = true ->
  toUpperCase upperUnicode (c :: s) = c :: toUpperCase upperUnicode s.
Proof.
  intros H. cbn [toUpperCase]. rewrite (digit_asciiUpper _ H).
  apply digit_bounds in H.
  replace (c <? 128)%N with true by (symmetry; apply N.ltb_lt; lia). reflexivity.
Qed.

Lemma startsWith_head (a c : char) (s p : jsstring) :
  (a =? c)%N = false -> startsWith (c :: s) (a :: p) = false.
Proof. intros H. cbn [startsWith]. now rewrite H. Qed.

Lemma normalizePrefix_digit (c : char) (s : jsstring) (prefixes : list jsstring) :
  isDigit c = true ->
  forallb (fun prefix => match toUpperCase upperUnicode prefix with
                         | a :: _ => (65 <=? a)%N
                         | [] => false
                         end) prefixes = true ->
  normalizePrefix upperUnicode (c :: s) prefixes = c :: s.
Proof.
  intros Hc. induction prefixes as [|prefix prefixes IH]; [reflexivity|].
  cbn [forallb normalizePrefix]. intros H. apply andb_true_iff in H as [Hp H].
  rewrite toUpperCase_digit by exact Hc.
  destruct (toUpperCase upperUnicode prefix) as [|a p]; [discriminate|].
  rewrite startsWith_head; [now apply IH|].
  apply digit_bounds in Hc. apply N.leb_le in Hp. apply N.eqb_neq. lia.
Qed.

(** A candidate that starts with a digit keeps its case. *)
Lemma normalizeCase_digit (c : char) (s : jsstring) :
  isDigit c = true -> normalizeCase upperUnicode (c :: s) = c :: s.
Proof.
  intros Hc. unfold normalizeCase. rewrite toUpperCase_digit by exact Hc.
  change (js "EL") with [69%N; 76%N]. rewrite startsWith_head.
  - cbn [andb]. apply normalizePrefix_digit; [exact Hc|]. vm_compute. reflexivity.
  - apply digit_bounds in Hc. apply N.eqb_neq. lia.
Qed.

Lemma toUpperCase_digits (ds s : jsstring) :
  forallb isDigit ds = true ->
  toUpperCase upperUnicode (ds ++ s) = ds ++ toUpperCase upperUnicode s.
Proof.
  induction ds as [|d ds IH]; [reflexivity|]. cbn [forallb app]. intros H.
  apply andb_true_iff in H as [Hd H]. rewrite toUpperCase_digit by exact Hd.
  now rewrite IH.
Qed.

Lemma includes_app (a b p : jsstring) :
  includes b p = true -> includes (a ++ b) p = true.
Proof.
  intros H. induction a as [|c a IH]; [exact H|]. cbn [app includes].
  rewrite IH. apply orb_true_r.
Qed.

Lemma replaceEL_cons (c : char) (s : jsstring) :
  isE c = false -> replaceEL (c :: s) = c :: replaceEL s.
Proof. intros H. cbn [replaceEL]. rewrite H. destruct s; reflexivity. Qed.

Lemma digit_isE (c : char) : isDigit c = true -> isE c = false.
Proof. intros H. apply digit_bounds in H. unfold isE. char_goal. Qed.

Lemma replaceEL_digits (ds s : jsstring) :
  forallb isDigit ds = true -> replaceEL (ds ++ s) = ds ++ replaceEL s.
Proof.
  induction ds as [|d ds IH]; [reflexivity|]. cbn [forallb app]. intros H.
  apply andb_true_iff in H as [Hd H]. rewrite replaceEL_cons by now apply digit_isE.
  now rewrite IH.
Qed.

Lemma toUpperCase_ascii (c u : char) (s : jsstring)
    (H : (c <? 128)%N = true) (U : asciiUpper c = u) :
  toUpperCase upperUnicode (c :: s) = u :: toUpperCase upperUnicode s.
Proof. subst u. cbn [toUpperCase]. now rewrite H. Qed.

Lemma isE_upper (c : char) :
  isE c = true -> (c <? 128)%N = true /\ asciiUpper c = 69%N.
Proof. intros H. apply isE_cases in H as [-> | ->]; split; reflexivity. Qed.

Lemma isL_upper (c : char) :
  isL c = true -> (c <? 128)%N = true /\ asciiUpper c = 76%N.
Proof. intros H. apply isL_cases in H as [-> | ->]; split; reflexivity. Qed.

(** The special handling of the EL format on a candidate of that format. *)
Lemma normalizeCase_EL (e1 l1 e2 l2 d : char) (ds : jsstring) :
  isE e1 = true -> isL l1 = true -> isE e2 = true -> isL l2 = true ->
  forallb isDigit ds = true -> isDigit d = true ->
  normalizeCase upperUnicode ([e1; l1] ++ ds ++ [e2; l2; hyphen] ++ [d])
  = js "EL" ++ ds ++ js "EL" ++ [hyphen] ++ [d].
Proof.
  intros He1 Hl1 He2 Hl2 Hds Hd. unfold normalizeCase.
  destruct (isE_upper _ He1) as [A1 U1]. destruct (isL_upper _ Hl1) as [A2 U2].
  destruct (isE_upper _ He2) as [A3 U3]. destruct (isL_upper _ Hl2) as [A4 U4].
  assert (Hup : toUpperCase upperUnicode ([e1; l1] ++ ds ++ [e2; l2; hyphen] ++ [d])
                = [69%N; 76%N] ++ ds ++ [69%N; 76%N; 45%N; d]).
  { cbn [app].
    rewrite (@toUpperCase_ascii e1 69%N _ A1 U1), (@toUpperCase_ascii l1 76%N _ A2 U2).
    rewrite toUpperCase_digits by exact Hds. cbn [app].
    rewrite (@toUpperCase_ascii e2 69%N _ A3 U3), (@toUpperCase_ascii l2 76%N _ A4 U4).
    rewrite (@toUpperCase_ascii hyphen 45%N _ eq_refl eq_refl).
    rewrite toUpperCase_digit by exact Hd. reflexivity. }
  rewrite Hup.
  replace (startsWith ([69%N; 76%N] ++ ds ++ [69%N; 76%N; 45%N; d]) (js "EL"))
    with true by reflexivity.
  rewrite includes_app by (apply includes_app; reflexivity). cbn [andb].
  rewrite replaceAll_elPairs. cbn [app replaceEL]. rewrite He1, Hl1. cbn [andb].
  destruct (ds ++ [e2; l2; hyphen; d]) eqn:E;
    [destruct ds; discriminate E|rewrite <- E; clear E].
  rewrite replaceEL_digits by exact Hds. cbn [replaceEL]. rewrite He2, Hl2.
  reflexivity.
Qed.

End NormalizeCase.

(** * A root and one suffix *)

Lemma Fills_suffixed (pre ds mid : jsstring) (d : char) (n : nat) :
  length ds = n -> forallb isDigit ds = true -> isDigit d = true ->
  Fills [Fixed pre; Digits n; Fixed mid; Digits 1] (pre ++ ds ++ mid ++ [d]).
Proof.
  intros <- Hds Hd. rewrite <- (app_nil_r [d]).
  apply FillsFixed, FillsDigits; [exact Hds|].
  apply FillsFixed, (FillsDigits [d]); [|apply FillsNil].
  cbn [forallb]. now rewrite Hd.
Qed.

Lemma asciiUpper_letter (c u : char) :
  asciiUpper c = u -> (65 <= u <= 90)%N -> c = u \/ c = (u + 32)%N.
Proof.
  unfold asciiUpper, inRange. intros H Hu.
  destruct (N.leb_spec 97 c), (N.leb_spec c 122); cbn [andb] in H; lia.
Qed.

(** The letters of a prefix, one case after the other. *)
Ltac letter_cases :=
  repeat match goal with
  | H : map asciiUpper _ = js ?p |- _ =>
      let p' := eval vm_compute in (js p) in change (js p) with p' in H
  | H : map asciiUpper ?l = _ :: _ |- _ =>
      destruct l as [|? ?]; [discriminate H|]; cbn [map] in H; injection H as ? H
  | H : map asciiUpper ?l = [] |- _ => destruct l; [clear H|discriminate H]
  | H : asciiUpper ?c = _ |- _ =>
      apply asciiUpper_letter in H; [destruct H; subst c|cbv; split; discriminate]
  | H : isE ?c = true |- _ => apply isE_cases in H; destruct H; subst c
  | H : isL ?c = true |- _ => apply isL_cases in H; destruct H; subst c
  end.

Section OneSuffix.

Variable upperUnicode : jsstring -> jsstring.

Lemma forallb_impl (f g : char -> bool) (s : jsstring) :
  (forall c, f c = true -> g c = true) -> forallb f s = true -> forallb g s = true.
Proof.
  intros Hfg H. apply forallb_forall. intros c Hc. apply Hfg.
  exact (proj1 (forallb_forall _ _) H c Hc).
Qed.

Lemma suffixed_tidy (pre ds mid : jsstring) (d : char) :
  forallb notSpace (pre ++ mid) = true -> forallb noDashGlyph (pre ++ mid) = true ->
  forallb isDigit ds = true -> isDigit d = true ->
  cleanUp (pre ++ ds ++ mid ++ [d]) = pre ++ ds ++ mid ++ [d].
Proof.
  intros Hs Hg Hds Hd. rewrite forallb_app in Hs, Hg.
  apply andb_true_iff in Hs as [Hs1 Hs2]. apply andb_true_iff in Hg as [Hg1 Hg2].
  apply cleanUp_tidy; rewrite !forallb_app; cbn [forallb].
  - rewrite Hs1, Hs2, (forallb_impl _ _ _ digit_notSpace Hds), (digit_notSpace _ Hd).
    reflexivity.
  - rewrite Hg1, Hg2, (forallb_impl _ _ _ digit_noDashGlyph Hds),
      (digit_noDashGlyph _ Hd).
    reflexivity.
Qed.

(** The texts [pre ++ ds ++ mid ++ [d]] that one pattern matches whole. *)
Lemma extractOrderNumber_suffixed (pre ds mid expected : jsstring) (d : char)
    (k n : nat) :
  length ds = n -> forallb isDigit ds = true -> isDigit d = true ->
  forallb notSpace (pre ++ mid) = true ->
  forallb noDashGlyph (pre ++ mid) = true ->
  forallb (decidedBy k (0, length pre + n + length mid + 1))
    (instances [Fixed pre; Digits n; Fixed mid; Digits 1]) = true ->
  normalizeCase upperUnicode (pre ++ ds ++ mid ++ [d]) = expected ->
  isValidFormat expected = true ->
  fst (extractOrderNumber upperUnicode (pre ++ ds ++ mid ++ [d])) = Some expected.
Proof.
  intros Hn Hds Hd Hs Hg Hk He Hv.
  assert (Hw : substring (pre ++ ds ++ mid ++ [d]) 0
                 (length pre + n + length mid + 1) = pre ++ ds ++ mid ++ [d])
    by (apply substring_whole; rewrite !length_app, Hn; simpl; lia).
  eapply extractOrderNumber_shape.
  - apply Fills_suffixed; eassumption.
  - cbn [fixedParts forallb]. rewrite forallb_app in Hg.
    apply andb_true_iff in Hg as [-> ->]. reflexivity.
  - exact Hk.
  - rewrite Hw. destruct pre; [destruct ds; [destruct mid|]|]; discriminate.
  - rewrite Hw, suffixed_tidy by assumption. exact He.
  - exact Hv.
Qed.

Lemma suffixed_valid (pre ds mid : jsstring) (d : char) (n : nat) :
  length ds = n -> forallb isDigit ds = true -> isDigit d = true ->
  forallb isValidFormat (instances [Fixed pre; Digits n; Fixed mid; Digits 1]) = true ->
  isValidFormat (pre ++ ds ++ mid ++ [d]) = true.
Proof.
  intros Hn Hds Hd Hv. eapply isValidFormat_shape; [|exact Hv].
  now apply Fills_suffixed.
Qed.

Lemma extract_long (prefix letters ds : jsstring) (d : char) :
  In prefix longPrefixes -> map asciiUpper letters = prefix ->
  length ds = 6 -> forallb isDigit ds = true -> isDigit d = true ->
  fst (extractOrderNumber upperUnicode (letters ++ ds ++ [hyphen] ++ [d]))
  = Some (prefix ++ ds ++ [hyphen] ++ [d]).
Proof.
  intros Hp Hl Hn Hds Hd.
  repeat (destruct Hp as [<-|Hp]); try (now destruct Hp); letter_cases;
    (apply extractOrderNumber_suffixed with (k := 4) (n := 6);
     [exact Hn|exact Hds|exact Hd|reflexivity|reflexivity
     |vm_compute; reflexivity
     |vm_compute; reflexivity
     |apply suffixed_valid with (n := 6);
      [exact Hn|exact Hds|exact Hd|vm_compute; reflexivity]]).
Qed.

Lemma extract_short (prefix letters ds : jsstring) (d : char) :
  In prefix shortPrefixes -> map asciiUpper letters = prefix ->
  length ds = 4 -> forallb isDigit ds = true -> isDigit d = true ->
  fst (extractOrderNumber upperUnicode (letters ++ ds ++ [hyphen] ++ [d]))
  = Some (prefix ++ ds ++ [hyphen] ++ [d]).
Proof.
  intros Hp Hl Hn Hds Hd.
  repeat (destruct Hp as [<-|Hp]); try (now destruct Hp); letter_cases;
    (apply extractOrderNumber_suffixed with (k := 3) (n := 4);
     [exact Hn|exact Hds|exact Hd|reflexivity|reflexivity
     |vm_compute; reflexivity
     |vm_compute; reflexivity
     |apply suffixed_valid with (n := 4);
      [exact Hn|exact Hds|exact Hd|vm_compute; reflexivity]]).
Qed.

Lemma extract_EL (e1 l1 e2 l2 d : char) (ds : jsstring) :
  isE e1 = true -> isL l1 = true -> isE e2 = true -> isL l2 = true ->
  length ds = 6 -> forallb isDigit ds = true -> isDigit d = true ->
  fst (extractOrderNumber upperUnicode ([e1; l1] ++ ds ++ [e2; l2; hyphen] ++ [d]))
  = Some (js "EL" ++ ds ++ js "EL" ++ [hyphen] ++ [d]).
Proof.
  intros He1 Hl1 He2 Hl2 Hn Hds Hd.
  apply extractOrderNumber_suffixed with (k := 2) (n := 6);
    [exact Hn|exact Hds|exact Hd| | | |now apply normalizeCase_EL|].
  - letter_cases; reflexivity.
  - letter_cases; reflexivity.
  - letter_cases; vm_compute; reflexivity.
  - change (js "EL" ++ ds ++ js "EL" ++ [hyphen] ++ [d])
      with (js "EL" ++ ds ++ (js "EL" ++ [hyphen]) ++ [d]).
    apply suffixed_valid with (n := 6);
      [exact Hn|exact Hds|exact Hd|vm_compute; reflexivity].
Qed.

Lemma extract_digits (pre ds : jsstring) (d : char) (k n : nat) :
  length ds = n -> forallb isDigit ds = true -> isDigit d = true ->
  (exists c s, pre ++ ds = c :: s /\ isDigit c = true) ->
  forallb notSpace (pre ++ [hyphen]) = true ->
  forallb noDashGlyph (pre ++ [hyphen]) = true ->
  forallb (decidedBy k (0, length pre + n + 1 + 1))
    (instances [Fixed pre; Digits n; Fixed [hyphen]; Digits 1]) = true ->
  forallb isValidFormat (instances [Fixed pre; Digits n; Fixed [hyphen]; Digits 1])
  = true ->
  fst (extractOrderNumber upperUnicode (pre ++ ds ++ [hyphen] ++ [d]))
  = Some (pre ++ ds ++ [hyphen] ++ [d]).
Proof.
  intros Hn Hds Hd (c & s & E & Hc) Hs Hg Hk Hv.
  apply extractOrderNumber_suffixed with (k := k) (n := n); auto.
  - rewrite app_assoc, E. cbn [app]. now apply normalizeCase_digit.
  - now apply suffixed_valid with (n := n).
Qed.

Lemma digits_head (ds : jsstring) (n : nat) :
  length ds = S n -> forallb isDigit ds = true ->
  exists c s, [] ++ ds = c :: s /\ isDigit c = true.
Proof.
  destruct ds as [|c s]; [discriminate|]. cbn [forallb]. intros _ H.
  apply andb_true_iff in H as [H _]. exists c, s. split; [reflexivity|exact H].
Qed.

End OneSuffix.

(** A root of one of the six families followed by one suffix [-digit], alone
    in the text, is returned as it is, with the letters of its prefix in
    canonical case. *)
Lemma extract_root (upperUnicode : jsstring -> jsstring)
    (root canonical : jsstring) (d : char) :
  Root root canonical -> isDigit d = true ->
  fst (extractOrderNumber upperUnicode (root ++ [hyphen; d]))
  = Some (canonical ++ [hyphen; d]).
Proof.
  intros Hr Hd. destruct Hr as
    [prefix letters ds Hp Hl Hn Hds | prefix letters ds Hp Hl Hn Hds
    | e1 l1 e2 l2 ds He1 Hl1 He2 Hl2 Hn Hds | ds Hn Hds | ds Hn Hds | ds Hn Hds].
  - rewrite <- !app_assoc. now apply extract_long.
  - rewrite <- !app_assoc. now apply extract_short.
  - rewrite <- !app_assoc. now apply extract_EL.
  - change (fst (extractOrderNumber upperUnicode ([50%N] ++ ds ++ [hyphen] ++ [d]))
            = Some ([50%N] ++ ds ++ [hyphen] ++ [d])).
    apply extract_digits with (k := 1) (n := 9);
      [exact Hn|exact Hds|exact Hd|exists 50%N, ds; split; reflexivity
      |reflexivity|reflexivity|vm_compute; reflexivity|vm_compute; reflexivity].
  - change (fst (extractOrderNumber upperUnicode ([] ++ ds ++ [hyphen] ++ [d]))
            = Some ([] ++ ds ++ [hyphen] ++ [d])).
    apply extract_digits with (k := 0) (n := 9);
      [exact Hn|exact Hds|exact Hd|now apply digits_head with (n := 8)
      |reflexivity|reflexivity|vm_compute; reflexivity|vm_compute; reflexivity].
  - change (fst (extractOrderNumber upperUnicode ([] ++ ds ++ [hyphen] ++ [d]))
            = Some ([] ++ ds ++ [hyphen] ++ [d])).
    apply extract_digits with (k := 7) (n := 6);
      [exact Hn|exact Hds|exact Hd|now apply digits_head with (n := 5)
      |reflexivity|reflexivity|vm_compute; reflexivity|vm_compute; reflexivity].
Qed.

(** The six examples of the claim. *)
Example canonical_examples (upperUnicode : jsstring -> jsstring) :
  map (fun text => fst (extractOrderNumber upperUnicode (js text)))
    ["EJR123456-1"; "R3817-1"; "2000000289-1"; "000235334-1"; "123456-1";
     "EL649453EL-1"; "mh123456-1"; "al5862-1"]%string
  = map (fun text => Some (js text))
      ["EJR123456-1"; "R3817-1"; "2000000289-1"; "000235334-1"; "123456-1";
       "EL649453EL-1"; "MH123456-1"; "AL5862-1"]%string.
Proof. vm_compute. reflexivity. Qed.

(** C4, as the claim has it, fails: the validation accepts a root with a
    chain of suffixes, but the patterns of the prefixed families read one
    suffix only, so the text below comes back cut after its first suffix.
    (A root without a suffix, which the family formats of the specification
    allow, is not returned at all.) *)
Lemma chained_suffixes_cut :
  isValidFormat (js "EJR123456-1-2") = true
  /\ (forall upperUnicode,
         fst (extractOrderNumber upperUnicode (js "EJR123456-1-2"))
         = Some (js "EJR123456-1"))
  /\ (forall upperUnicode,
         fst (extractOrderNumber upperUnicode (js "EJR123456")) = None).
Proof.
  split; [vm_compute; reflexivity|].
  split; intros upperUnicode; vm_compute; reflexivity.
Qed.

(** C7.  A candidate of the EL format, whatever the case of its letters,
    comes back with both its [el] in upper case; so does the text
    [el649453el-1]. *)
Theorem el_wrapped_upper_cased (upperUnicode : jsstring -> jsstring)
    (e1 l1 e2 l2 d : char) (ds : jsstring) :
  isE e1 = true -> isL l1 = true -> isE e2 = true -> isL l2 = true ->
  length ds = 6 -> forallb isDigit ds = true -> isDigit d = true ->
  normalizeCase upperUnicode ([e1; l1] ++ ds ++ [e2; l2; hyphen; d])
  = replaceEL ([e1; l1] ++ ds ++ [e2; l2; hyphen; d])
  /\ replaceEL ([e1; l1] ++ ds ++ [e2; l2; hyphen; d])
     = js "EL" ++ ds ++ js "EL" ++ [hyphen; d]
  /\ fst (extractOrderNumber upperUnicode ([e1; l1] ++ ds ++ [e2; l2; hyphen; d]))
     = Some (js "EL" ++ ds ++ js "EL" ++ [hyphen; d]).
Proof.
  intros He1 Hl1 He2 Hl2 Hn Hds Hd.
  assert (Hr : replaceEL ([e1; l1] ++ ds ++ [e2; l2; hyphen; d])
               = js "EL" ++ ds ++ js "EL" ++ [hyphen; d]).
  { cbn [app replaceEL]. rewrite He1, Hl1. cbn [andb].
    destruct (ds ++ [e2; l2; hyphen; d]) eqn:E;
      [destruct ds; discriminate E|rewrite <- E; clear E].
    rewrite replaceEL_digits by exact Hds. cbn [replaceEL]. rewrite He2, Hl2.
    reflexivity. }
  split; [|split; [exact Hr|]].
  - rewrite Hr. now apply (@normalizeCase_EL upperUnicode e1 l1 e2 l2 d ds).
  - now apply (@extract_EL upperUnicode e1 l1 e2 l2 d ds).
Qed.

Lemma el_wrapped_upper_cased_witness :
  isE 101%N = true /\ isL 108%N = true /\ length (js "649453") = 6
  /\ forallb isDigit (js "649453") = true /\ isDigit 49%N = true
  /\ js "el649453el-1" = [101%N; 108%N] ++ js "649453" ++ [101%N; 108%N; hyphen; 49%N]
  /\ js "EL649453EL-1" = js "EL" ++ js "649453" ++ js "EL" ++ [hyphen; 49%N]
  /\ fst (extractOrderNumber upperKeep (js "el649453el-1")) = Some (js "EL649453EL-1").
Proof.
  do 7 (split; [reflexivity|]).
  exact (proj2 (proj2 (@el_wrapped_upper_cased upperKeep 101%N 108%N 101%N 108%N
                         49%N (js "649453") eq_refl eq_refl eq_refl eq_refl
                         eq_refl eq_refl eq_refl))).
Defined.

(** C5, as the claim has it, fails.  In the first text the leftmost match of
    the short-prefix pattern is R1234, which is not valid, so that pattern is
    given up and the bare number is returned although [Order #R3817-1] is in
    the text.  In the second text the labelled number has no prefix: the
    bare six-digit pattern is tried before the patterns with the word Order
    and returns the number on the left. *)
Lemma bare_number_beats_label :
  (forall upperUnicode,
      fst (extractOrderNumber upperUnicode (js "R1234 Order #R3817-1 123456-1"))
      = Some (js "123456-1"))
  /\ (forall upperUnicode,
         fst (extractOrderNumber upperUnicode (js "123456-1 Order #654321-2"))
         = Some (js "123456-1")).
Proof. split; intros upperUnicode; vm_compute; reflexivity. Qed.

(** * A bare number of nine digits with a chain of suffixes *)

Lemma headIs_flat_map (A B : Type) (f : A -> list B) (l : list A) (x : A) (y : B) :
  headIs l x -> headIs (f x) y -> headIs (flat_map f l) y.
Proof. intros (l1 & ->) (l2 & E). cbn [flat_map]. rewrite E. now eexists. Qed.

Lemma headIs_app (A : Type) (l l' : list A) (x : A) :
  headIs l x -> headIs (l ++ l') x.
Proof. intros (l1 & ->). now eexists. Qed.

Lemma headIs_filter (A : Type) (P : A -> bool) (l : list A) (x : A) :
  headIs l x -> P x = true -> headIs (filter P l) x.
Proof. intros (l1 & ->) H. cbn [filter]. rewrite H. now eexists. Qed.

Lemma headIs_map (A B : Type) (f : A -> B) (l : list A) (x : A) :
  headIs l x -> headIs (map f l) (f x).
Proof. intros (l1 & ->). now eexists. Qed.

(** [\d{n}] has one way to read [n] digits. *)
Lemma matcher_times_Digit (ic : bool) (s : jsstring) (c : option (nat * nat)) :
  forall ds p i,
    forallb isDigit ds = true ->
    matcher ic (times (length ds) Digit) (mkState p i (ds ++ s) c)
    = [mkState (lastOr p ds) (i + length ds) s c].
Proof.
  unfold times. induction ds as [|d ds IH]; intros p i H; rewrite matcher_Rep.
  - cbn. now rewrite Nat.add_0_r.
  - cbn [forallb] in H. apply andb_true_iff in H as [Hd H].
    cbn [length decrMax Nat.pred app].
    change (matcher ic Digit ?st) with (step isDigit st).
    unfold step. cbn [rest pos cap prev]. rewrite Hd. cbn [flat_map].
    rewrite IH by exact H. cbn [app lastOr]. now rewrite Nat.add_succ_r.
Qed.

Lemma matcher_segment (p : option char) (i : nat) (d : char) (s : jsstring)
    (c : option (nat * nat)) :
  isDigit d = true ->
  headIs (matcher false segment (mkState p i (hyphen :: d :: s) c))
         (mkState (Some d) (S (S i)) s c).
Proof.
  intros Hd. unfold segment. cbn [seq matcher].
  destruct (matcher_star_Space false (hyphen :: d :: s) p i c) as (l1 & ->).
  cbn [flat_map]. apply headIs_app.
  change (takeWhile isSpace (hyphen :: d :: s)) with (@nil char).
  change (dropWhile isSpace (hyphen :: d :: s)) with (hyphen :: d :: s).
  cbn [lastOr length]. rewrite Nat.add_0_r.
  replace (step (fun ch => existsb (fun a => charEq false a ch)
                             [emDash; enDash; hyphen])
             (mkState p i (hyphen :: d :: s) c))
    with [mkState (Some hyphen) (S i) (d :: s) c] by reflexivity.
  cbn [flat_map]. apply headIs_app.
  destruct (matcher_star_Space false (d :: s) (Some hyphen) (S i) c) as (l2 & ->).
  cbn [flat_map]. apply headIs_app.
  cbn [takeWhile dropWhile]. rewrite (digit_isSpace _ Hd).
  cbn [lastOr length]. rewrite Nat.add_0_r.
  unfold step. cbn [rest pos cap prev]. rewrite Hd. now eexists.
Qed.

(** The quantified segment first reads the whole chain. *)
Lemma matcher_chain (c : option (nat * nat)) :
  forall sfx min p i,
    forallb isDigit sfx = true -> min <= length sfx ->
    headIs (matcher false (Rep min None segment) (mkState p i (chain sfx) c))
           (mkState (lastOr p (chain sfx)) (i + length (chain sfx)) [] c).
Proof.
  induction sfx as [|d sfx IH]; intros min p i H Hmin; rewrite matcher_Rep.
  - simpl in Hmin. replace min with 0 by lia. cbn. rewrite Nat.add_0_r. now eexists.
  - cbn [forallb] in H. apply andb_true_iff in H as [Hd H].
    cbn [chain flat_map app lastOr length decrMax]. fold (chain sfx).
    replace (i + S (S (length (chain sfx)))) with (S (S i) + length (chain sfx)) by lia.
    pose proof (@matcher_segment p i d (chain sfx) c Hd) as Hs.
    destruct min as [|min'].
    + apply headIs_app. eapply headIs_flat_map.
      * apply headIs_filter; [exact Hs|]. cbn [pos].
        apply negb_true_iff, Nat.eqb_neq. lia.
      * apply IH; [exact H|lia].
    + eapply headIs_flat_map; [exact Hs|]. apply IH; [exact H|simpl in Hmin; lia].
Qed.

Lemma lastOr_chain (sfx : jsstring) :
  forall p, sfx <> [] -> forallb isDigit sfx = true ->
    isWordOpt (lastOr p (chain sfx)) = true.
Proof.
  induction sfx as [|d sfx IH]; intros p Hne H; [congruence|].
  cbn [forallb] in H. apply andb_true_iff in H as [Hd H].
  cbn [chain flat_map app lastOr]. fold (chain sfx).
  destruct sfx as [|d' sfx']; [now apply digit_isWordChar|].
  apply IH; [discriminate|exact H].
Qed.

Lemma matcher_Seq (ic : bool) (r1 r2 : regex) (st : state) :
  matcher ic (Seq r1 r2) st = flat_map (matcher ic r2) (matcher ic r1 st).
Proof. reflexivity. Qed.

Lemma matcher_Group (ic : bool) (r : regex) (st : state) :
  matcher ic (Group r) st = map (setCap (pos st)) (matcher ic r st).
Proof. reflexivity. Qed.

Lemma matcher_WordB (ic : bool) (st : state) :
  xorb (isWordOpt (prev st)) (isWordOpt (hd_error (rest st))) = true ->
  matcher ic WordB st = [st].
Proof.
  intros H. cbn [matcher]. unfold wordBefore, wordAfter.
  replace (match rest st with [] => false | c :: _ => isWordChar c end)
    with (isWordOpt (hd_error (rest st))) by (destruct (rest st); reflexivity).
  fold (isWordOpt (prev st)). now rewrite H.
Qed.

(** The first pattern reads a bare number of nine digits with all its
    suffixes. *)
Lemma exec_chained (ds sfx : jsstring) :
  length ds = 9 -> forallb isDigit ds = true ->
  sfx <> [] -> forallb isDigit sfx = true ->
  exists st,
    exec (nth 0 patterns valid9) (ds ++ chain sfx) = Some (0, st)
    /\ cap st = Some (0, length (ds ++ chain sfx)).
Proof.
  intros Hn Hds Hne Hsfx.
  assert (Hm : headIs
            (matcher false (tree (nth 0 patterns valid9))
               (mkState None 0 (ds ++ chain sfx) None))
            (setCap 0 (mkState (lastOr (lastOr None ds) (chain sfx))
                         (0 + length ds + length (chain sfx)) [] None))).
  { change (tree (nth 0 patterns valid9))
      with (Seq WordB (Seq (Group (Seq (times 9 Digit) (Rep 1 None segment))) WordB)).
    rewrite matcher_Seq. eapply headIs_flat_map.
    - rewrite matcher_WordB; [now eexists|]. cbn [prev rest isWordOpt].
      destruct ds as [|d1 ds']; [discriminate Hn|]. cbn [app hd_error isWordOpt].
      cbn [forallb] in Hds. apply andb_true_iff in Hds as [Hd1 _].
      now rewrite (digit_isWordChar _ Hd1).
    - rewrite matcher_Seq. eapply headIs_flat_map.
      + rewrite matcher_Group. cbn [pos]. apply headIs_map.
        rewrite matcher_Seq. rewrite <- Hn.
        rewrite matcher_times_Digit by exact Hds. cbn [flat_map].
        apply headIs_app. apply matcher_chain; [exact Hsfx|].
        destruct sfx; [congruence|simpl; lia].
      + rewrite matcher_WordB; [now eexists|]. unfold setCap.
        cbn [prev rest hd_error isWordOpt]. now rewrite lastOr_chain. }
  destruct Hm as (l & Hm). eexists. split.
  - unfold exec. remember (ds ++ chain sfx) as text eqn:E. clear E.
    destruct text; cbn [searchFrom];
      change (ignoreCase (nth 0 patterns valid9)) with false; rewrite Hm; reflexivity.
  - unfold setCap. cbn [cap pos]. now rewrite length_app.
Qed.

Lemma Matches_chain (ic : bool) :
  forall sfx min p s,
    forallb isDigit sfx = true -> min <= length sfx ->
    Matches ic (Rep min None dashDigit) p (chain sfx) s.
Proof.
  induction sfx as [|d sfx IH]; intros min p s H Hmin.
  - simpl in Hmin. replace min with 0 by lia. apply MRepExit.
  - cbn [forallb] in H. apply andb_true_iff in H as [Hd H].
    change (chain (d :: sfx)) with ([hyphen; d] ++ chain sfx).
    apply MRepIter; [discriminate|discriminate| |].
    + change [hyphen; d] with ([hyphen] ++ [d]).
      apply MSeq; [apply MChr; destruct ic; reflexivity|now apply MDigit].
    + apply IH; [exact H|simpl in Hmin; lia].
Qed.

Lemma chained_valid (ds sfx : jsstring) :
  length ds = 9 -> forallb isDigit ds = true ->
  sfx <> [] -> forallb isDigit sfx = true ->
  isValidFormat (ds ++ chain sfx) = true.
Proof.
  intros Hn Hds Hne Hsfx.
  assert (H9 : test valid9 (ds ++ chain sfx) = true).
  { apply test_iff. exists [], (ds ++ chain sfx), []. split; [now rewrite app_nil_r|].
    change (tree valid9)
      with (Seq Bol (Seq (times 9 Digit) (Seq (Rep 1 None dashDigit) Eol))).
    change (ds ++ chain sfx) with ([] ++ ds ++ chain sfx). apply MSeq; [apply MBol|].
    apply MSeq.
    - apply Rep_class_Matches with (P := isDigit);
        [intros; now apply MDigit|exact Hds|lia|intros k [= <-]; lia].
    - rewrite <- (app_nil_r (chain sfx)). apply MSeq; [|apply MEol].
      apply Matches_chain; [exact Hsfx|]. destruct sfx; [congruence|simpl; lia]. }
  unfold isValidFormat. rewrite H9. now rewrite !orb_true_r.
Qed.

Lemma chain_forallb (f : char -> bool) (sfx : jsstring) :
  f hyphen = true -> (forall c, isDigit c = true -> f c = true) ->
  forallb isDigit sfx = true -> forallb f (chain sfx) = true.
Proof.
  intros Hh Hf. induction sfx as [|d sfx IH]; [reflexivity|].
  cbn [forallb chain flat_map app]. intros H. apply andb_true_iff in H as [Hd H].
  rewrite Hh, (Hf _ Hd). now apply IH.
Qed.

Lemma extract_chained (upperUnicode : jsstring -> jsstring) (ds sfx : jsstring) :
  length ds = 9 -> forallb isDigit ds = true ->
  sfx <> [] -> forallb isDigit sfx = true ->
  fst (extractOrderNumber upperUnicode (ds ++ chain sfx)) = Some (ds ++ chain sfx).
Proof.
  intros Hn Hds Hne Hsfx.
  assert (Hs : forallb notSpace (ds ++ chain sfx) = true).
  { rewrite forallb_app, (forallb_impl _ _ _ digit_notSpace Hds).
    now apply chain_forallb; [reflexivity|apply digit_notSpace|]. }
  assert (Hg : forallb noDashGlyph (ds ++ chain sfx) = true).
  { rewrite forallb_app, (forallb_impl _ _ _ digit_noDashGlyph Hds).
    now apply chain_forallb; [reflexivity|apply digit_noDashGlyph|]. }
  assert (Ec : normalizeCase upperUnicode
                 (cleanUp (substring (ds ++ chain sfx) 0 (length (ds ++ chain sfx))))
               = ds ++ chain sfx).
  { rewrite substring_whole by reflexivity. rewrite cleanUp_tidy by assumption.
    destruct ds as [|d1 ds']; [discriminate Hn|]. cbn [forallb] in Hds.
    apply andb_true_iff in Hds as [Hd1 _]. now apply normalizeCase_digit. }
  rewrite <- Ec at 2.
  apply extractOrderNumber_decided with (k := 0).
  - exact Hg.
  - unfold decidedBy. cbn [firstn forallb andb].
    change (nth_error patterns 0) with (Some (nth 0 patterns valid9)).
    destruct (@exec_chained ds sfx Hn Hds Hne Hsfx) as (st & -> & Hc). cbn [snd].
    rewrite Hc. cbn [fst snd]. rewrite !Nat.eqb_refl. reflexivity.
  - rewrite substring_whole by reflexivity. destruct ds; discriminate.
  - rewrite Ec. now apply chained_valid.
Qed.

Lemma Root_valid (root canonical : jsstring) (d : char) :
  Root root canonical -> isDigit d = true ->
  isValidFormat (root ++ [hyphen; d]) = true.
Proof.
  intros Hr Hd. destruct Hr as
    [prefix letters ds Hp Hl Hn Hds | prefix letters ds Hp Hl Hn Hds
    | e1 l1 e2 l2 ds He1 Hl1 He2 Hl2 Hn Hds | ds Hn Hds | ds Hn Hds | ds Hn Hds].
  - rewrite <- !app_assoc.
    repeat (destruct Hp as [<-|Hp]); try (now destruct Hp); letter_cases;
      (apply (@suffixed_valid _ ds [hyphen] d 6);
       [exact Hn|exact Hds|exact Hd|vm_compute; reflexivity]).
  - rewrite <- !app_assoc.
    repeat (destruct Hp as [<-|Hp]); try (now destruct Hp); letter_cases;
      (apply (@suffixed_valid _ ds [hyphen] d 4);
       [exact Hn|exact Hds|exact Hd|vm_compute; reflexivity]).
  - rewrite <- !app_assoc. letter_cases;
      (apply (@suffixed_valid [_; _] ds [_; _; hyphen] d 6);
       [exact Hn|exact Hds|exact Hd|vm_compute; reflexivity]).
  - apply (@suffixed_valid [50%N] ds [hyphen] d 9);
      [exact Hn|exact Hds|exact Hd|vm_compute; reflexivity].
  - apply (@suffixed_valid [] ds [hyphen] d 9);
      [exact Hn|exact Hds|exact Hd|vm_compute; reflexivity].
  - apply (@suffixed_valid [] ds [hyphen] d 6);
      [exact Hn|exact Hds|exact Hd|vm_compute; reflexivity].
Qed.

(** C4, as the code has it.  A root of one of the six families followed by
    one suffix [-digit] -- or, for nine bare digits, by one suffix or more --
    passes the validation and, alone in the text, is returned as it is, with
    the letters of its prefix in canonical case. *)
Theorem suffixed_root_returned (upperUnicode : jsstring -> jsstring)
    (text expected : jsstring) :
  Suffixed text expected ->
  isValidFormat text = true
  /\ fst (extractOrderNumber upperUnicode text) = Some expected.
Proof.
  intros [root canonical d Hr Hd | ds sfx Hn Hds Hne Hsfx]; split.
  - now apply Root_valid with (canonical := canonical).
  - now apply extract_root.
  - now apply chained_valid.
  - now apply extract_chained.
Qed.

Lemma suffixed_root_returned_witness :
  Suffixed (js "ejr123456-1") (js "EJR123456-1")
  /\ Suffixed (js "000235334-1-3") (js "000235334-1-3")
  /\ isValidFormat (js "ejr123456-1") = true
  /\ fst (extractOrderNumber upperKeep (js "ejr123456-1")) = Some (js "EJR123456-1")
  /\ fst (extractOrderNumber upperKeep (js "000235334-1-3"))
     = Some (js "000235334-1-3").
Proof.
  assert (H1 : Suffixed (js "ejr123456-1") (js "EJR123456-1")).
  { apply (@OneSuffix (js "ejr123456") (js "EJR123456") 49%N); [|reflexivity].
    apply (@RootLong (js "EJR") (js "ejr") (js "123456"));
      [now left|reflexivity|reflexivity|reflexivity]. }
  assert (H2 : Suffixed (js "000235334-1-3") (js "000235334-1-3")).
  { apply (@NineChained (js "000235334") (js "13"));
      [reflexivity|reflexivity|discriminate|reflexivity]. }
  split; [exact H1|]. split; [exact H2|].
  split; [exact (proj1 (suffixed_root_returned upperKeep H1))|].
  split; [exact (proj2 (suffixed_root_returned upperKeep H1))|].
  exact (proj2 (suffixed_root_returned upperKeep H2)).
Defined.

(** * Programs and their runs *)

Lemma Run_always (A : Type) (p : io A) (t : list event) (o : outcome A) :
  Run p t o -> forall P, always p P -> P t o.
Proof.
  induction 1 as [a|e|code|X c k answer t o Hp R IH|level message k t o R IH];
    intros P H; cbn in H.
  - exact H.
  - exact H.
  - exact H.
  - exact (IH _ (H answer Hp)).
  - exact (IH _ H).
Qed.

Lemma always_Run (A : Type) (p : io A) :
  forall P : list event -> outcome A -> Prop,
    (forall t o, Run p t o -> P t o) -> always p P.
Proof.
  induction p as [a|e|code|X c k IH|level message k IH]; intros P H; cbn.
  - apply H. constructor.
  - apply H. constructor.
  - apply H. constructor.
  - intros answer Ha. apply IH. intros t o R. apply H. now constructor.
  - apply IH. intros t o R. apply H. now constructor.
Qed.

Lemma always_impl (A : Type) (p : io A) :
  forall P Q : list event -> outcome A -> Prop,
    (forall t o, P t o -> Q t o) -> always p P -> always p Q.
Proof.
  induction p as [a|e|code|X c k IH|level message k IH]; intros P Q HPQ H; cbn in *.
  - auto.
  - auto.
  - auto.
  - intros answer Ha. eapply IH; [|exact (H answer Ha)]. cbn. auto.
  - eapply IH; [|exact H]. cbn. auto.
Qed.

(** A program and then another: the outcome of the first decides. *)
Lemma always_andThen (A B : Type) (p : io A) (f : A -> io B) :
  forall P : list event -> outcome B -> Prop,
    always p (fun t o =>
                match o with
                | Returned a => always (f a) (fun t' o' => P (t ++ t') o')
                | Thrown e => P t (Thrown e)
                | Exited code => P t (Exited code)
                end) ->
    always (andThen p f) P.
Proof.
  induction p as [a|e|code|X c k IH|level message k IH]; intros P H; cbn in *.
  - exact H.
  - exact H.
  - exact H.
  - intros answer Ha. apply IH. exact (H answer Ha).
  - apply IH. exact H.
Qed.

Lemma always_tryCatch (A : Type) (p : io A) (handler : Error -> io A) :
  forall P : list event -> outcome A -> Prop,
    always p (fun t o =>
                match o with
                | Returned a => P t (Returned a)
                | Thrown e => always (handler e) (fun t' o' => P (t ++ t') o')
                | Exited code => P t (Exited code)
                end) ->
    always (tryCatch p handler) P.
Proof.
  induction p as [a|e|code|X c k IH|level message k IH]; intros P H; cbn in *.
  - exact H.
  - exact H.
  - exact H.
  - intros answer Ha. apply IH. exact (H answer Ha).
  - apply IH. exact H.
Qed.

Lemma always_replay (A : Type) (l : list entry) (k : io A) :
  forall P : list event -> outcome A -> Prop,
    always k (fun t o => P (map wrote l ++ t) o) -> always (replay l k) P.
Proof.
  induction l as [|e l IH]; intros P H; cbn in *; [exact H|].
  apply IH. exact H.
Qed.

Lemma always_logged (A : Type) (x : Logged A) (P : list event -> outcome A -> Prop) :
  P (map wrote (snd x)) (Returned (fst x)) -> always (logged x) P.
Proof.
  intros H. apply always_replay. cbn. now rewrite app_nil_r.
Qed.

(** *** Traces in pieces *)

Lemma fetches_app (t t' : list event) : fetches (t ++ t') = fetches t ++ fetches t'.
Proof. apply flat_map_app. Qed.

Lemma requests_app (t t' : list event) : requests (t ++ t') = requests t ++ requests t'.
Proof. unfold requests. now rewrite fetches_app, map_app. Qed.

Lemma lookups_app (t t' : list event) : lookups (t ++ t') = lookups t ++ lookups t'.
Proof. apply flat_map_app. Qed.

Lemma recognized_app (t t' : list event) :
  recognized (t ++ t') = recognized t ++ recognized t'.
Proof. apply flat_map_app. Qed.

Lemma commands_app (t t' : list event) : commands (t ++ t') = commands t ++ commands t'.
Proof. apply flat_map_app. Qed.

Lemma scanned_app (t t' : list event) : scanned (t ++ t') = scanned t ++ scanned t'.
Proof. apply flat_map_app. Qed.

Lemma renamed_app (t t' : list event) : renamed (t ++ t') = renamed t ++ renamed t'.
Proof. apply flat_map_app. Qed.

Lemma unlinked_app (t t' : list event) : unlinked (t ++ t') = unlinked t ++ unlinked t'.
Proof. apply flat_map_app. Qed.

Lemma listings_app (t t' : list event) : listings (t ++ t') = listings t ++ listings t'.
Proof. apply flat_map_app. Qed.

Lemma failures_app (t t' : list event) : failures (t ++ t') = failures t ++ failures t'.
Proof. apply flat_map_app. Qed.

Lemma written_app (t t' : list event) : written (t ++ t') = written t ++ written t'.
Proof. apply flat_map_app. Qed.

Lemma last_app_cons (A : Type) (l l' : list A) (x d : A) :
  last (l ++ x :: l') d = last (x :: l') d.
Proof.
  induction l as [|y l IH]; [reflexivity|].
  change ((y :: l) ++ x :: l') with (y :: (l ++ x :: l')).
  cbn [last]. destruct (l ++ x :: l') eqn:E; [now destruct l|]. exact IH.
Qed.

Ltac over_app :=
  unfold lastWritten;
  repeat match goal with
  | |- context [@cons event ?e ?t] =>
      lazymatch t with
      | nil => fail
      | _ => change (@cons event e t) with ([e] ++ t)
      end
  end;
  rewrite ?fetches_app, ?requests_app, ?lookups_app, ?recognized_app, ?commands_app,
    ?scanned_app, ?renamed_app, ?unlinked_app, ?listings_app, ?failures_app,
    ?written_app.

Ltac last_line := over_app; rewrite ?app_assoc; apply last_last.

(** * The order at the shipping service *)

Ltac run_io :=
  cbn [tryCatch andThen perform always Logger.info Logger.error Logger.success
       Logger.summary Logger.log].

Ltac read_trace :=
  cbn [lastWritten written fetches requests lookups recognized commands scanned
       renamed unlinked listings failures calls flat_map app map fst snd last
       fetchOf jsonOf textOf commandOf scanOf renameOf unlinkOf listingOf
       lookupRequest markAsShippedRequest assignUserRequest
       length Nat.eqb forallb answeredOk andb
       fileName success message orderNumber trackingNumber].

Ltac order_leaf :=
  eexists; split; [reflexivity|]; read_trace;
  repeat match goal with E : ok _ = _ |- _ => rewrite ?E; clear E end;
  repeat split; try discriminate.

Lemma processOrder_runs (orderNumber trackingNumber : jsstring) :
  always (processOrder orderNumber trackingNumber)
         (orderRun orderNumber trackingNumber).
Proof.
  unfold processOrder, orderRun, orderRequests, networkOnly.
  run_io. intros [e|response] _; run_io.
  { order_leaf. now left. }
  destruct (ok response) eqn:Eok; cbn [negb]; run_io.
  2:{ order_leaf. now left. }
  intros [e|data] _; run_io.
  { order_leaf. now left. }
  destruct (noOrders data) eqn:Eno; run_io.
  { order_leaf. now left. }
  destruct (find awaitingShipment (ordersOf data)) as [firstUnfulfilled|] eqn:Efind;
    run_io.
  2:{ order_leaf. now left. }
  intros [e|markShippedResponse] _; run_io.
  { order_leaf. right. exists data, firstUnfulfilled. repeat split; auto. }
  destruct (ok markShippedResponse) eqn:Eok2; cbn [negb]; run_io.
  2:{ order_leaf. right. exists data, firstUnfulfilled. repeat split; auto. }
  intros [e|assignUserResponse] _; run_io.
  { order_leaf. right. exists data, firstUnfulfilled. repeat split; auto. }
  destruct (ok assignUserResponse) eqn:Eok3; cbn [negb]; run_io.
  2:{ order_leaf. right. exists data, firstUnfulfilled. repeat split; auto. }
  order_leaf. right. exists data, firstUnfulfilled. repeat split; auto.
Qed.

(** * From the PDF to its text *)

Lemma convertPDFToImage_runs (pdfPath : jsstring) :
  always (convertPDFToImage pdfPath) (convertRun pdfPath).
Proof.
  unfold convertPDFToImage, convertRun, offline. run_io.
  intros [e|[]] _; run_io.
  { read_trace. repeat split; auto. }
  intros [e|present] Hp; [discriminate Hp|]. run_io.
  destruct present; run_io.
  - intros [e|[]] _; run_io; read_trace; repeat split; auto.
  - read_trace. repeat split; auto.
Qed.

Lemma extractTextFromPDF_runs (filePath : jsstring) :
  always (extractTextFromPDF filePath) (extractRun filePath).
Proof.
  unfold extractTextFromPDF. apply always_tryCatch, always_andThen.
  eapply always_impl; [|apply convertPDFToImage_runs].
  unfold convertRun, extractRun, offline.
  intros t o (Hc & Hr & (Hf & Hl & Hd) & Hs & Hg & Hu & Ho).
  destruct o as [imagePath|e|code]; [| |destruct Ho].
  - destruct Ho as [-> Hfail]. run_io.
    intros [e|text] _; run_io.
    + over_app. rewrite Hc, Hf, Hl, Hd, Hs, Hg, Hu, Hfail. read_trace.
      rewrite ?app_nil_r, ?last_app_cons. repeat split; auto.
    + intros [e|[]] _; run_io.
      * over_app. rewrite Hc, Hf, Hl, Hd, Hs, Hg, Hu, Hfail. read_trace.
        rewrite ?app_nil_r, ?last_app_cons. repeat split; eauto.
      * over_app. rewrite Hc, Hf, Hl, Hd, Hs, Hg, Hu, Hfail. read_trace.
        rewrite ?app_nil_r. repeat split; auto.
  - destruct Ho as [Hfail Hw]. run_io.
    over_app. rewrite Hc, Hf, Hl, Hd, Hs, Hg, Hu, Hfail. read_trace.
    rewrite ?app_nil_r, ?last_app_cons. repeat split; auto.
Qed.

(** * One file *)

Lemma flat_map_wrote (A : Type) (f : event -> list A) (l : list entry) :
  (forall level message, f (Wrote level message) = []) ->
  flat_map f (map wrote l) = [].
Proof.
  intros H. induction l as [|e l IH]; [reflexivity|].
  cbn [map flat_map]. unfold wrote at 1. now rewrite H, IH.
Qed.

Lemma fetches_wrote (l : list entry) : fetches (map wrote l) = [].
Proof. now apply flat_map_wrote. Qed.

Lemma lookups_wrote (l : list entry) : lookups (map wrote l) = [].
Proof. now apply flat_map_wrote. Qed.

Lemma recognized_wrote (l : list entry) : recognized (map wrote l) = [].
Proof. now apply flat_map_wrote. Qed.

Lemma commands_wrote (l : list entry) : commands (map wrote l) = [].
Proof. now apply flat_map_wrote. Qed.

Lemma unlinked_wrote (l : list entry) : unlinked (map wrote l) = [].
Proof. now apply flat_map_wrote. Qed.

Lemma listings_wrote (l : list entry) : listings (map wrote l) = [].
Proof. now apply flat_map_wrote. Qed.

Lemma failures_wrote (l : list entry) : failures (map wrote l) = [].
Proof. now apply flat_map_wrote. Qed.

Ltac no_calls :=
  rewrite ?fetches_wrote, ?lookups_wrote, ?recognized_wrote, ?commands_wrote,
    ?unlinked_wrote, ?listings_wrote, ?failures_wrote.

(** The tracking number is 20 to 22 digits, wherever it comes from. *)
Lemma tracking_digits (fileName pdfText trackingNumber : jsstring) :
  fst (extractTrackingNumber fileName pdfText) = Some trackingNumber ->
  forallb isDigit trackingNumber = true
  /\ 20 <= length trackingNumber <= 22.
Proof.
  rewrite extractTrackingNumber_fst.
  destruct (exec uspsTracking pdfText) as [mt|] eqn:H.
  - intros [= <-]. rewrite replaceAll_spaceRuns.
    destruct (@exec_bounded_group uspsTracking _ pdfText mt eq_refl H)
      as (a & w & s & -> & M & ->).
    vm_compute in M. split_seqs. read_chrs. read_classes.
    cbn [app orElse].
    repeat match goal with
    | |- context [filter notSpace (?x :: ?l)] =>
        change (filter notSpace (x :: l)) with (x :: filter notSpace l)
    end.
    rewrite !filter_app.
    repeat match goal with
    | H : forallb isSpace ?l = true |- _ =>
        rewrite (filter_notSpace_spaces l H); clear H
    | H : forallb isDigit ?l = true |- _ =>
        rewrite (filter_notSpace_digits l H)
    end.
    cbn [app forallb length]. rewrite !forallb_app, !length_app. split.
    + repeat (apply andb_true_iff; split); auto.
    + lia.
  - destruct (test fileNameDigits (basename fileName (js ".pdf"))) eqn:E;
      [|discriminate].
    intros [= <-]. rewrite test_fileNameDigits in E.
    apply andb_true_iff in E as [E H22]. apply andb_true_iff in E as [E H20].
    apply Nat.leb_le in H20, H22. auto.
Qed.

Lemma orderRequests_same (orderNumber trackingNumber : jsstring)
    (t t' : list event) :
  requests t' = requests t -> lookups t' = lookups t ->
  orderRequests orderNumber trackingNumber t ->
  orderRequests orderNumber trackingNumber t'.
Proof. unfold orderRequests. intros -> ->. auto. Qed.

Section OneFile.

Variable upperUnicode : jsstring -> jsstring.

Lemma order_number_valid (text found : jsstring) :
  fst (extractOrderNumber upperUnicode text) = Some found ->
  isValidFormat found = true.
Proof.
  rewrite extractOrderNumber_fst. apply tryPatterns_valid.
Qed.

Lemma processPDFFile_runs (filePath : jsstring) :
  always (processPDFFile upperUnicode filePath) (fileRun upperUnicode filePath).
Proof.
  unfold processPDFFile. apply always_tryCatch. run_io.
  apply always_andThen.
  eapply always_impl; [|apply extractTextFromPDF_runs].
  unfold extractRun, offline.
  intros t o (Hc & Hr & (Hf & Hl & Hd) & Hs & Hu & Ho).
  destruct o as [text|e|code]; [| |destruct Ho].
  2:{ destruct Ho as (Hfail & Hg & Hw). run_io. unfold fileRun.
      eexists. split; [reflexivity|]. split.
      - apply UpstreamFailed.
        + over_app. rewrite Hfail. reflexivity.
        + over_app. rewrite Hf. reflexivity.
        + last_line.
      - over_app. rewrite Hc, Hu, Hd. read_trace.
        rewrite ?app_nil_r. auto. }
  destruct Ho as [Hg Hfail]. apply always_andThen, always_logged.
  cbn [fst]. destruct (fst (extractOrderNumber upperUnicode text))
    as [[|c orderNumber]|] eqn:Eo.
  { apply order_number_valid in Eo. discriminate Eo. }
  2:{ run_io. unfold fileRun. eexists. split; [reflexivity|]. split.
      - eapply NoOrderNumber.
        + over_app. no_calls. rewrite Hg. reflexivity.
        + over_app. no_calls. rewrite Hfail. reflexivity.
        + exact Eo.
        + over_app. no_calls. rewrite Hf. reflexivity.
        + last_line.
      - over_app. no_calls. rewrite Hc, Hu, Hd, Hg. read_trace. auto. }
  apply always_andThen, always_logged.
  cbn [fst]. destruct (fst (extractTrackingNumber filePath text))
    as [[|d trackingNumber]|] eqn:Et.
  { apply tracking_digits in Et as [_ [Et _]]. cbn in Et. lia. }
  2:{ run_io. unfold fileRun. eexists. split; [reflexivity|]. split.
      - eapply NoTrackingNumber.
        + over_app. no_calls. rewrite Hg. reflexivity.
        + over_app. no_calls. rewrite Hfail. reflexivity.
        + exact Eo.
        + exact Et.
        + over_app. no_calls. rewrite Hf. reflexivity.
        + last_line.
      - over_app. no_calls. rewrite Hc, Hu, Hd, Hg. read_trace. auto. }
  apply always_andThen.
  eapply always_impl; [|apply processOrder_runs].
  intros t2 o2 (r0 & -> & Hname & Hmsg & Hlast & Hsucc & Hreq
                & Hc2 & Hs2 & Hg2 & Hr2 & Hu2 & Hd2).
  assert (Hfetch : forall w,
             fetches ((Wrote (js "INFO") (js "Processing PDF: " ++ filePath)
                       :: t ++ map wrote (snd (extractOrderNumber upperUnicode text))
                          ++ map wrote (snd (extractTrackingNumber filePath text))
                          ++ t2 ++ [w]))
             = fetches t2 ++ fetches [w]).
  { intros w. over_app. no_calls. rewrite Hf. reflexivity. }
  destruct (success r0) eqn:Es; run_io; unfold fileRun;
    (eexists; split; [reflexivity|]; split;
     [ eapply HandedOver with (imagePath := replaceFirst filePath (js ".pdf") (js ".png"))
                              (text := text);
       [ over_app; no_calls; rewrite Hg, Hg2; reflexivity
       | exact Eo
       | exact Et
       | eapply orderRequests_same; [| |exact Hreq];
         [ unfold requests; rewrite Hfetch; read_trace; now rewrite app_nil_r
         | over_app; no_calls; rewrite Hl; read_trace; now rewrite ?app_nil_r ]
       | rewrite Hfetch; read_trace; rewrite app_nil_r; exact Hsucc
       | first [exact Hmsg | discriminate]
       | last_line ]
     | over_app; no_calls; rewrite Hc, Hu, Hd, Hg, Hc2, Hg2, Hu2, Hd2;
       read_trace; auto ]).
Qed.

End OneFile.

(** * A directory *)

Section Directory.

Variable upperUnicode : jsstring -> jsstring.
Variable lowerUnicode : jsstring -> jsstring.
Variable pathJoin : jsstring -> jsstring -> jsstring.

Lemma fileOutcome_name (filePath : jsstring) (t : list event) (r : result) :
  fileOutcome upperUnicode filePath t r -> fileName r = Some (lastPortion filePath).
Proof. destruct 1; reflexivity. Qed.

Lemma processFiles_runs (files : list jsstring) :
  forall results,
    always (processFiles upperUnicode files results) (filesRun files results).
Proof.
  induction files as [|file files IH]; intros results; cbn [processFiles].
  - cbn. exists []. now rewrite app_nil_r.
  - run_io. apply always_andThen.
    eapply always_impl; [|apply processPDFFile_runs].
    intros t o (r & -> & Hout & Hc & _ & Hd).
    eapply always_impl; [|apply IH].
    intros t' o' (rs & -> & Hn & Hc' & Hd').
    exists (r :: rs). repeat split.
    + now rewrite <- app_assoc.
    + cbn [map]. now rewrite (fileOutcome_name Hout), Hn.
    + over_app. rewrite Hc, Hc'. reflexivity.
    + over_app. rewrite Hd, Hd'. reflexivity.
Qed.

Lemma processDirectory_runs (directoryPath : jsstring) :
  always (processDirectory upperUnicode lowerUnicode pathJoin directoryPath)
         (directoryRun lowerUnicode pathJoin directoryPath).
Proof.
  unfold processDirectory, directoryRun. run_io.
  intros [e|names] _; run_io.
  { read_trace. auto. }
  apply always_tryCatch, always_andThen.
  eapply always_impl; [|apply processFiles_runs].
  intros t o (rs & -> & Hn & Hc & Hd). run_io.
  split; [reflexivity|].
  match goal with
  | |- context [listings ?T] =>
      replace (listings T) with [@inr Error _ names]
        by (symmetry; over_app; rewrite Hd; reflexivity)
  end.
  exists rs. repeat split.
  - last_line.
  - exact Hn.
  - over_app. rewrite Hc. read_trace. now rewrite app_nil_r.
Qed.

Lemma main_runs (runDirectly : bool) (argv2 : option jsstring) :
  always (main upperUnicode lowerUnicode pathJoin runDirectly argv2)
         (fun _ o => o = Returned tt).
Proof.
  unfold main. destruct runDirectly; [|reflexivity].
  assert (H : forall directoryPath,
             always (Logger.info (js "Starting PDF processing in directory: "
                                  ++ directoryPath) ;;;
                     processDirectory upperUnicode lowerUnicode pathJoin directoryPath)
                    (fun _ o => o = Returned tt)).
  { intros directoryPath. run_io.
    eapply always_impl; [|apply processDirectory_runs].
    intros t o [H _]. exact H. }
  destruct argv2 as [[|c s]|]; cbn [truthy display negb]; apply H.
Qed.

End Directory.

(** * What the pipeline guarantees *)

Lemma eqString_eq (a b : jsstring) : eqString a b = true <-> a = b.
Proof.
  revert b. induction a as [|x a IH]; intros [|y b]; cbn [eqString];
    try (split; [discriminate|discriminate]); [tauto|].
  rewrite andb_true_iff, N.eqb_eq, IH. split.
  - intros [-> ->]. reflexivity.
  - intros [= -> ->]. auto.
Qed.

Lemma find_first (A : Type) (f : A -> bool) (l : list A) (x : A) :
  find f l = Some x ->
  exists before after,
    l = before ++ x :: after /\ f x = true
    /\ forall y, In y before -> f y = false.
Proof.
  induction l as [|a l IH]; [discriminate|]. cbn [find].
  destruct (f a) eqn:E.
  - intros [= ->]. exists [], l. repeat split; [exact E|]. intros y [].
  - intros H. destruct (IH H) as (before & after & -> & Hx & Hb).
    exists (a :: before), after. repeat split; [exact Hx|].
    intros y [<-|Hy]; auto.
Qed.

(** X2.  [processOrder] reports success exactly when it has sent three
    requests and each of them got a response whose [ok] is true. *)
Theorem processOrder_success_iff (orderNumber trackingNumber : jsstring)
    (t : list event) (r : result) :
  Run (processOrder orderNumber trackingNumber) t (Returned r) ->
  (success r = true
   <-> exists r1 r2 r3,
         map snd (fetches t) = [inr r1; inr r2; inr r3]
         /\ ok r1 = true /\ ok r2 = true /\ ok r3 = true).
Proof.
  intros R.
  destruct (Run_always R _ (processOrder_runs orderNumber trackingNumber))
    as (r' & [= <-] & _ & _ & _ & -> & _).
  rewrite <- (length_map snd). 
  destruct (map snd (fetches t)) as [|a1 [|a2 [|a3 [|a4 l]]]]; cbn [length Nat.eqb andb];
    try (split; [discriminate|intros (r1 & r2 & r3 & [=] & _)]).
  cbn [forallb]. rewrite andb_true_r, !andb_true_iff. split.
  - intros (H1 & H2 & H3).
    destruct a1 as [|r1], a2 as [|r2], a3 as [|r3]; try discriminate.
    exists r1, r2, r3. auto.
  - intros (r1 & r2 & r3 & [= -> -> ->] & H1 & H2 & H3). auto.
Qed.

(** ** The paths of the conversion *)

Lemma startsWith_longer (a b p : jsstring) :
  length p <= length a -> startsWith (a ++ b) p = startsWith a p.
Proof.
  revert a. induction p as [|x p IH]; intros a H; [reflexivity|].
  destruct a as [|c a]; [cbn in H; lia|]. cbn [app startsWith].
  rewrite IH; [reflexivity|]. cbn [length] in H. lia.
Qed.

Lemma includes_false_startsWith (s p : jsstring) :
  includes s p = false -> startsWith s p = false.
Proof. destruct s; cbn [includes]; intros H; now apply orb_false_iff in H. Qed.

(** A string without the searched value is left as it is. *)
Lemma replaceFirst_absent (s searchValue replaceValue : jsstring) :
  includes s searchValue = false ->
  replaceFirst s searchValue replaceValue = s.
Proof.
  induction s as [|c s IH]; intros H.
  - cbn [replaceFirst]. now rewrite (includes_false_startsWith _ _ H).
  - cbn [replaceFirst]. rewrite (includes_false_startsWith _ _ H).
    cbn [includes] in H. apply orb_false_iff in H as [_ H]. now rewrite IH.
Qed.

Lemma startsWith_self (p s : jsstring) : startsWith (p ++ s) p = true.
Proof.
  induction p as [|x p IH]; [reflexivity|].
  cbn [app startsWith]. now rewrite N.eqb_refl.
Qed.

Lemma replaceFirst_eq (s searchValue replaceValue : jsstring) :
  replaceFirst s searchValue replaceValue
  = if startsWith s searchValue
    then replaceValue ++ skipn (length searchValue) s
    else match s with
         | [] => []
         | c :: s' => c :: replaceFirst s' searchValue replaceValue
         end.
Proof. destruct s; reflexivity. Qed.

(** A searched value that only occurs at the end is replaced there. *)
Lemma replaceFirst_end (stem p replaceValue : jsstring) (x : char) :
  includes (stem ++ p) (p ++ [x]) = false ->
  replaceFirst (stem ++ p ++ [x]) (p ++ [x]) replaceValue = stem ++ replaceValue.
Proof.
  induction stem as [|c stem IH]; intros H; rewrite replaceFirst_eq.
  - cbn [app]. pose proof (startsWith_self (p ++ [x]) []) as Hs.
    rewrite app_nil_r in Hs. rewrite Hs.
    now rewrite skipn_all, app_nil_r.
  - assert (Hs : startsWith ((c :: stem) ++ p ++ [x]) (p ++ [x]) = false).
    { rewrite app_assoc, startsWith_longer.
      - apply (includes_false_startsWith _ _ H).
      - rewrite !length_app. cbn. lia. }
    rewrite Hs. cbn [app]. f_equal. apply IH.
    cbn [app includes] in H. now apply orb_false_iff in H as [_ H].
Qed.

(** X4.  For a path that ends with [.pdf] and has no [.pdf] before,
    [convertPDFToImage] runs pdftoppm on the path with the path without
    [.pdf] as the prefix of its output, renames nothing but the first page
    [-1.png] to [.png], and returns the path with [.png] for [.pdf]. *)
Theorem convert_ordinary_path (stem : jsstring) (t : list event)
    (o : outcome jsstring) :
  includes (stem ++ js ".pd") (js ".pdf") = false ->
  Run (convertPDFToImage (stem ++ js ".pdf")) t o ->
  commands t
  = [js "pdftoppm -png -r 300 " ++ [dquote] ++ (stem ++ js ".pdf") ++ [dquote]
     ++ js " " ++ [dquote] ++ stem ++ [dquote]]
  /\ (renamed t = [] \/ renamed t = [(stem ++ js "-1.png", stem ++ js ".png")])
  /\ forall imagePath, o = Returned imagePath -> imagePath = stem ++ js ".png".
Proof.
  intros H R.
  destruct (Run_always R _ (convertPDFToImage_runs (stem ++ js ".pdf")))
    as (Hc & Hr & _ & _ & _ & _ & Ho).
  assert (E : forall replaceValue,
             replaceFirst (stem ++ js ".pdf") (js ".pdf") replaceValue
             = stem ++ replaceValue).
  { intros replaceValue. apply (@replaceFirst_end stem (js ".pd") replaceValue 102%N H). }
  unfold pdftoppm in Hc. rewrite !E in *. rewrite app_nil_r in Hc.
  split; [exact Hc|]. split; [exact Hr|].
  intros imagePath ->. apply Ho.
Qed.

(** X5.  The replacement of [.pdf] is case-sensitive: for a path in which
    [.pdf] does not occur, such as one that ends with [.PDF], the file handed
    to the OCR is the PDF itself, and when [extractTextFromPDF] returns a
    text it has deleted the PDF. *)
Theorem pdf_without_lower_case_extension (filePath : jsstring) (t : list event)
    (o : outcome jsstring) :
  includes filePath (js ".pdf") = false ->
  Run (extractTextFromPDF filePath) t o ->
  (scanned t = [] \/ scanned t = [filePath])
  /\ (unlinked t = [] \/ unlinked t = [filePath])
  /\ forall text, o = Returned text -> unlinked t = [filePath].
Proof.
  intros H R.
  destruct (Run_always R _ (extractTextFromPDF_runs filePath))
    as (_ & _ & _ & Hs & Hu & Ho).
  rewrite (@replaceFirst_absent _ _ (js ".png") H) in *. split; [exact Hs|].
  destruct o as [text|e|code]; [| |destruct Ho].
  - destruct Ho as [Hg _]. rewrite Hg in Hu. split; [now right|].
    intros ? _. exact Hu.
  - destruct Ho as (_ & [Hg|[text Hg]] & _); rewrite Hg in Hu;
      (split; [auto|discriminate]).
Qed.


(** ** One file *)

Section FileProperties.

Variable upperUnicode : jsstring -> jsstring.

(** X8.  [processPDFFile] never throws: whatever fails on the way, it
    returns a result, and the [fileName] of the result is the last portion
    of the path it was given.  It has run pdftoppm once, on that path. *)
Theorem processPDFFile_never_throws (filePath : jsstring) (t : list event)
    (o : outcome result) :
  Run (processPDFFile upperUnicode filePath) t o ->
  (exists r, o = Returned r /\ fileName r = Some (lastPortion filePath))
  /\ commands t = [pdftoppm filePath].
Proof.
  intros R.
  destruct (Run_always R _ (processPDFFile_runs upperUnicode filePath))
    as (r & -> & Ho & Hc & _).
  split; [|exact Hc].
  exists r. split; [reflexivity|]. destruct Ho; reflexivity.
Qed.

(** X9.  A result of [processPDFFile] with [success] comes with both
    identifiers, and they are what the two extractors gave for the text the
    OCR returned for this file: an order number that passed the validation
    and a tracking number of 20 to 22 digits. *)
Theorem success_carries_identifiers (filePath : jsstring) (t : list event)
    (r : result) :
  Run (processPDFFile upperUnicode filePath) t (Returned r) ->
  success r = true ->
  exists imagePath text found tracking,
    recognized t = [(imagePath, text)]
    /\ fst (extractOrderNumber upperUnicode text) = Some found
    /\ fst (extractTrackingNumber filePath text) = Some tracking
    /\ orderNumber r = Some found
    /\ trackingNumber r = Some tracking
    /\ isValidFormat found = true
    /\ forallb isDigit tracking = true
    /\ 20 <= length tracking <= 22
    /\ message r = js "Order processed successfully".
Proof.
  intros R Hs.
  destruct (Run_always R _ (processPDFFile_runs upperUnicode filePath))
    as (r' & [= <-] & Ho & _).
  destruct Ho as [e| | |imagePath text found tracking s m Hg Eo Et _ _ Hm _];
    try discriminate Hs.
  cbn [success baseResult] in Hs.
  exists imagePath, text, found, tracking.
  destruct (tracking_digits _ _ Et) as [Hd Hl].
  repeat split; auto; try apply Hl.
  exact (order_number_valid _ _ Eo).
Qed.

(** X11.  When no call fails and the text of the OCR holds no order number,
    the result is the failure [Order number not found in PDF], without
    identifiers, and no request is sent. *)
Theorem missing_order_number_reported (filePath imagePath text : jsstring)
    (t : list event) (r : result) :
  Run (processPDFFile upperUnicode filePath) t (Returned r) ->
  failures t = [] ->
  recognized t = [(imagePath, text)] ->
  fst (extractOrderNumber upperUnicode text) = None ->
  r = mkResult (Some (lastPortion filePath)) false
        (js "Order number not found in PDF") None None
  /\ requests t = [].
Proof.
  intros R Hfail Hg Eo.
  destruct (Run_always R _ (processPDFFile_runs upperUnicode filePath))
    as (r' & [= <-] & Ho & _).
  destruct Ho as [e He _ _|imagePath' text' _ _ _ Hf _
                 |imagePath' text' found Hg' _ Eo' _ _ _
                 |imagePath' text' found tracking s m Hg' Eo' _ _ _ _ _].
  - rewrite Hfail in He. discriminate He.
  - split; [reflexivity|]. unfold requests. now rewrite Hf.
  - rewrite Hg in Hg'. injection Hg' as _ <-. congruence.
  - rewrite Hg in Hg'. injection Hg' as _ <-. congruence.
Qed.

(** X12.  When no call fails and the text of the OCR holds an order number
    but neither the text nor the file name gives a tracking number, the
    result is the failure [Tracking number not found]; it does not carry the
    order number that was found, and no request is sent. *)
Theorem missing_tracking_number_reported (filePath imagePath text found : jsstring)
    (t : list event) (r : result) :
  Run (processPDFFile upperUnicode filePath) t (Returned r) ->
  failures t = [] ->
  recognized t = [(imagePath, text)] ->
  fst (extractOrderNumber upperUnicode text) = Some found ->
  fst (extractTrackingNumber filePath text) = None ->
  r = mkResult (Some (lastPortion filePath)) false
        (js "Tracking number not found") None None
  /\ requests t = [].
Proof.
  intros R Hfail Hg Eo Et.
  destruct (Run_always R _ (processPDFFile_runs upperUnicode filePath))
    as (r' & [= <-] & Ho & _).
  destruct Ho as [e He _ _|imagePath' text' Hg' _ Eo' _ _
                 |imagePath' text' found' _ _ _ _ Hf _
                 |imagePath' text' found' tracking s m Hg' _ Et' _ _ _ _].
  - rewrite Hfail in He. discriminate He.
  - rewrite Hg in Hg'. injection Hg' as _ <-. congruence.
  - split; [reflexivity|]. unfold requests. now rewrite Hf.
  - rewrite Hg in Hg'. injection Hg' as _ <-. congruence.
Qed.

(** X13.  When a call fails before any request is sent (pdftoppm, the
    renaming, the OCR or the deletion of the image), the result is a failure
    whose message is the message of that error, without identifiers. *)
Theorem upstream_failure_reported (filePath : jsstring) (e : Error)
    (t : list event) (r : result) :
  Run (processPDFFile upperUnicode filePath) t (Returned r) ->
  failures t = [e] ->
  requests t = [] ->
  r = mkResult (Some (lastPortion filePath)) false (errorMessage e) None None.
Proof.
  intros R Hfail Hreq.
  destruct (Run_always R _ (processPDFFile_runs upperUnicode filePath))
    as (r' & [= <-] & Ho & _).
  destruct Ho as [e' He _ _|imagePath' text' _ He _ _ _
                 |imagePath' text' found' _ He _ _ _ _
                 |imagePath' text' found' tracking s m _ _ _ Hr _ _ _].
  - rewrite Hfail in He. injection He as <-. reflexivity.
  - rewrite Hfail in He. discriminate He.
  - rewrite Hfail in He. discriminate He.
  - destruct Hr as [Hr|(data & x & _ & _ & [Hr|Hr])];
      rewrite Hreq in Hr; discriminate Hr.
Qed.

End FileProperties.

(** ** The identifiers *)

Lemma orderNumberChar_spec (c : char) :
  orderNumberChar c = true
  <-> ((48 <= c <= 57) \/ (65 <= c <= 90) \/ (97 <= c <= 122) \/ c = 45)%N.
Proof.
  unfold orderNumberChar, isDigit, inRange, hyphen.
  rewrite !orb_true_iff, !andb_true_iff, !N.leb_le, N.eqb_eq. tauto.
Qed.

Lemma asciiUpper_cases (c : char) :
  ((97 <= c <= 122)%N /\ asciiUpper c = (c - 32)%N)
  \/ (~ (97 <= c <= 122)%N /\ asciiUpper c = c).
Proof.
  unfold asciiUpper, inRange.
  destruct (N.leb_spec 97 c), (N.leb_spec c 122); cbn [andb];
    [left|right|right|right]; split; auto; lia.
Qed.

Lemma charEq_orderNumberChar (ic : bool) (a c : char) :
  charEq ic a c = true -> orderNumberChar a = true -> orderNumberChar c = true.
Proof.
  unfold charEq. intros E. apply N.eqb_eq in E. rewrite !orderNumberChar_spec.
  destruct ic; unfold canonicalize in E; [|now subst].
  destruct (asciiUpper_cases a) as [[Ha Ea]|[Ha Ea]],
           (asciiUpper_cases c) as [[Hc Ec]|[Hc Ec]];
    rewrite Ea, Ec in E; lia.
Qed.

Lemma Matches_confined (ic : bool) (r : regex) (p : option char) (w s : jsstring) :
  Matches ic r p w s -> confined orderNumberChar r = true ->
  forallb orderNumberChar w = true.
Proof.
  induction 1; cbn [confined forallb]; intros Hc; try reflexivity.
  - rewrite andb_true_r. exact (charEq_orderNumberChar _ _ _ H Hc).
  - rewrite andb_true_r. unfold orderNumberChar. now rewrite H.
  - discriminate Hc.
  - rewrite andb_true_r. apply existsb_exists in H as (c & Hin & Hc').
    rewrite forallb_forall in Hc.
    exact (charEq_orderNumberChar _ _ _ Hc' (Hc _ Hin)).
  - apply andb_true_iff in Hc as [H1 H2]. rewrite forallb_app.
    now rewrite IHMatches1, IHMatches2.
  - apply andb_true_iff in Hc as [H1 H2]. auto.
  - apply andb_true_iff in Hc as [H1 H2]. auto.
  - rewrite forallb_app. now rewrite IHMatches1, IHMatches2.
  - auto.
Qed.

Lemma validator_confined (re : regexp) (r : regex) (text : jsstring) :
  tree re = Seq Bol r -> EndsWithSuffix r ->
  confined orderNumberChar r = true -> test re text = true ->
  forallb orderNumberChar text = true.
Proof.
  intros Et Hr Hc Ht. apply test_iff in Ht as (a & w & s & -> & M).
  rewrite Et in M. apply Matches_Seq_inv in M as (w1 & w2 & -> & M1 & M2).
  inversion M1; subst.
  match goal with H : None = lastOr None a |- _ =>
    symmetry in H; apply lastOr_None in H; subst a end.
  pose proof (Matches_confined M2 Hc) as Hw.
  apply (EndsWithSuffix_Matches Hr) in M2 as (-> & _).
  cbn [app]. now rewrite app_nil_r.
Qed.

(** X14.  An order number that passes the validation is made of digits,
    ASCII letters and hyphens only, and ends with a hyphen and a digit; so
    the address of the lookup, which is built by appending the order number,
    needs no escaping. *)
Theorem valid_order_number_alphabet (found : jsstring) :
  isValidFormat found = true ->
  forallb orderNumberChar found = true
  /\ exists root d, found = root ++ [hyphen; d] /\ isDigit d = true.
Proof.
  intros H. split; [|exact (isValidFormat_suffix _ H)].
  revert H. unfold isValidFormat, shortPrefixes, longPrefixes. cbn [existsb].
  rewrite !orb_false_r. intros H.
  repeat (apply orb_true_iff in H as [H|H]);
    (refine (@validator_confined _ _ _ _ _ _ H);
     [reflexivity|ends_with_suffix|reflexivity]).
Qed.

(** X15.  Whatever [extractTrackingNumber] returns is made of digits only:
    either 22 digits that start with 9205, read from the text, or the file
    name without directories and [.pdf], of 20 to 22 digits. *)
Theorem tracking_number_is_digits (fileName pdfText tracking : jsstring) :
  fst (extractTrackingNumber fileName pdfText) = Some tracking ->
  forallb isDigit tracking = true
  /\ ((length tracking = 22 /\ startsWith tracking (js "9205") = true)
      \/ (tracking = basename fileName (js ".pdf")
          /\ exec uspsTracking pdfText = None
          /\ 20 <= length tracking <= 22)).
Proof.
  intros H. split; [exact (proj1 (tracking_digits _ _ H))|].
  revert H. rewrite extractTrackingNumber_fst.
  destruct (exec uspsTracking pdfText) as [mt|] eqn:H.
  - intros [= <-]. left. rewrite replaceAll_spaceRuns.
    destruct (@exec_bounded_group uspsTracking _ pdfText mt eq_refl H)
      as (a & w & s & -> & M & ->).
    vm_compute in M. split_seqs. read_chrs. read_classes.
    cbn [app orElse].
    repeat match goal with
    | |- context [filter notSpace (?x :: ?l)] =>
        change (filter notSpace (x :: l)) with (x :: filter notSpace l)
    end.
    rewrite !filter_app.
    repeat match goal with
    | H : forallb isSpace ?l = true |- _ =>
        rewrite (filter_notSpace_spaces l H); clear H
    | H : forallb isDigit ?l = true |- _ =>
        rewrite (filter_notSpace_digits l H)
    end.
    cbn [app length]. rewrite !length_app. split; [lia|reflexivity].
  - destruct (test fileNameDigits (basename fileName (js ".pdf"))) eqn:E;
      [|discriminate].
    intros [= <-]. right. rewrite test_fileNameDigits in E.
    apply andb_true_iff in E as [E H22]. apply andb_true_iff in E as [E H20].
    apply Nat.leb_le in H20, H22. auto.
Qed.

(** ** The summary *)

(** X16.  In the summary the number of successes and the number of failures
    add up to the number of files processed. *)
Theorem summary_counts_add_up (processedFiles : list result) :
  successCount processedFiles + failureCount processedFiles
  = length processedFiles.
Proof.
  unfold successCount, failureCount.
  induction processedFiles as [|f l IH]; [reflexivity|].
  cbn [filter length]. destruct (success f); cbn [negb length]; lia.
Qed.

(** ** A directory *)

Lemma startsWith_iff (s p : jsstring) :
  startsWith s p = true <-> exists r, s = p ++ r.
Proof.
  revert s. induction p as [|x p IH]; intros s; cbn [startsWith].
  - split; [intros _; now exists s|reflexivity].
  - destruct s as [|c s].
    + split; [discriminate|intros (r & E); discriminate E].
    + rewrite andb_true_iff, N.eqb_eq, IH. split.
      * intros (-> & r & ->). now exists r.
      * intros (r & [= -> ->]). eauto.
Qed.

Lemma endsWith_iff (s p : jsstring) :
  endsWith s p = true <-> exists a, s = a ++ p.
Proof.
  unfold endsWith. rewrite startsWith_iff. split.
  - intros (r & E). exists (rev r).
    rewrite <- (rev_involutive s), E, rev_app_distr, rev_involutive. reflexivity.
  - intros (a & ->). exists (rev a). apply rev_app_distr.
Qed.

Section DirectoryProperties.

Variable upperUnicode : jsstring -> jsstring.
Variable lowerUnicode : jsstring -> jsstring.
Variable pathJoin : jsstring -> jsstring -> jsstring.



(** X19.  [processDirectory] never throws.  When the directory cannot be
    listed it writes one line to the log, the message of the error at level
    [ERROR], converts no file and writes no summary. *)
Theorem processDirectory_never_throws (directoryPath : jsstring)
    (t : list event) (o : outcome unit) :
  Run (processDirectory upperUnicode lowerUnicode pathJoin directoryPath) t o ->
  o = Returned tt
  /\ forall e, listings t = [inl e] ->
       written t
       = [(js "ERROR", js "Error processing directory: " ++ errorMessage e)]
       /\ commands t = [].
Proof.
  intros R.
  destruct (Run_always R _ (processDirectory_runs upperUnicode lowerUnicode
                              pathJoin directoryPath)) as [Ho H].
  split; [exact Ho|]. intros e Hl. rewrite Hl in H. exact H.
Qed.

(** X20.  The entry point never ends the process with [process.exit(1)] and
    lets no error escape: the directory defaults to [.] when no argument or
    an empty argument is given, so the test for a missing directory is never
    true. *)
Theorem main_never_exits (runDirectly : bool) (argv2 : option jsstring)
    (t : list event) (o : outcome unit) :
  Run (main upperUnicode lowerUnicode pathJoin runDirectly argv2) t o ->
  o = Returned tt.
Proof.
  intros R.
  exact (Run_always R _ (main_runs upperUnicode lowerUnicode pathJoin
                           runDirectly argv2)).
Qed.

End DirectoryProperties.

(** * Sample runs *)

Lemma Run_andThen (A B : Type) (p : io A) (f : A -> io B) (t t' : list event)
    (a : A) (o : outcome B) :
  Run p t (Returned a) -> Run (f a) t' o -> Run (andThen p f) (t ++ t') o.
Proof.
  intros R. remember (Returned a) as oa eqn:E. revert E.
  induction R as [a'|e|code|X c k answer t o' Hp R IH|level message k t o' R IH];
    intros E R'; try discriminate E.
  - injection E as ->. exact R'.
  - cbn [andThen app]. apply RunCall; auto.
  - cbn [andThen app]. apply RunLog; auto.
Qed.

Lemma Run_tryCatch_returned (A : Type) (p : io A) (handler : Error -> io A)
    (t : list event) (a : A) :
  Run p t (Returned a) -> Run (tryCatch p handler) t (Returned a).
Proof.
  intros R. remember (Returned a) as oa eqn:E. revert E.
  induction R as [a'|e|code|X c k answer t o' Hp R IH|level message k t o' R IH];
    intros E; try discriminate E.
  - injection E as ->. apply RunReturn.
  - cbn [tryCatch]. apply RunCall; auto.
  - cbn [tryCatch]. apply RunLog; auto.
Qed.

Lemma Run_logged (A : Type) (x : Logged A) :
  Run (logged x) (map wrote (snd x)) (Returned (fst x)).
Proof.
  unfold logged. induction (snd x) as [|e l IH]; [apply RunReturn|].
  cbn [map replay]. apply RunLog. exact IH.
Qed.

Ltac run_sample :=
  repeat first
    [ apply RunReturn | apply RunThrow | apply RunLog
    | apply RunCall; [first [exact I | reflexivity]|] ].

Lemma shipped_runs (orderNumber trackingNumber : jsstring) :
  Run (processOrder orderNumber trackingNumber)
      (shippedTrace orderNumber trackingNumber) (Returned shippedResult).
Proof. unfold shippedTrace. run_sample. Qed.

Lemma converted_runs :
  Run (convertPDFToImage (js "/in/label.pdf")) convertedTrace
      (Returned (js "/in/label.png")).
Proof. unfold convertedTrace. run_sample. Qed.

Lemma recognized_runs (text : jsstring) :
  Run (extractTextFromPDF (js "/in/label.pdf")) (recognizedTrace text)
      (Returned text).
Proof. unfold recognizedTrace, convertedTrace. cbn [app]. run_sample. Qed.

Lemma upperCase_runs (text : jsstring) :
  Run (extractTextFromPDF (js "/in/LABEL.PDF")) (upperCaseTrace text)
      (Returned text).
Proof. unfold upperCaseTrace. run_sample. Qed.

Lemma failed_runs (upperUnicode : jsstring -> jsstring) (filePath : jsstring)
    (e : Error) :
  Run (processPDFFile upperUnicode filePath) (failedTrace filePath e)
      (Returned (baseResult filePath false (errorMessage e) None None)).
Proof. unfold failedTrace. run_sample. Qed.

Lemma sample_order :
  fst (extractOrderNumber upperKeep sampleText) = Some sampleOrderNumber.
Proof. vm_compute. reflexivity. Qed.

Lemma sample_tracking :
  fst (extractTrackingNumber (js "/in/label.pdf") sampleText) = Some sampleTracking.
Proof. vm_compute. reflexivity. Qed.

(** The start of a run of [processPDFFile] on [/in/label.pdf]. *)
Lemma read_runs (text : jsstring) (last : list event) (r : result) :
  Run (match fst (extractOrderNumber upperKeep text) with
       | None | Some [] =>
           Logger.error (js "No order number found in PDF: " ++ js "/in/label.pdf") ;;;
           Return (mkResult (Some (lastPortion (js "/in/label.pdf"))) false
                     (js "Order number not found in PDF") None None)
       | Some orderNumber =>
           found <-- logged (extractTrackingNumber (js "/in/label.pdf") text) ;;
           match found with
           | None | Some [] =>
               Logger.error (js "No tracking number found in filename: "
                             ++ js "/in/label.pdf") ;;;
               Return (mkResult (Some (lastPortion (js "/in/label.pdf"))) false
                         (js "Tracking number not found") None None)
           | Some trackingNumber =>
               result <-- processOrder orderNumber trackingNumber ;;
               (if success result then
                  Logger.success (js "Successfully processed order " ++ orderNumber
                                  ++ js " with tracking " ++ trackingNumber)
                else
                  Logger.error (js "Failed to process order " ++ orderNumber
                                ++ js ": " ++ message result)) ;;;
               Return (mkResult (Some (lastPortion (js "/in/label.pdf")))
                         (success result) (message result)
                         (Some orderNumber) (Some trackingNumber))
           end
       end) last (Returned r) ->
  Run (processPDFFile upperKeep (js "/in/label.pdf")) (readTrace text last)
      (Returned r).
Proof.
  intros R. unfold processPDFFile, readTrace. apply Run_tryCatch_returned.
  cbn [andThen Logger.info Logger.log app]. apply RunLog.
  apply Run_andThen with (a := text); [apply recognized_runs|].
  apply Run_andThen with (a := fst (extractOrderNumber upperKeep text));
    [apply Run_logged|].
  exact R.
Qed.

Lemma processed_runs :
  Run (processPDFFile upperKeep (js "/in/label.pdf")) processedTrace
      (Returned processedResult).
Proof.
  unfold processedTrace. apply read_runs. rewrite sample_order.
  change sampleOrderNumber with (82%N :: js "3817-1"). cbv iota.
  apply Run_andThen
    with (a := fst (extractTrackingNumber (js "/in/label.pdf") sampleText));
    [apply Run_logged|].
  rewrite sample_tracking.
  change sampleTracking with (57%N :: js "205123456789012345678"). cbv iota.
  apply Run_andThen with (a := shippedResult); [apply shipped_runs|].
  run_sample.
Qed.

Lemma noOrder_runs :
  Run (processPDFFile upperKeep (js "/in/label.pdf")) noOrderTrace
      (Returned (mkResult (Some (js "label.pdf")) false
                   (js "Order number not found in PDF") None None)).
Proof.
  unfold noOrderTrace. apply read_runs.
  replace (fst (extractOrderNumber upperKeep (js "hello"))) with (@None jsstring)
    by (vm_compute; reflexivity).
  run_sample.
Qed.

Lemma noTracking_runs :
  Run (processPDFFile upperKeep (js "/in/label.pdf")) noTrackingTrace
      (Returned (mkResult (Some (js "label.pdf")) false
                   (js "Tracking number not found") None None)).
Proof.
  unfold noTrackingTrace. apply read_runs.
  replace (fst (extractOrderNumber upperKeep (js "Order #R3817-1")))
    with (Some (82%N :: js "3817-1")) by (vm_compute; reflexivity).
  cbv iota.
  apply Run_andThen
    with (a := fst (extractTrackingNumber (js "/in/label.pdf") (js "Order #R3817-1")));
    [apply Run_logged|].
  replace (fst (extractTrackingNumber (js "/in/label.pdf") (js "Order #R3817-1")))
    with (@None jsstring) by (vm_compute; reflexivity).
  run_sample.
Qed.



Lemma unreadable_runs (upperUnicode lowerUnicode : jsstring -> jsstring)
    (pathJoin : jsstring -> jsstring -> jsstring) (directoryPath : jsstring) :
  Run (processDirectory upperUnicode lowerUnicode pathJoin directoryPath)
      (unreadableTrace directoryPath) (Returned tt).
Proof. unfold unreadableTrace. run_sample. Qed.

Lemma started_runs :
  Run (main upperKeep upperKeep sampleJoin true None)
      (Wrote (js "INFO") (js "Starting PDF processing in directory: .")
       :: unreadableTrace (js "."))
      (Returned tt).
Proof. unfold unreadableTrace. run_sample. Qed.

(** * The properties on the sample runs *)

Lemma processOrder_success_iff_witness :
  Run (processOrder sampleOrderNumber sampleTracking)
      (shippedTrace sampleOrderNumber sampleTracking) (Returned shippedResult)
  /\ (success shippedResult = true
      <-> exists r1 r2 r3,
            map snd (fetches (shippedTrace sampleOrderNumber sampleTracking))
            = [inr r1; inr r2; inr r3]
            /\ ok r1 = true /\ ok r2 = true /\ ok r3 = true).
Proof.
  split; [apply shipped_runs|].
  exact (@processOrder_success_iff _ _ _ _
           (shipped_runs sampleOrderNumber sampleTracking)).
Defined.

Lemma convert_ordinary_path_witness :
  includes (js "/in/label" ++ js ".pd") (js ".pdf") = false
  /\ Run (convertPDFToImage (js "/in/label" ++ js ".pdf")) convertedTrace
         (Returned (js "/in/label.png"))
  /\ commands convertedTrace
     = [js "pdftoppm -png -r 300 " ++ [dquote] ++ (js "/in/label" ++ js ".pdf")
        ++ [dquote] ++ js " " ++ [dquote] ++ js "/in/label" ++ [dquote]]
  /\ (renamed convertedTrace = []
      \/ renamed convertedTrace
         = [(js "/in/label" ++ js "-1.png", js "/in/label" ++ js ".png")])
  /\ forall imagePath,
       Returned (js "/in/label.png") = Returned imagePath ->
       imagePath = js "/in/label" ++ js ".png".
Proof.
  split; [reflexivity|]. split; [exact converted_runs|].
  exact (@convert_ordinary_path (js "/in/label") _ _ eq_refl converted_runs).
Defined.

Lemma pdf_without_lower_case_extension_witness :
  includes (js "/in/LABEL.PDF") (js ".pdf") = false
  /\ Run (extractTextFromPDF (js "/in/LABEL.PDF")) (upperCaseTrace sampleText)
         (Returned sampleText)
  /\ (scanned (upperCaseTrace sampleText) = []
      \/ scanned (upperCaseTrace sampleText) = [js "/in/LABEL.PDF"])
  /\ (unlinked (upperCaseTrace sampleText) = []
      \/ unlinked (upperCaseTrace sampleText) = [js "/in/LABEL.PDF"])
  /\ forall text,
       Returned sampleText = Returned text ->
       unlinked (upperCaseTrace sampleText) = [js "/in/LABEL.PDF"].
Proof.
  split; [reflexivity|]. split; [apply upperCase_runs|].
  exact (@pdf_without_lower_case_extension (js "/in/LABEL.PDF") _ _ eq_refl
           (upperCase_runs sampleText)).
Defined.


Lemma processPDFFile_never_throws_witness :
  Run (processPDFFile upperKeep (js "/in/label.pdf")) processedTrace
      (Returned processedResult)
  /\ (exists r,
        Returned processedResult = Returned r
        /\ fileName r = Some (lastPortion (js "/in/label.pdf")))
  /\ commands processedTrace = [pdftoppm (js "/in/label.pdf")].
Proof.
  split; [exact processed_runs|].
  exact (@processPDFFile_never_throws _ _ _ _ processed_runs).
Defined.

Lemma success_carries_identifiers_witness :
  Run (processPDFFile upperKeep (js "/in/label.pdf")) processedTrace
      (Returned processedResult)
  /\ success processedResult = true
  /\ exists imagePath text found tracking,
       recognized processedTrace = [(imagePath, text)]
       /\ fst (extractOrderNumber upperKeep text) = Some found
       /\ fst (extractTrackingNumber (js "/in/label.pdf") text) = Some tracking
       /\ orderNumber processedResult = Some found
       /\ trackingNumber processedResult = Some tracking
       /\ isValidFormat found = true
       /\ forallb isDigit tracking = true
       /\ 20 <= length tracking <= 22
       /\ message processedResult = js "Order processed successfully".
Proof.
  split; [exact processed_runs|]. split; [reflexivity|].
  exact (@success_carries_identifiers _ _ _ _ processed_runs eq_refl).
Defined.

Lemma missing_order_number_reported_witness :
  Run (processPDFFile upperKeep (js "/in/label.pdf")) noOrderTrace
      (Returned (mkResult (Some (js "label.pdf")) false
                   (js "Order number not found in PDF") None None))
  /\ failures noOrderTrace = []
  /\ recognized noOrderTrace = [(js "/in/label.png", js "hello")]
  /\ fst (extractOrderNumber upperKeep (js "hello")) = None
  /\ mkResult (Some (js "label.pdf")) false (js "Order number not found in PDF")
       None None
     = mkResult (Some (lastPortion (js "/in/label.pdf"))) false
         (js "Order number not found in PDF") None None
  /\ requests noOrderTrace = [].
Proof.
  split; [exact noOrder_runs|].
  split; [vm_compute; reflexivity|]. split; [vm_compute; reflexivity|].
  split; [vm_compute; reflexivity|].
  apply (@missing_order_number_reported upperKeep (js "/in/label.pdf")
           (js "/in/label.png") (js "hello") _ _ noOrder_runs);
    vm_compute; reflexivity.
Defined.

Lemma missing_tracking_number_reported_witness :
  Run (processPDFFile upperKeep (js "/in/label.pdf")) noTrackingTrace
      (Returned (mkResult (Some (js "label.pdf")) false
                   (js "Tracking number not found") None None))
  /\ failures noTrackingTrace = []
  /\ recognized noTrackingTrace = [(js "/in/label.png", js "Order #R3817-1")]
  /\ fst (extractOrderNumber upperKeep (js "Order #R3817-1")) = Some (js "R3817-1")
  /\ fst (extractTrackingNumber (js "/in/label.pdf") (js "Order #R3817-1")) = None
  /\ mkResult (Some (js "label.pdf")) false (js "Tracking number not found")
       None None
     = mkResult (Some (lastPortion (js "/in/label.pdf"))) false
         (js "Tracking number not found") None None
  /\ requests noTrackingTrace = [].
Proof.
  split; [exact noTracking_runs|].
  split; [vm_compute; reflexivity|]. split; [vm_compute; reflexivity|].
  split; [vm_compute; reflexivity|]. split; [vm_compute; reflexivity|].
  apply (@missing_tracking_number_reported upperKeep (js "/in/label.pdf")
           (js "/in/label.png") (js "Order #R3817-1") (js "R3817-1") _ _
           noTracking_runs);
    vm_compute; reflexivity.
Defined.

Lemma upstream_failure_reported_witness :
  Run (processPDFFile upperKeep (js "/in/label.pdf"))
      (failedTrace (js "/in/label.pdf") notInstalled)
      (Returned (baseResult (js "/in/label.pdf") false
                   (errorMessage notInstalled) None None))
  /\ failures (failedTrace (js "/in/label.pdf") notInstalled) = [notInstalled]
  /\ requests (failedTrace (js "/in/label.pdf") notInstalled) = []
  /\ baseResult (js "/in/label.pdf") false (errorMessage notInstalled) None None
     = mkResult (Some (lastPortion (js "/in/label.pdf"))) false
         (errorMessage notInstalled) None None.
Proof.
  split; [apply failed_runs|]. split; [reflexivity|]. split; [reflexivity|].
  exact (@upstream_failure_reported upperKeep _ _ _ _
           (failed_runs upperKeep (js "/in/label.pdf") notInstalled)
           eq_refl eq_refl).
Defined.

Lemma valid_order_number_alphabet_witness :
  isValidFormat (js "R3817-1") = true
  /\ forallb orderNumberChar (js "R3817-1") = true
  /\ exists root d, js "R3817-1" = root ++ [hyphen; d] /\ isDigit d = true.
Proof.
  split; [vm_compute; reflexivity|].
  apply (@valid_order_number_alphabet (js "R3817-1")). vm_compute; reflexivity.
Defined.

Lemma tracking_number_is_digits_witness :
  fst (extractTrackingNumber (js "/in/label.pdf") sampleText) = Some sampleTracking
  /\ forallb isDigit sampleTracking = true
  /\ ((length sampleTracking = 22 /\ startsWith sampleTracking (js "9205") = true)
      \/ (sampleTracking = basename (js "/in/label.pdf") (js ".pdf")
          /\ exec uspsTracking sampleText = None
          /\ 20 <= length sampleTracking <= 22)).
Proof.
  split; [exact sample_tracking|].
  exact (@tracking_number_is_digits _ _ _ sample_tracking).
Defined.



Lemma processDirectory_never_throws_witness :
  Run (processDirectory upperKeep upperKeep sampleJoin (js "/in"))
      (unreadableTrace (js "/in")) (Returned tt)
  /\ Returned tt = Returned tt
  /\ forall e, listings (unreadableTrace (js "/in")) = [inl e] ->
       written (unreadableTrace (js "/in"))
       = [(js "ERROR", js "Error processing directory: " ++ errorMessage e)]
       /\ commands (unreadableTrace (js "/in")) = [].
Proof.
  split; [apply unreadable_runs|].
  exact (@processDirectory_never_throws upperKeep upperKeep sampleJoin _ _ _
           (unreadable_runs upperKeep upperKeep sampleJoin (js "/in"))).
Defined.

Lemma main_never_exits_witness :
  Run (main upperKeep upperKeep sampleJoin true None)
      (Wrote (js "INFO") (js "Starting PDF processing in directory: .")
       :: unreadableTrace (js "."))
      (Returned tt)
  /\ Returned tt = Returned tt.
Proof.
  split; [exact started_runs|].
  exact (@main_never_exits upperKeep upperKeep sampleJoin _ _ _ _ started_runs).
Defined.

(** * The tracking number in the text *)

(** ** Where a search starts to match *)

(** A search goes over the part of the text where the expression has no
    match. *)
Lemma searchFrom_skip (re : regexp) (y : jsstring) :
  forall x p i,
    (forall a c b, x = a ++ c :: b ->
       matcher (ignoreCase re) (tree re)
         (mkState (lastOr p a) (i + length a) (c :: b ++ y) None) = []) ->
    searchFrom re p i (x ++ y) = searchFrom re (lastOr p x) (i + length x) y.
Proof.
  induction x as [|c x IH]; intros p i H.
  - cbn [app lastOr length]. now rewrite Nat.add_0_r.
  - cbn [app searchFrom]. pose proof (H [] c x eq_refl) as H0.
    cbn [lastOr length app] in H0. rewrite Nat.add_0_r in H0. rewrite H0.
    rewrite IH.
    + cbn [lastOr length]. now rewrite Nat.add_succ_r.
    + intros a c' b E. specialize (H (c :: a) c' b).
      cbn [lastOr length app] in H. rewrite Nat.add_succ_r in H. apply H.
      now rewrite E.
Qed.

Lemma searchFrom_hit (re : regexp) (p : option char) (i : nat) (s : jsstring)
    (st' : state) :
  headIs (matcher (ignoreCase re) (tree re) (mkState p i s None)) st' ->
  searchFrom re p i s = Some (i, st').
Proof. intros (l & E). destruct s; cbn [searchFrom]; rewrite E; reflexivity. Qed.

Lemma takeWhile_app_stop (f : char -> bool) (a b : jsstring) :
  forallb f a = true -> match b with c :: _ => f c = false | [] => True end ->
  takeWhile f (a ++ b) = a /\ dropWhile f (a ++ b) = b.
Proof.
  intros Ha Hb. induction a as [|c a IH].
  - destruct b as [|c b]; [split; reflexivity|]. cbn [app takeWhile dropWhile].
    rewrite Hb. split; reflexivity.
  - cbn [forallb] in Ha. apply andb_true_iff in Ha as [Hc Ha].
    cbn [app takeWhile dropWhile]. rewrite Hc. destruct (IH Ha) as [-> ->].
    split; reflexivity.
Qed.

(** [\s*] first reads all the white space there is. *)
Lemma matcher_star_Space_head (ic : bool) (sp r : jsstring) (p : option char)
    (i : nat) (c : option (nat * nat)) :
  forallb isSpace sp = true ->
  match r with x :: _ => isSpace x = false | [] => True end ->
  headIs (matcher ic (star Space) (mkState p i (sp ++ r) c))
         (mkState (lastOr p sp) (i + length sp) r c).
Proof.
  intros Hs Hr. destruct (matcher_star_Space ic (sp ++ r) p i c) as (l & E).
  destruct (takeWhile_app_stop isSpace sp r Hs Hr) as [E1 E2].
  rewrite E1, E2 in E. now exists l.
Qed.

Lemma matcher_Chr (ic : bool) (a ch : char) (s : jsstring) (p : option char)
    (i : nat) (c : option (nat * nat)) :
  matcher ic (Chr a) (mkState p i (ch :: s) c)
  = if charEq ic a ch then [mkState (Some ch) (S i) s c] else [].
Proof. reflexivity. Qed.

Lemma headIs_one (A : Type) (x : A) : headIs [x] x.
Proof. now exists []. Qed.

(** A literal character, then the rest of the expression. *)
Lemma head_Chr (ic : bool) (a ch : char) (R : regex) (s : jsstring)
    (p : option char) (i : nat) (c : option (nat * nat)) (st' : state) :
  charEq ic a ch = true ->
  headIs (matcher ic R (mkState (Some ch) (S i) s c)) st' ->
  headIs (matcher ic (Seq (Chr a) R) (mkState p i (ch :: s) c)) st'.
Proof.
  intros Ha H. rewrite matcher_Seq, matcher_Chr, Ha.
  eapply headIs_flat_map; [apply headIs_one|exact H].
Qed.

Lemma first_digit_notSpace (g r : jsstring) :
  forallb isDigit g = true -> g <> [] ->
  match g ++ r with x :: _ => isSpace x = false | [] => True end.
Proof.
  destruct g as [|d g]; [congruence|]. cbn [forallb app]. intros H _.
  apply andb_true_iff in H as [H _]. now apply digit_isSpace.
Qed.

(** Optional white space and a group of digits, then the rest of the
    expression. *)
Lemma head_spaces_digits (ic : bool) (R : regex) (sp g r : jsstring)
    (p : option char) (i : nat) (c : option (nat * nat)) (st' : state) :
  forallb isSpace sp = true -> forallb isDigit g = true -> g <> [] ->
  headIs (matcher ic R (mkState (lastOr (lastOr p sp) g)
                          (i + length sp + length g) r c)) st' ->
  headIs (matcher ic (Seq (star Space) (Seq (times (length g) Digit) R))
            (mkState p i (sp ++ g ++ r) c)) st'.
Proof.
  intros Hs Hg Hne H. rewrite matcher_Seq. eapply headIs_flat_map.
  - apply matcher_star_Space_head; [exact Hs|now apply first_digit_notSpace].
  - rewrite matcher_Seq, matcher_times_Digit by exact Hg.
    cbn [flat_map]. now apply headIs_app.
Qed.

Lemma head_spaces_digits_end (ic : bool) (sp g r : jsstring)
    (p : option char) (i : nat) (c : option (nat * nat)) :
  forallb isSpace sp = true -> forallb isDigit g = true -> g <> [] ->
  headIs (matcher ic (Seq (star Space) (times (length g) Digit))
            (mkState p i (sp ++ g ++ r) c))
         (mkState (lastOr (lastOr p sp) g) (i + length sp + length g) r c).
Proof.
  intros Hs Hg Hne. rewrite matcher_Seq. eapply headIs_flat_map.
  - apply matcher_star_Space_head; [exact Hs|now apply first_digit_notSpace].
  - rewrite matcher_times_Digit by exact Hg. apply headIs_one.
Qed.

Lemma lastOr_digits (p : option char) (g : jsstring) :
  forallb isDigit g = true -> g <> [] -> isWordOpt (lastOr p g) = true.
Proof.
  revert p. induction g as [|d g IH]; intros p H Hne; [congruence|].
  cbn [forallb] in H. apply andb_true_iff in H as [Hd H]. cbn [lastOr].
  destruct g as [|d' g']; [now apply digit_isWordChar|].
  apply IH; [exact H|discriminate].
Qed.

Section TrackingInText.

Variables s1 g1 s2 g2 s3 g3 s4 g4 s5 g5 : jsstring.

Hypothesis spaces : forallb (forallb isSpace) [s1; s2; s3; s4; s5] = true.
Hypothesis digits : forallb (forallb isDigit) [g1; g2; g3; g4; g5] = true.
Hypothesis lengths : map (@length char) [g1; g2; g3; g4; g5] = [4; 4; 4; 4; 2].

(** The expression reads the number as it stands in the text. *)
Lemma written_read (p : option char) (i : nat) (after shown : jsstring) :
  shown = js "9205" ++ s1 ++ g1 ++ s2 ++ g2 ++ s3 ++ g3 ++ s4 ++ g4 ++ s5 ++ g5 ->
  isWordOpt p = false -> isWordOpt (hd_error after) = false ->
  exists q,
    headIs (matcher false (tree uspsTracking) (mkState p i (shown ++ after) None))
           (mkState q (i + length shown) after (Some (i, i + length shown))).
Proof.
  intros -> Hp Ha. cbn [forallb] in spaces, digits. cbn [map] in lengths.
  injection lengths as L1 L2 L3 L4 L5.
  repeat match goal with
         | H : _ && _ = true |- _ => apply andb_true_iff in H; destruct H
         end.
  assert (N1 : g1 <> []) by (destruct g1; discriminate).
  assert (N2 : g2 <> []) by (destruct g2; discriminate).
  assert (N3 : g3 <> []) by (destruct g3; discriminate).
  assert (N4 : g4 <> []) by (destruct g4; discriminate).
  assert (N5 : g5 <> []) by (destruct g5; discriminate).
  eexists.
  unfold uspsTracking. cbn [tree].
  change (lit (js "9205")) with [Chr 57%N; Chr 50%N; Chr 48%N; Chr 53%N].
  cbn [app seq].
  rewrite <- L1 at 1. rewrite <- L2 at 1. rewrite <- L3 at 1. rewrite <- L4 at 1.
  rewrite <- L5 at 1.
  rewrite matcher_Seq. eapply headIs_flat_map.
  { rewrite matcher_WordB; [apply headIs_one|]. cbn [prev rest]. rewrite Hp.
    reflexivity. }
  rewrite matcher_Seq. eapply headIs_flat_map.
  - rewrite matcher_Group. apply headIs_map. cbn [pos].
    rewrite <- !app_assoc.
    change (js "9205" ++ ?x) with (57%N :: 50%N :: 48%N :: 53%N :: x).
    do 4 (apply head_Chr; [reflexivity|]).
    do 4 (apply head_spaces_digits; [assumption|assumption|assumption|]).
    apply head_spaces_digits_end; assumption.
  - rewrite matcher_WordB.
    + unfold setCap. cbn [prev pos rest cap].
      match goal with
      | |- headIs [?st] _ => replace st with
          (mkState (prev st)
             (i + length (js "9205" ++ s1 ++ g1 ++ s2 ++ g2 ++ s3 ++ g3 ++ s4
                          ++ g4 ++ s5 ++ g5)) after
             (Some (i, i + length (js "9205" ++ s1 ++ g1 ++ s2 ++ g2 ++ s3 ++ g3
                                   ++ s4 ++ g4 ++ s5 ++ g5))));
          [apply headIs_one|]
      end.
      cbn [prev]. f_equal; rewrite !length_app; cbn [length js map
        list_ascii_of_string]; try lia.
      f_equal. f_equal. lia.
    + unfold setCap. cbn [prev rest]. rewrite Ha.
      rewrite lastOr_digits by assumption. reflexivity.
Qed.

End TrackingInText.

(** What [uspsTracking] matches, read back: 9205 and five groups of digits
    with white space between them. *)
Lemma tracking_shape (fileName pdfText : jsstring) (mt : nat * state) :
  exec uspsTracking pdfText = Some mt ->
  exists g1 g2 g3 g4 g5,
    fst (extractTrackingNumber fileName pdfText)
    = Some (js "9205" ++ g1 ++ g2 ++ g3 ++ g4 ++ g5)
    /\ js "9205" ++ g1 ++ g2 ++ g3 ++ g4 ++ g5
       = filter notSpace (orElse (group1 pdfText mt) (group0 pdfText mt))
    /\ map (@length char) [g1; g2; g3; g4; g5] = [4; 4; 4; 4; 2]
    /\ forallb isDigit (js "9205" ++ g1 ++ g2 ++ g3 ++ g4 ++ g5) = true
    /\ length (js "9205" ++ g1 ++ g2 ++ g3 ++ g4 ++ g5) = 22.
Proof.
  intros H. rewrite extractTrackingNumber_fst, H, replaceAll_spaceRuns.
  destruct (@exec_bounded_group uspsTracking _ pdfText mt eq_refl H)
    as (a & w & s & -> & M & ->).
  vm_compute in M. split_seqs. read_chrs. read_classes.
  match goal with
  | H1 : forallb isDigit ?g1 = true, H2 : forallb isDigit ?g2 = true,
    H3 : forallb isDigit ?g3 = true, H4 : forallb isDigit ?g4 = true,
    H5 : forallb isDigit ?g5 = true
    |- context [?g1 ++ _ ++ ?g2 ++ _ ++ ?g3 ++ _ ++ ?g4 ++ _ ++ ?g5] =>
      exists g1, g2, g3, g4, g5
  end.
  cbn [app orElse].
  repeat match goal with
  | |- context [filter notSpace (?x :: ?l)] =>
      change (filter notSpace (x :: l)) with (x :: filter notSpace l)
  end.
  rewrite !filter_app.
  repeat match goal with
  | H : forallb isSpace ?l = true |- _ =>
      rewrite (filter_notSpace_spaces l H); clear H
  | H : forallb isDigit ?l = true |- _ =>
      rewrite (filter_notSpace_digits l H)
  end.
  cbn [app]. repeat split.
  - cbn [map]. congruence.
  - change (js "9205") with [57%N; 50%N; 48%N; 53%N]. cbn [app forallb].
    rewrite !forallb_app. repeat (apply andb_true_iff; split); auto.
  - change (js "9205") with [57%N; 50%N; 48%N; 53%N]. cbn [app length].
    rewrite !length_app. lia.
Qed.

(** The expression does not match where the text has no 9. *)
Lemma uspsTracking_miss (p : option char) (i : nat) (c : char) (s : jsstring) :
  (c =? 57)%N = false ->
  matcher false (tree uspsTracking) (mkState p i (c :: s) None) = [].
Proof.
  intros Hc. unfold uspsTracking. cbn [tree].
  change (lit (js "9205")) with [Chr 57%N; Chr 50%N; Chr 48%N; Chr 53%N].
  cbn [app seq]. rewrite matcher_Seq.
  match goal with
  | |- flat_map (matcher false ?r) _ = _ => remember r as R eqn:ER
  end.
  assert (H : matcher false R (mkState p i (c :: s) None) = []).
  { rewrite ER, matcher_Seq, matcher_Group, matcher_Seq, matcher_Chr.
    unfold charEq, canonicalize. rewrite N.eqb_sym, Hc. reflexivity. }
  clear ER. cbn [matcher]. destruct (xorb _ _); [|reflexivity].
  cbn [flat_map]. rewrite H. reflexivity.
Qed.

(** C3, as the code has it.  The tracking number in the text is 9205, four
    groups of four digits and a group of two digits, 22 digits in all, with
    optional white space between the groups.  Whatever the expression
    matches has that shape, and is returned without the white space,
    whatever the file name is.  And a text that holds such a number between
    two places where no word character stands has a match: a number of 22
    digits that begins with 9205 is returned, and it is that very number
    when the text before it has no 9. *)
Theorem tracking_from_text (fileName : jsstring) :
  (forall pdfText mt,
      exec uspsTracking pdfText = Some mt ->
      exists g1 g2 g3 g4 g5,
        fst (extractTrackingNumber fileName pdfText)
        = Some (js "9205" ++ g1 ++ g2 ++ g3 ++ g4 ++ g5)
        /\ js "9205" ++ g1 ++ g2 ++ g3 ++ g4 ++ g5
           = filter notSpace (orElse (group1 pdfText mt) (group0 pdfText mt))
        /\ map (@length char) [g1; g2; g3; g4; g5] = [4; 4; 4; 4; 2]
        /\ forallb isDigit (js "9205" ++ g1 ++ g2 ++ g3 ++ g4 ++ g5) = true
        /\ length (js "9205" ++ g1 ++ g2 ++ g3 ++ g4 ++ g5) = 22)
  /\ (forall before s1 g1 s2 g2 s3 g3 s4 g4 s5 g5 after,
         forallb (forallb isSpace) [s1; s2; s3; s4; s5] = true ->
         forallb (forallb isDigit) [g1; g2; g3; g4; g5] = true ->
         map (@length char) [g1; g2; g3; g4; g5] = [4; 4; 4; 4; 2] ->
         isWordOpt (lastOr None before) = false ->
         isWordOpt (hd_error after) = false ->
         (exists number,
             fst (extractTrackingNumber fileName
                    (before ++ (js "9205" ++ s1 ++ g1 ++ s2 ++ g2 ++ s3 ++ g3
                                ++ s4 ++ g4 ++ s5 ++ g5) ++ after))
             = Some number
             /\ length number = 22 /\ forallb isDigit number = true
             /\ startsWith number (js "9205") = true)
         /\ (forallb (fun c => negb (c =? 57)%N) before = true ->
             fst (extractTrackingNumber fileName
                    (before ++ (js "9205" ++ s1 ++ g1 ++ s2 ++ g2 ++ s3 ++ g3
                                ++ s4 ++ g4 ++ s5 ++ g5) ++ after))
             = Some (js "9205" ++ g1 ++ g2 ++ g3 ++ g4 ++ g5))).
Proof.
  split; [intros pdfText mt; apply tracking_shape|].
  intros before s1 g1 s2 g2 s3 g3 s4 g4 s5 g5 after Hs Hg Hl Hb Ha.
  destruct (@written_read s1 g1 s2 g2 s3 g3 s4 g4 s5 g5 Hs Hg Hl
              (lastOr None before) (length before) after _ eq_refl Hb Ha)
    as (q & Hm).
  set (shown := js "9205" ++ s1 ++ g1 ++ s2 ++ g2 ++ s3 ++ g3 ++ s4 ++ g4
                  ++ s5 ++ g5) in *.
  split.
  - destruct (exec uspsTracking (before ++ shown ++ after)) as [mt|] eqn:E.
    + destruct (tracking_shape fileName _ E)
        as (h1 & h2 & h3 & h4 & h5 & -> & _ & _ & Hd & Hn).
      eexists. repeat split; [exact Hn|exact Hd].
    + exfalso. unfold exec in E.
      apply searchFrom_None with (a := before) (s1 := shown ++ after) in E;
        [|reflexivity].
      destruct Hm as (l & Hm). cbn [Nat.add] in E.
      change (ignoreCase uspsTracking) with false in E. rewrite E in Hm.
      discriminate Hm.
  - intros H9.
    assert (E : exec uspsTracking (before ++ shown ++ after)
                = Some (length before,
                        mkState q (length before + length shown) after
                          (Some (length before, length before + length shown)))).
    { unfold exec. rewrite searchFrom_skip.
      - now apply searchFrom_hit.
      - intros a c b ->. apply uspsTracking_miss.
        rewrite forallb_app in H9. apply andb_true_iff in H9 as [_ H9].
        cbn [forallb] in H9. apply andb_true_iff in H9 as [H9 _].
        now apply negb_true_iff in H9. }
    rewrite extractTrackingNumber_fst, E, replaceAll_spaceRuns.
    unfold group1. cbn [snd cap]. rewrite substring_app.
    cbn [forallb] in Hs, Hg.
    repeat match goal with
           | H : _ && _ = true |- _ => apply andb_true_iff in H; destruct H
           end.
    unfold shown. 
    change (js "9205" ++ ?x) with (57%N :: 50%N :: 48%N :: 53%N :: x).
    cbn [orElse]. 
    repeat match goal with
    | |- context [filter notSpace (?x :: ?l)] =>
        change (filter notSpace (x :: l)) with (x :: filter notSpace l)
    end.
    rewrite !filter_app.
    repeat match goal with
    | H : forallb isSpace ?l = true |- _ =>
        rewrite (filter_notSpace_spaces l H); clear H
    | H : forallb isDigit ?l = true |- _ =>
        rewrite (filter_notSpace_digits l H); clear H
    end.
    reflexivity.
Qed.

Lemma tracking_from_text_witness :
  exists mt,
    exec uspsTracking (js "9205 1234 5678 9012 3456 78") = Some mt
    /\ (exists g1 g2 g3 g4 g5,
          fst (extractTrackingNumber (js "12345678901234567890.pdf")
                 (js "9205 1234 5678 9012 3456 78"))
          = Some (js "9205" ++ g1 ++ g2 ++ g3 ++ g4 ++ g5)
          /\ js "9205" ++ g1 ++ g2 ++ g3 ++ g4 ++ g5
             = filter notSpace
                 (orElse (group1 (js "9205 1234 5678 9012 3456 78") mt)
                         (group0 (js "9205 1234 5678 9012 3456 78") mt))
          /\ map (@length char) [g1; g2; g3; g4; g5] = [4; 4; 4; 4; 2]
          /\ forallb isDigit (js "9205" ++ g1 ++ g2 ++ g3 ++ g4 ++ g5) = true
          /\ length (js "9205" ++ g1 ++ g2 ++ g3 ++ g4 ++ g5) = 22)
    /\ forallb (forallb isSpace) [js " "; js " "; []; js "  "; []] = true
    /\ forallb (forallb isDigit) [js "1234"; js "5678"; js "9012"; js "3456"; js "78"]
       = true
    /\ map (@length char) [js "1234"; js "5678"; js "9012"; js "3456"; js "78"]
       = [4; 4; 4; 4; 2]
    /\ isWordOpt (lastOr None (js "USPS TRACKING # ")) = false
    /\ isWordOpt (hd_error (js " (signature)")) = false
    /\ forallb (fun c => negb (c =? 57)%N) (js "USPS TRACKING # ") = true
    /\ fst (extractTrackingNumber (js "12345678901234567890.pdf")
              (js "USPS TRACKING # "
               ++ (js "9205" ++ js " " ++ js "1234" ++ js " " ++ js "5678" ++ []
                   ++ js "9012" ++ js "  " ++ js "3456" ++ [] ++ js "78")
               ++ js " (signature)"))
       = Some (js "9205" ++ js "1234" ++ js "5678" ++ js "9012" ++ js "3456"
               ++ js "78").
Proof.
  destruct (tracking_from_text (js "12345678901234567890.pdf")) as [Hshape Hfound].
  eexists. split; [vm_compute; reflexivity|]. split.
  - apply Hshape. vm_compute; reflexivity.
  - do 6 (split; [reflexivity|]).
    apply Hfound; reflexivity.
Defined.

(** * The tracking number in the file name *)

Lemma takeWhile_app_all (f : char -> bool) (a b : jsstring) :
  forallb f a = true -> takeWhile f (a ++ b) = a ++ takeWhile f b.
Proof.
  induction a as [|c a IH]; [reflexivity|]. cbn [forallb app takeWhile].
  intros H. apply andb_true_iff in H as [Hc H]. now rewrite Hc, IH.
Qed.

(** The last portion of a path that ends with a name is that name. *)
Lemma lastPortion_name (dir name : jsstring) :
  dir = [] \/ (exists d, dir = d ++ js "/") ->
  forallb notSlash name = true -> name <> [] ->
  lastPortion (dir ++ name) = name.
Proof.
  intros Hd Hn Hne. unfold lastPortion. rewrite rev_app_distr.
  assert (Hr : forallb notSlash (rev name) = true) by now apply forallb_rev.
  destruct (rev name) as [|c r] eqn:E.
  { apply (f_equal (@rev char)) in E. rewrite rev_involutive in E. now subst. }
  cbn [app dropWhile]. pose proof Hr as Hc. cbn [forallb] in Hc.
  apply andb_true_iff in Hc as [Hc _]. unfold notSlash in Hc.
  apply negb_true_iff in Hc. rewrite Hc.
  change (c :: r ++ rev dir) with ((c :: r) ++ rev dir).
  fold notSlash. rewrite (takeWhile_app_all _ _ _ Hr).
  replace (takeWhile notSlash (rev dir)) with (@nil char).
  - now rewrite app_nil_r, <- E, rev_involutive.
  - destruct Hd as [->|(d & ->)]; [reflexivity|].
    now rewrite rev_app_distr.
Qed.

Lemma basename_pdf (dir stem : jsstring) :
  dir = [] \/ (exists d, dir = d ++ js "/") ->
  forallb notSlash stem = true -> stem <> [] ->
  basename (dir ++ stem ++ js ".pdf") (js ".pdf") = stem.
Proof.
  intros Hd Hs Hne. unfold basename.
  destruct (eqString (dir ++ stem ++ js ".pdf") (js ".pdf")) eqn:E.
  { apply eqString_eq in E. apply (f_equal (@length char)) in E.
    rewrite !length_app in E. destruct stem; [congruence|cbn in E; lia]. }
  rewrite lastPortion_name; [|exact Hd| |destruct stem; discriminate].
  - replace (endsWith (stem ++ js ".pdf") (js ".pdf")) with true
      by (symmetry; apply endsWith_iff; now exists stem).
    replace (length (js ".pdf") <? length (stem ++ js ".pdf")) with true
      by (symmetry; apply Nat.ltb_lt; rewrite length_app;
          destruct stem; [congruence|cbn; lia]).
    cbn [andb]. rewrite length_app, Nat.add_sub, firstn_app, firstn_all, Nat.sub_diag.
    cbn [firstn]. apply app_nil_r.
  - rewrite forallb_app, Hs. reflexivity.
Qed.

Lemma basename_other (dir name : jsstring) :
  dir = [] \/ (exists d, dir = d ++ js "/") ->
  forallb notSlash name = true -> name <> [] ->
  endsWith name (js ".pdf") = false ->
  basename (dir ++ name) (js ".pdf") = name.
Proof.
  intros Hd Hn Hne He. unfold basename.
  rewrite lastPortion_name by assumption. rewrite He. cbn [andb].
  destruct (eqString (dir ++ name) (js ".pdf")) eqn:E; [|reflexivity].
  apply eqString_eq in E. exfalso.
  assert (Hl : lastPortion (dir ++ name) = name) by now apply lastPortion_name.
  rewrite E in Hl. cbv in Hl. subst name. discriminate He.
Qed.

(** C6.  When the text has no tracking number, the result comes from the
    file name.  For a file [stem.pdf], in a directory or not, it is [stem]
    if that is 20 to 22 digits and nothing else, and nothing otherwise; for
    a file whose name does not end with [.pdf] it is the whole name under
    the same condition. *)
Theorem tracking_from_fileName (dir pdfText : jsstring) :
  exec uspsTracking pdfText = None ->
  dir = [] \/ (exists d, dir = d ++ js "/") ->
  (forall stem,
      forallb notSlash stem = true ->
      fst (extractTrackingNumber (dir ++ stem ++ js ".pdf") pdfText)
      = if forallb isDigit stem && (20 <=? length stem) && (length stem <=? 22)
        then Some stem else None)
  /\ (forall name,
         forallb notSlash name = true -> name <> [] ->
         endsWith name (js ".pdf") = false ->
         fst (extractTrackingNumber (dir ++ name) pdfText)
         = if forallb isDigit name && (20 <=? length name) && (length name <=? 22)
           then Some name else None).
Proof.
  intros H Hd. split.
  - intros stem Hs. rewrite extractTrackingNumber_fst, H.
    destruct stem as [|c stem].
    + replace (test fileNameDigits (basename (dir ++ [] ++ js ".pdf") (js ".pdf")))
        with false; [reflexivity|].
      symmetry. unfold basename.
      destruct (eqString (dir ++ [] ++ js ".pdf") (js ".pdf")); [reflexivity|].
      rewrite lastPortion_name; [reflexivity|exact Hd|reflexivity|discriminate].
    + rewrite basename_pdf; [|exact Hd|exact Hs|discriminate].
      now rewrite test_fileNameDigits.
  - intros name Hn Hne He. rewrite extractTrackingNumber_fst, H.
    rewrite basename_other by assumption. now rewrite test_fileNameDigits.
Qed.

Lemma tracking_from_fileName_witness :
  exec uspsTracking (js "no number here") = None
  /\ forallb notSlash (js "12345678901234567890") = true
  /\ forallb notSlash (js "label") = true
  /\ fst (extractTrackingNumber (js "12345678901234567890.pdf") (js "no number here"))
     = Some (js "12345678901234567890")
  /\ fst (extractTrackingNumber (js "label.pdf") (js "no number here")) = None.
Proof.
  split; [vm_compute; reflexivity|]. split; [reflexivity|]. split; [reflexivity|].
  destruct (@tracking_from_fileName [] (js "no number here") eq_refl
              (or_introl eq_refl)) as [H _].
  split.
  - exact (H (js "12345678901234567890") eq_refl).
  - exact (H (js "label") eq_refl).
Defined.

(** * A labelled number among other text *)

Lemma matchesAt_stop (y : jsstring) :
  forall preds b,
    b <> [] ->
    match y with
    | c :: _ => forall q, In q (tl preds) -> q c = false
    | [] => True
    end ->
    matchesAt preds (b ++ y) = matchesAt preds b.
Proof.
  induction preds as [|q preds IH]; intros b Hb Hy; [destruct b; reflexivity|].
  destruct b as [|c b]; [congruence|]. cbn [app matchesAt]. f_equal.
  destruct b as [|c' b].
  - cbn [app]. destruct preds as [|q' preds]; [destruct y; reflexivity|].
    destruct y as [|c0 y]; [reflexivity|]. cbn [matchesAt].
    rewrite (Hy q') by now left. reflexivity.
  - apply IH; [discriminate|]. destruct y as [|c0 y]; [exact I|].
    intros q' Hq'. apply Hy. cbn [tl]. destruct preds; [destruct Hq'|].
    now right.
Qed.

Lemma closed_stop (preds : list (char -> bool)) (x y : jsstring) :
  match y with
  | c :: _ => forall q, In q (tl preds) -> q c = false
  | [] => True
  end ->
  Closed preds x y.
Proof. intros Hy a b _ Hb. now apply matchesAt_stop. Qed.

Lemma matchesAt_nonword_end :
  forall preds b c y,
    WordOnly preds -> isWordChar c = false ->
    matchesAt preds ((b ++ [c]) ++ y) = matchesAt preds (b ++ [c]).
Proof.
  induction preds as [|q preds IH]; intros b c y Hw Hc;
    [destruct b; reflexivity|].
  destruct b as [|c' b]; cbn [app matchesAt].
  - destruct (q c) eqn:E; [|reflexivity].
    apply Hw in E; [congruence|now left].
  - f_equal. apply IH; [|exact Hc]. intros q' Hq'. apply Hw. now right.
Qed.

Lemma closed_nonword (preds : list (char -> bool)) (x0 y : jsstring) (c : char) :
  WordOnly preds -> isWordChar c = false -> Closed preds (x0 ++ [c]) y.
Proof.
  intros Hw Hc a b E Hb.
  destruct (exists_last Hb) as (b0 & c' & ->).
  rewrite app_assoc in E. apply app_inj_tail in E as [_ <-].
  now apply matchesAt_nonword_end.
Qed.

Lemma closed_boundary (preds : list (char -> bool)) (x y : jsstring) :
  WordOnly preds -> isWordOpt (lastOr None x) = false -> Closed preds x y.
Proof.
  intros Hw Hc. destruct x as [|c0 x0].
  - intros a b E Hb. destruct a; destruct b; try discriminate E. congruence.
  - destruct (@exists_last _ (c0 :: x0)) as (x' & c & E); [discriminate|].
    rewrite E in *. rewrite lastOr_app in Hc. now apply closed_nonword.
Qed.

Lemma wordStarts_at (preds : list (char -> bool)) (b : jsstring) :
  forall a p,
    isWordOpt (lastOr p a) = false -> matchesAt preds b = true ->
    wordStarts preds p (a ++ b) = true.
Proof.
  induction a as [|c a IH]; intros p Hp Hm.
  - cbn [app lastOr] in *. destruct b; cbn [wordStarts]; rewrite Hp, Hm; reflexivity.
  - cbn [app wordStarts lastOr] in *. rewrite (IH _ Hp Hm). apply orb_true_r.
Qed.

Lemma wordStarts_nil (preds : list (char -> bool)) (p : option char) :
  preds <> [] -> wordStarts preds p [] = false.
Proof.
  destruct preds; [congruence|]. intros _. cbn [wordStarts matchesAt].
  now rewrite andb_false_r.
Qed.

(** The occurrences in two texts put together. *)
Lemma wordStarts_app (preds : list (char -> bool)) (y : jsstring) :
  preds <> [] ->
  forall x p,
    Closed preds x y ->
    wordStarts preds p (x ++ y)
    = wordStarts preds p x || wordStarts preds (lastOr p x) y.
Proof.
  intros Hne. induction x as [|c x IH]; intros p Hc.
  - cbn [app lastOr]. now rewrite wordStarts_nil.
  - pose proof (Hc [] (c :: x) eq_refl) as H0. cbn [app] in H0.
    cbn [app wordStarts lastOr]. rewrite H0 by discriminate.
    rewrite IH; [now rewrite orb_assoc|].
    intros a b E Hb. apply (Hc (c :: a) b); [now rewrite E|exact Hb].
Qed.

Lemma wordStarts_suffix (preds : list (char -> bool)) (b : jsstring) :
  forall a p, wordStarts preds p (a ++ b) = false ->
              wordStarts preds (lastOr p a) b = false.
Proof.
  induction a as [|c a IH]; intros p H; [exact H|].
  cbn [app wordStarts lastOr] in *. apply orb_false_iff in H as [_ H]. auto.
Qed.

(** Inside a word no word begins. *)
Lemma wordStarts_word (preds : list (char -> bool)) (y : jsstring) :
  forall x p,
    forallb isWordChar x = true -> isWordOpt p = true ->
    wordStarts preds p (x ++ y) = wordStarts preds (lastOr p x) y.
Proof.
  induction x as [|c x IH]; intros p Hx Hp; [reflexivity|].
  cbn [forallb] in Hx. apply andb_true_iff in Hx as [Hc Hx].
  cbn [app wordStarts lastOr]. rewrite Hp. cbn [negb andb orb].
  now apply IH.
Qed.

Lemma wordStarts_cons (preds : list (char -> bool)) (p : option char)
    (c : char) (s : jsstring) :
  wordStarts preds p (c :: s)
  = (negb (isWordOpt p) && matchesAt preds (c :: s)) || wordStarts preds (Some c) s.
Proof. reflexivity. Qed.

(** A word that does not begin in the way [preds], followed by a hyphen. *)
Lemma wordStarts_word_hyphen (preds : list (char -> bool)) (p : option char)
    (root : jsstring) :
  WordOnly preds -> preds <> [] -> isWordOpt p = false ->
  forallb isWordChar root = true -> root <> [] ->
  matchesAt preds (root ++ [hyphen]) = false ->
  wordStarts preds p (root ++ [hyphen]) = false.
Proof.
  intros Hw Hne Hp Hr Hroot Hm. destruct root as [|c r]; [congruence|].
  cbn [app] in Hm. cbn [app wordStarts]. rewrite Hp, Hm. cbn [negb andb orb].
  cbn [forallb] in Hr. apply andb_true_iff in Hr as [Hc Hr].
  rewrite wordStarts_word by assumption.
  rewrite wordStarts_cons, wordStarts_nil by exact Hne.
  destruct preds as [|q preds]; [congruence|]. cbn [matchesAt].
  destruct (q hyphen) eqn:E; [|now rewrite andb_false_r].
  apply Hw in E; [discriminate E|now left].
Qed.

Section WhereItMatches.

(** An expression that only matches where a word begins in one of the ways
    [shapes]. *)
Variable re : regexp.
Variable shapes : list (list (char -> bool)).

Hypothesis starts :
  forall p i s,
    matcher (ignoreCase re) (tree re) (mkState p i s None) <> [] ->
    isWordOpt p = false
    /\ existsb (fun preds => matchesAt preds s) shapes = true.

Lemma searchFrom_plain (y : jsstring) :
  forall x p i,
    (forall preds, In preds shapes ->
       wordStarts preds p x = false /\ Closed preds x y) ->
    searchFrom re p i (x ++ y) = searchFrom re (lastOr p x) (i + length x) y.
Proof.
  intros x p i H. apply searchFrom_skip. intros a c b E.
  destruct (matcher _ _ _) as [|st' l] eqn:Em; [reflexivity|exfalso].
  destruct (starts (lastOr p a) (i + length a) (c :: b ++ y)) as [Hp He];
    [rewrite Em; discriminate|].
  apply existsb_exists in He as (preds & Hin & Hm).
  destruct (H preds Hin) as [Hw Hc].
  change (c :: b ++ y) with ((c :: b) ++ y) in Hm.
  rewrite (Hc a (c :: b) E) in Hm by discriminate.
  rewrite E, (wordStarts_at _ _ _ _ Hp Hm) in Hw. discriminate Hw.
Qed.

Lemma searchFrom_nowhere (x : jsstring) (p : option char) (i : nat) :
  (forall preds, In preds shapes -> wordStarts preds p x = false) ->
  searchFrom re p i x = None.
Proof.
  intros H. destruct (searchFrom re p i x) as [[start st']|] eqn:E; [exfalso|reflexivity].
  apply searchFrom_Some in E as (a & s1 & l & -> & -> & Hm).
  destruct (starts (lastOr p a) (i + length a) s1) as [Hp He];
    [rewrite Hm; discriminate|].
  apply existsb_exists in He as (preds & Hin & Hs).
  pose proof (H preds Hin) as Hw.
  rewrite (wordStarts_at _ _ _ _ Hp Hs) in Hw. discriminate Hw.
Qed.

Variables (before root after : jsstring) (d : char).

(** The text: something that does not end with a word character, a word, a
    hyphen and a digit, and something that does not begin with a word
    character. *)
Hypothesis before_nonword : isWordOpt (lastOr None before) = false.
Hypothesis root_word : forallb isWordChar root = true.
Hypothesis root_some : root <> [].
Hypothesis d_digit : isDigit d = true.
Hypothesis after_nonword : isWordOpt (hd_error after) = false.

Hypothesis shapes_word :
  forall preds, In preds shapes -> WordOnly preds /\ 2 <= length preds.
Hypothesis before_plain :
  forall preds, In preds shapes -> wordStarts preds None before = false.

Lemma lastOr_last (p : option char) (x : jsstring) (c : char) :
  lastOr p (x ++ [c]) = Some c.
Proof. now rewrite lastOr_app. Qed.

(** The search reaches the word. *)
Lemma searchFrom_reaches :
  exec re (before ++ root ++ [hyphen; d] ++ after)
  = searchFrom re (lastOr None before) (length before)
      (root ++ [hyphen; d] ++ after).
Proof.
  unfold exec. rewrite searchFrom_plain; [reflexivity|].
  intros preds Hin. split; [now apply before_plain|].
  apply closed_boundary; [now apply shapes_word|exact before_nonword].
Qed.

(** When the expression matches there, that is its match. *)
Lemma exec_at_word (st' : state) :
  headIs (matcher (ignoreCase re) (tree re)
            (mkState (lastOr None before) (length before)
               (root ++ [hyphen; d] ++ after) None)) st' ->
  exec re (before ++ root ++ [hyphen; d] ++ after) = Some (length before, st').
Proof. intros H. rewrite searchFrom_reaches. now apply searchFrom_hit. Qed.

Hypothesis after_plain :
  forall preds, In preds shapes -> wordStarts preds None after = false.
Hypothesis root_other :
  forall preds, In preds shapes -> matchesAt preds (root ++ [hyphen]) = false.

Lemma matchesAt_short (preds : list (char -> bool)) (c : char) :
  WordOnly preds -> 2 <= length preds ->
  matchesAt preds (c :: after) = false.
Proof.
  intros Hw Hl. destruct preds as [|q [|q' preds]]; try (cbn in Hl; lia).
  cbn [matchesAt]. destruct after as [|c0 s]; [apply andb_false_r|].
  destruct (q' c0) eqn:E; [|apply andb_false_r].
  apply Hw in E; [|right; now left]. cbn in after_nonword. congruence.
Qed.

(** When no word of the text begins in one of the ways [shapes], the word
    [root] neither, the expression has no match. *)
Lemma exec_nowhere : exec re (before ++ root ++ [hyphen; d] ++ after) = None.
Proof.
  rewrite searchFrom_reaches.
  change (root ++ [hyphen; d] ++ after)
    with (root ++ [hyphen] ++ d :: after).
  rewrite app_assoc, searchFrom_plain.
  - apply searchFrom_nowhere. intros preds Hin. rewrite lastOr_last.
    destruct (shapes_word preds Hin) as [Hw Hl].
    assert (Hne : preds <> []) by (destruct preds; [cbn in Hl; lia|discriminate]).
    cbn [wordStarts isWordOpt]. change (isWordChar hyphen) with false.
    cbn [negb andb]. rewrite (matchesAt_short _ Hw Hl). cbn [orb].
    pose proof (after_plain preds Hin) as Ha.
    destruct after as [|c0 s]; [now apply wordStarts_nil|].
    cbn [wordStarts isWordOpt] in Ha |- *. apply orb_false_iff in Ha as [_ Ha].
    rewrite Ha, (digit_isWordChar _ d_digit). reflexivity.
  - intros preds Hin. destruct (shapes_word preds Hin) as [Hw Hl]. split.
    + apply wordStarts_word_hyphen;
        [exact Hw|destruct preds; [cbn in Hl; lia|discriminate]
        |exact before_nonword|exact root_word|exact root_some
        |now apply root_other].
    + apply closed_nonword; [exact Hw|reflexivity].
Qed.

End WhereItMatches.

(** ** How the matches of the first five patterns begin *)

Lemma matchesAt_word (preds : list (char -> bool)) (s : jsstring) :
  WordOnly preds -> preds <> [] -> matchesAt preds s = true ->
  isWordOpt (hd_error s) = true.
Proof.
  intros Hw Hne H. destruct preds as [|q preds]; [congruence|].
  destruct s as [|c s]; [discriminate H|]. cbn [matchesAt] in H.
  apply andb_true_iff in H as [H _]. apply (Hw q); [now left|exact H].
Qed.

(** An expression [\b(g)\b] matches where a word begins; the word begins as
    the matches of [g] do. *)
Lemma bounded_starts (re : regexp) (g : regex)
    (shapes : list (list (char -> bool))) :
  tree re = Seq WordB (Seq (Group g) WordB) ->
  (forall preds, In preds shapes -> WordOnly preds /\ 2 <= length preds) ->
  (forall p w s, Matches (ignoreCase re) g p w s ->
     existsb (fun preds => matchesAt preds (w ++ s)) shapes = true) ->
  forall p i s,
    matcher (ignoreCase re) (tree re) (mkState p i s None) <> [] ->
    isWordOpt p = false
    /\ existsb (fun preds => matchesAt preds s) shapes = true.
Proof.
  intros Et Hs Hg p i s Hm. rewrite Et in Hm.
  destruct (matcher _ _ _) as [|st' l] eqn:E; [congruence|clear Hm].
  assert (Hin : In st' (matcher (ignoreCase re) (Seq WordB (Seq (Group g) WordB))
                          (mkState p i s None))) by (rewrite E; now left).
  cbn [matcher] in Hin. apply in_flat_map in Hin as (x & Hx & Hin).
  unfold wordBefore, wordAfter in Hx. cbn [prev rest] in Hx.
  destruct (xorb _ _) eqn:Ex; [|destruct Hx]. destruct Hx as [<-|[]].
  apply in_flat_map in Hin as (y & Hy & _).
  apply in_map_iff in Hy as (z & _ & Hz).
  apply matcher_sound in Hz as (w & Ew & _ & _ & M). cbn [rest prev] in Ew, M.
  subst s. pose proof (Hg _ _ _ M) as He. split; [|exact He].
  apply existsb_exists in He as (preds & Hin & Hm).
  destruct (Hs preds Hin) as [Hw Hl].
  assert (Hne : preds <> []) by (destruct preds; [cbn in Hl; lia|discriminate]).
  pose proof (matchesAt_word _ Hw Hne Hm) as Hh.
  destruct (w ++ rest z) as [|c s]; [discriminate Hh|]. cbn [hd_error isWordOpt] in Hh.
  rewrite Hh in Ex. fold (isWordOpt p) in Ex. destruct (isWordOpt p);
    [discriminate Ex|reflexivity].
Qed.

Lemma matchesAt_digits (n : nat) :
  forall ds r, forallb isDigit ds = true -> n <= length ds ->
               matchesAt (repeat isDigit n) (ds ++ r) = true.
Proof.
  induction n as [|n IH]; intros ds r Hd Hl; [reflexivity|].
  destruct ds as [|d ds]; [cbn in Hl; lia|]. cbn [forallb] in Hd.
  apply andb_true_iff in Hd as [Hd Hds]. cbn [repeat app matchesAt].
  rewrite Hd. apply IH; [exact Hds|cbn in Hl; lia].
Qed.

Lemma sameLetter_word (a c : char) :
  (65 <= asciiUpper a <= 90)%N -> sameLetter a c = true -> isWordChar c = true.
Proof.
  unfold sameLetter. intros Ha E. apply N.eqb_eq in E. rewrite E in Ha.
  unfold isWordChar, inRange. destruct (asciiUpper_cases c) as [[Hc Ec]|[Hc Ec]].
  - replace (97 <=? c)%N with true by (symmetry; apply N.leb_le; lia).
    replace (c <=? 122)%N with true by (symmetry; apply N.leb_le; lia).
    reflexivity.
  - rewrite Ec in Ha.
    replace (65 <=? c)%N with true by (symmetry; apply N.leb_le; lia).
    replace (c <=? 90)%N with true by (symmetry; apply N.leb_le; lia).
    cbn [andb orb]. now rewrite orb_true_r.
Qed.

Lemma wordOnly_digits (n : nat) : WordOnly (repeat isDigit n).
Proof.
  intros q Hq c Hc. apply repeat_spec in Hq. subst q. now apply digit_isWordChar.
Qed.

Lemma wordOnly_prefix (prefix : jsstring) :
  forallb (fun a => inRange 65 90 (asciiUpper a)) prefix = true ->
  WordOnly (prefixThenDigit prefix).
Proof.
  intros Hp q Hq c Hc. unfold prefixThenDigit in Hq. apply in_app_or in Hq as [Hq|Hq].
  - apply in_map_iff in Hq as (a & <- & Ha). rewrite forallb_forall in Hp.
    specialize (Hp _ Ha). unfold inRange in Hp. apply andb_true_iff in Hp as [H1 H2].
    apply N.leb_le in H1, H2. now apply (@sameLetter_word a c).
  - destruct Hq as [<-|[]]. now apply digit_isWordChar.
Qed.

(** The ways of [numberStarts]: at least two code units, all of them word
    characters. *)
Lemma numberStarts_word (preds : list (char -> bool)) :
  In preds numberStarts -> WordOnly preds /\ 2 <= length preds.
Proof.
  unfold numberStarts, shortPrefixes, longPrefixes. cbn [map app].
  intros [<-|H]; [split; [apply wordOnly_digits|cbn; lia]|].
  repeat (destruct H as [<-|H];
          [split; [apply wordOnly_prefix; reflexivity|cbn; lia]|]).
  destruct H.
Qed.

Ltac read_letters :=
  repeat match goal with
  | H : Matches _ (Alt _ _) _ _ _ |- _ => inversion H; subst; clear H
  | H : Matches _ (Seq _ _) _ _ _ |- _ =>
      apply Matches_Seq_inv in H; destruct H as (? & ? & -> & ? & ?)
  | H : Matches _ (Chr _) _ _ _ |- _ => inversion H; subst; clear H
  | H : Matches _ (Rep ?n (Some ?n) Digit) _ _ _ |- _ =>
      apply (@Matches_times_Digit _ n) in H; destruct H as [? ?]
  end.

Ltac first_digit :=
  match goal with
  | H : forallb isDigit ?ds = true, L : length ?ds = S _ |- _ =>
      destruct ds as [|? ?]; [discriminate L|];
      cbn [forallb] in H; apply andb_true_iff in H; destruct H as [? _]; clear L
  end.

Ltac letters_goal :=
  rewrite <- ?app_assoc; unfold shortPrefixes, longPrefixes; cbn [map];
  change (js "EL") with [69%N; 76%N]; change (js "R") with [82%N];
  change (js "AL") with [65%N; 76%N]; change (js "EJR") with [69%N; 74%N; 82%N];
  change (js "EJC") with [69%N; 74%N; 67%N]; change (js "MH") with [77%N; 72%N];
  cbn [existsb map app prefixThenDigit matchesAt];
  repeat match goal with
  | H : charEq true ?a ?c = true |- _ =>
      change (charEq true a c) with (sameLetter a c) in H; rewrite ?H; clear H
  | H : isDigit ?c = true |- _ => rewrite ?H; clear H
  end;
  cbn [andb orb]; rewrite ?orb_true_r; try reflexivity.

Lemma starts_EL :
  forall p i s,
    matcher true (tree (nth 2 patterns valid6)) (mkState p i s None) <> [] ->
    isWordOpt p = false
    /\ existsb (fun preds => matchesAt preds s) [prefixThenDigit (js "EL")] = true.
Proof.
  refine (@bounded_starts (nth 2 patterns valid6) _ _ eq_refl _ _).
  - intros preds [<-|[]]. apply numberStarts_word. right; now left.
  - intros p w s M. vm_compute in M. read_letters. first_digit. letters_goal.
Qed.

Lemma starts_short :
  forall p i s,
    matcher true (tree (nth 3 patterns valid6)) (mkState p i s None) <> [] ->
    isWordOpt p = false
    /\ existsb (fun preds => matchesAt preds s) (map prefixThenDigit shortPrefixes)
       = true.
Proof.
  refine (@bounded_starts (nth 3 patterns valid6) _ _ eq_refl _ _).
  - intros preds H. apply numberStarts_word. right.
    unfold shortPrefixes, longPrefixes in *. cbn [map app In] in *. tauto.
  - intros p w s M. vm_compute in M. read_letters; first_digit; letters_goal.
Qed.

Lemma starts_long :
  forall p i s,
    matcher true (tree (nth 4 patterns valid6)) (mkState p i s None) <> [] ->
    isWordOpt p = false
    /\ existsb (fun preds => matchesAt preds s) (map prefixThenDigit longPrefixes)
       = true.
Proof.
  refine (@bounded_starts (nth 4 patterns valid6) _ _ eq_refl _ _).
  - intros preds H. apply numberStarts_word. right.
    unfold shortPrefixes, longPrefixes in *. cbn [map app In] in *. tauto.
  - intros p w s M. vm_compute in M. read_letters; first_digit; letters_goal.
Qed.

Lemma starts_nine :
  forall p i s,
    matcher false (tree (nth 0 patterns valid6)) (mkState p i s None) <> [] ->
    isWordOpt p = false
    /\ existsb (fun preds => matchesAt preds s) [nineDigits] = true.
Proof.
  refine (@bounded_starts (nth 0 patterns valid6) _ _ eq_refl _ _).
  - intros preds [<-|[]]. apply numberStarts_word. now left.
  - intros p w s M. apply Matches_Seq_inv in M as (w1 & w2 & -> & M1 & _).
    apply (@Matches_times_Digit _ 9) in M1 as [Hd Hl].
    cbn [existsb]. rewrite <- app_assoc. unfold nineDigits.
    rewrite matchesAt_digits; [reflexivity|exact Hd|lia].
Qed.

Lemma starts_ten :
  forall p i s,
    matcher false (tree (nth 1 patterns valid6)) (mkState p i s None) <> [] ->
    isWordOpt p = false
    /\ existsb (fun preds => matchesAt preds s) [nineDigits] = true.
Proof.
  refine (@bounded_starts (nth 1 patterns valid6) _ _ eq_refl _ _).
  - intros preds [<-|[]]. apply numberStarts_word. now left.
  - intros p w s M. vm_compute in M. split_seqs. read_chrs. read_classes.
    cbn [existsb]. rewrite <- !app_assoc. unfold nineDigits.
    match goal with
    | |- context [matchesAt _ ([50%N] ++ ?w3 ++ ?r)] =>
        change ([50%N] ++ w3 ++ r) with ((50%N :: w3) ++ r)
    end.
    rewrite matchesAt_digits; [reflexivity| |cbn [length]; lia].
    cbn [forallb]. change (isDigit 50%N) with true. cbn [andb]. assumption.
Qed.

(** ** The match of a prefixed number with one suffix *)

(** [(?:-\d)?] first reads a hyphen and a digit. *)
Lemma head_opt_dashDigit (ic : bool) (d : char) (s : jsstring) (p : option char)
    (i : nat) (c : option (nat * nat)) :
  isDigit d = true ->
  headIs (matcher ic (opt dashDigit) (mkState p i (hyphen :: d :: s) c))
         (mkState (Some d) (S (S i)) s c).
Proof.
  intros Hd. unfold opt. rewrite matcher_Rep. cbn [decrMax Nat.pred].
  apply headIs_app.
  assert (E : matcher ic dashDigit (mkState p i (hyphen :: d :: s) c)
              = [mkState (Some d) (S (S i)) s c]).
  { unfold dashDigit, dash. cbn [seq]. rewrite matcher_Seq, matcher_Chr.
    replace (charEq ic hyphen hyphen) with true by (destruct ic; reflexivity).
    cbn [flat_map]. change (matcher ic Digit ?st) with (step isDigit st).
    unfold step. cbn [rest pos cap]. rewrite Hd. reflexivity. }
  rewrite E. cbn [filter pos].
  replace (S (S i) =? i) with false by (symmetry; apply Nat.eqb_neq; lia).
  cbn [negb flat_map]. rewrite matcher_Rep. apply headIs_one.
Qed.

Lemma digits_word (ds : jsstring) :
  forallb isDigit ds = true -> forallb isWordChar ds = true.
Proof. apply forallb_impl. apply digit_isWordChar. Qed.

Section PrefixedMatch.

Variables (ic : bool) (P : regex) (letters : jsstring) (n : nat).

(** The prefix has one way to read the letters. *)
Hypothesis reads :
  forall p i s c,
    matcher ic P (mkState p i (letters ++ s) c)
    = [mkState (lastOr p letters) (i + length letters) s c].
Hypothesis letters_word :
  forall s, isWordOpt (hd_error (letters ++ s)) = true.

Lemma head_prefixed (ds after : jsstring) (d : char) (p : option char) (i : nat) :
  isWordOpt p = false ->
  forallb isDigit ds = true -> length ds = n -> isDigit d = true ->
  isWordOpt (hd_error after) = false ->
  headIs (matcher ic
            (Seq WordB
               (Seq (Group (Seq P (Seq (times n Digit) (opt dashDigit)))) WordB))
            (mkState p i ((letters ++ ds) ++ [hyphen; d] ++ after) None))
         (mkState (Some d) (i + length ((letters ++ ds) ++ [hyphen; d])) after
            (Some (i, i + length ((letters ++ ds) ++ [hyphen; d])))).
Proof.
  intros Hp Hds Hn Hd Ha. rewrite <- app_assoc.
  rewrite matcher_Seq. eapply headIs_flat_map.
  { rewrite matcher_WordB; [apply headIs_one|]. cbn [prev rest].
    now rewrite Hp, letters_word. }
  rewrite matcher_Seq. eapply headIs_flat_map.
  - rewrite matcher_Group. apply headIs_map. cbn [pos].
    rewrite matcher_Seq, reads. cbn [flat_map]. apply headIs_app.
    rewrite matcher_Seq, <- Hn, matcher_times_Digit by exact Hds.
    cbn [flat_map]. apply headIs_app. cbn [app].
    now apply head_opt_dashDigit.
  - unfold setCap. cbn [pos prev rest cap]. rewrite matcher_WordB.
    + replace (S (S (i + length letters + length ds)))
        with (i + length ((letters ++ ds) ++ [hyphen; d]))
        by (rewrite !length_app; cbn [length]; lia).
      apply headIs_one.
    + cbn [prev rest isWordOpt]. now rewrite (digit_isWordChar _ Hd), Ha.
Qed.

End PrefixedMatch.

Lemma head_EL (e1 l1 e2 l2 d : char) (ds after : jsstring) (p : option char)
    (i : nat) :
  isE e1 = true -> isL l1 = true -> isE e2 = true -> isL l2 = true ->
  isWordOpt p = false ->
  forallb isDigit ds = true -> length ds = 6 -> isDigit d = true ->
  isWordOpt (hd_error after) = false ->
  headIs (matcher true (tree (nth 2 patterns valid6))
            (mkState p i (([e1; l1] ++ ds ++ [e2; l2]) ++ [hyphen; d] ++ after) None))
         (mkState (Some d) (i + length (([e1; l1] ++ ds ++ [e2; l2]) ++ [hyphen; d]))
            after
            (Some (i, i + length (([e1; l1] ++ ds ++ [e2; l2]) ++ [hyphen; d])))).
Proof.
  intros He1 Hl1 He2 Hl2 Hp Hds Hn Hd Ha.
  change (tree (nth 2 patterns valid6))
    with (Seq WordB
            (Seq (Group (Seq (Chr 69%N) (Seq (Chr 76%N) (Seq (times 6 Digit)
                          (Seq (Chr 69%N) (Seq (Chr 76%N) (opt dashDigit)))))))
               WordB)).
  assert (C1 : charEq true 69%N e1 = true) by (letter_cases; reflexivity).
  assert (C2 : charEq true 76%N l1 = true) by (letter_cases; reflexivity).
  assert (C3 : charEq true 69%N e2 = true) by (letter_cases; reflexivity).
  assert (C4 : charEq true 76%N l2 = true) by (letter_cases; reflexivity).
  assert (W1 : isWordChar e1 = true) by (letter_cases; reflexivity).
  rewrite <- !app_assoc. cbn [app].
  rewrite matcher_Seq. eapply headIs_flat_map.
  { rewrite matcher_WordB; [apply headIs_one|]. cbn [prev rest hd_error isWordOpt].
    now rewrite Hp, W1. }
  rewrite matcher_Seq. eapply headIs_flat_map.
  - rewrite matcher_Group. apply headIs_map. cbn [pos].
    apply head_Chr; [exact C1|]. apply head_Chr; [exact C2|].
    rewrite matcher_Seq, <- Hn, matcher_times_Digit by exact Hds.
    cbn [flat_map]. apply headIs_app. cbn [app].
    apply head_Chr; [exact C3|]. apply head_Chr; [exact C4|].
    now apply head_opt_dashDigit.
  - unfold setCap. cbn [pos prev rest cap]. rewrite matcher_WordB.
    + match goal with
      | |- headIs [mkState _ ?j _ _] _ =>
          replace j with (i + length (e1 :: l1 :: ds ++ [e2; l2; hyphen; d]))
            by (cbn [length]; rewrite !length_app; cbn [length]; lia)
      end.
      apply headIs_one.
    + cbn [prev rest isWordOpt]. now rewrite (digit_isWordChar _ Hd), Ha.
Qed.

(** ** The candidate of that match *)

Lemma Root_canonical (root canonical : jsstring) :
  Root root canonical -> Root canonical canonical.
Proof.
  intros [prefix letters ds Hp Hl Hn Hds | prefix letters ds Hp Hl Hn Hds
         | e1 l1 e2 l2 ds He1 Hl1 He2 Hl2 Hn Hds | ds Hn Hds | ds Hn Hds | ds Hn Hds].
  - apply RootLong; auto.
    unfold longPrefixes in Hp. repeat (destruct Hp as [<-|Hp]; [reflexivity|]).
    destruct Hp.
  - apply RootShort; auto.
    unfold shortPrefixes in Hp. repeat (destruct Hp as [<-|Hp]; [reflexivity|]).
    destruct Hp.
  - apply (@RootEL 69%N 76%N 69%N 76%N); auto.
  - now apply Root2Plus9.
  - now apply Root9.
  - now apply Root6.
Qed.

(** The clean-up and the handling of the case of a prefixed root with one
    suffix give the root in canonical case. *)
Lemma tidy_root (upperUnicode : jsstring -> jsstring) (root canonical : jsstring)
    (d : char) :
  Root root canonical -> prefixed root = true -> isDigit d = true ->
  normalizeCase upperUnicode (cleanUp (root ++ [hyphen; d]))
  = canonical ++ [hyphen; d].
Proof.
  intros Hr Hx Hd. destruct Hr as
    [prefix letters ds Hp Hl Hn Hds | prefix letters ds Hp Hl Hn Hds
    | e1 l1 e2 l2 ds He1 Hl1 He2 Hl2 Hn Hds | ds Hn Hds | ds Hn Hds | ds Hn Hds].
  - rewrite <- !app_assoc. change [hyphen; d] with ([hyphen] ++ [d]).
    unfold longPrefixes in Hp.
    repeat (destruct Hp as [<-|Hp]); try (now destruct Hp); letter_cases;
      (rewrite suffixed_tidy; [vm_compute; reflexivity|reflexivity|reflexivity
                              |exact Hds|exact Hd]).
  - rewrite <- !app_assoc. change [hyphen; d] with ([hyphen] ++ [d]).
    unfold shortPrefixes in Hp.
    repeat (destruct Hp as [<-|Hp]); try (now destruct Hp); letter_cases;
      (rewrite suffixed_tidy; [vm_compute; reflexivity|reflexivity|reflexivity
                              |exact Hds|exact Hd]).
  - rewrite <- !app_assoc.
    change ([e2; l2] ++ [hyphen; d]) with ([e2; l2; hyphen] ++ [d]).
    rewrite suffixed_tidy; [|letter_cases; reflexivity|letter_cases; reflexivity
                            |exact Hds|exact Hd].
    now apply normalizeCase_EL.
  - cbn [prefixed] in Hx. discriminate Hx.
  - destruct ds as [|c ds]; [discriminate Hn|]. cbn [forallb] in Hds.
    apply andb_true_iff in Hds as [Hc _]. cbn [prefixed] in Hx. now rewrite Hc in Hx.
  - destruct ds as [|c ds]; [discriminate Hn|]. cbn [forallb] in Hds.
    apply andb_true_iff in Hds as [Hc _]. cbn [prefixed] in Hx. now rewrite Hc in Hx.
Qed.

Lemma candidate_captured (upperUnicode : jsstring -> jsstring)
    (x w after : jsstring) (st' : state) :
  w <> [] -> cap st' = Some (length x, length x + length w) ->
  candidate upperUnicode (x ++ w ++ after) (length x, st')
  = normalizeCase upperUnicode (cleanUp w).
Proof.
  intros Hw Hc. unfold candidate, group1. cbn [snd]. rewrite Hc, substring_app.
  destruct w; [congruence|reflexivity].
Qed.

(** ** The cascade on a prefixed number among other text *)

Lemma family_wins (upperUnicode : jsstring -> jsstring) (fam : nat)
    (pattern : regexp) (x root canonical after : jsstring) (d : char)
    (st' : state) :
  nth_error patterns fam = Some pattern ->
  exec pattern (x ++ root ++ [hyphen; d] ++ after) = Some (length x, st') ->
  cap st' = Some (length x, length x + length (root ++ [hyphen; d])) ->
  forallb (fun q => match exec q (x ++ root ++ [hyphen; d] ++ after) with
                    | None => true
                    | Some _ => false
                    end) (firstn fam patterns) = true ->
  Root root canonical -> prefixed root = true -> isDigit d = true ->
  fst (tryPatterns upperUnicode (x ++ root ++ [hyphen; d] ++ after) patterns)
  = Some (canonical ++ [hyphen; d]).
Proof.
  intros Hn He Hc Hb Hr Hx Hd.
  assert (Ec : candidate upperUnicode (x ++ root ++ [hyphen; d] ++ after)
                 (length x, st')
               = canonical ++ [hyphen; d]).
  { rewrite (app_assoc root), candidate_captured;
      [now apply tidy_root|destruct root; discriminate|exact Hc]. }
  rewrite <- Ec. apply tryPatterns_first_valid with (i := fam) (pattern := pattern).
  - exact Hn.
  - exact He.
  - rewrite Ec. apply Root_valid with (canonical := canonical);
      [now apply Root_canonical with (root := root)|exact Hd].
  - now apply noValidCandidate_no_match.
Qed.

Lemma in_nine (preds : list (char -> bool)) :
  In preds [nineDigits] -> In preds numberStarts.
Proof. intros [<-|[]]. now left. Qed.

Lemma in_EL (preds : list (char -> bool)) :
  In preds [prefixThenDigit (js "EL")] -> In preds numberStarts.
Proof. intros [<-|[]]. right; now left. Qed.

Lemma in_short (preds : list (char -> bool)) :
  In preds (map prefixThenDigit shortPrefixes) -> In preds numberStarts.
Proof.
  unfold numberStarts, shortPrefixes, longPrefixes. cbn [map app In]. tauto.
Qed.

Lemma in_long (preds : list (char -> bool)) :
  In preds (map prefixThenDigit longPrefixes) -> In preds numberStarts.
Proof.
  unfold numberStarts, shortPrefixes, longPrefixes. cbn [map app In]. tauto.
Qed.

Section Framed.

Variable upperUnicode : jsstring -> jsstring.
Variables (before after : jsstring) (d : char).

Hypothesis before_nonword : isWordOpt (lastOr None before) = false.
Hypothesis d_digit : isDigit d = true.
Hypothesis after_nonword : isWordOpt (hd_error after) = false.
Hypothesis before_plain :
  forall preds, In preds numberStarts ->
    wordStarts preds None before = false.
Hypothesis after_plain :
  forall preds, In preds numberStarts -> wordStarts preds None after = false.

Ltac nowhere k shapes starts incl :=
  apply (@exec_nowhere (nth k patterns valid6) shapes starts);
  [ exact before_nonword
  | rewrite ?forallb_app; cbn [forallb];
    repeat match goal with
           | H : forallb isDigit ?ds = true |- _ => rewrite (digits_word _ H)
           end; reflexivity
  | discriminate
  | exact d_digit
  | exact after_nonword
  | intros preds H; apply numberStarts_word, incl, H
  | intros preds H; apply before_plain, incl, H
  | intros preds H; apply after_plain, incl, H
  | intros preds H; unfold shortPrefixes, longPrefixes in H; cbn [map In] in H;
    repeat (destruct H as [<-|H]; [reflexivity|]); destruct H ].

Ltac found k shapes starts incl head :=
  apply (@exec_at_word (nth k patterns valid6) shapes starts);
  [ exact before_nonword
  | intros preds H; apply numberStarts_word, incl, H
  | intros preds H; apply before_plain, incl, H
  | head ].

Ltac reads_letters :=
  intros; rewrite Nat.add_comm; reflexivity.

Lemma long_wins (prefix letters ds : jsstring) :
  In prefix longPrefixes -> map asciiUpper letters = prefix ->
  length ds = 6 -> forallb isDigit ds = true ->
  fst (tryPatterns upperUnicode
         (before ++ (letters ++ ds) ++ [hyphen; d] ++ after) patterns)
  = Some ((prefix ++ ds) ++ [hyphen; d]).
Proof.
  intros Hp Hl Hn Hds.
  assert (Hr : Root (letters ++ ds) (prefix ++ ds)) by now apply RootLong.
  unfold longPrefixes in Hp.
  repeat (destruct Hp as [<-|Hp]); try (now destruct Hp); letter_cases;
    (eapply family_wins with (fam := 4);
     [ reflexivity
     | found 4 (map prefixThenDigit longPrefixes) starts_long in_long
         ltac:(apply (@head_prefixed true longPrefix _ 6);
               [reads_letters|reflexivity|exact before_nonword|exact Hds|exact Hn
               |exact d_digit|exact after_nonword])
     | reflexivity
     | change (firstn 4 patterns)
         with [nth 0 patterns valid6; nth 1 patterns valid6;
               nth 2 patterns valid6; nth 3 patterns valid6];
       cbn [forallb];
       replace (exec (nth 0 patterns valid6) _) with (@None (nat * state))
         by (symmetry; nowhere 0 [nineDigits] starts_nine in_nine);
       replace (exec (nth 1 patterns valid6) _) with (@None (nat * state))
         by (symmetry; nowhere 1 [nineDigits] starts_ten in_nine);
       replace (exec (nth 2 patterns valid6) _) with (@None (nat * state))
         by (symmetry; nowhere 2 [prefixThenDigit (js "EL")] starts_EL in_EL);
       replace (exec (nth 3 patterns valid6) _) with (@None (nat * state))
         by (symmetry; nowhere 3 (map prefixThenDigit shortPrefixes) starts_short in_short);
       reflexivity
     | exact Hr
     | reflexivity
     | exact d_digit ]).
Qed.

Lemma short_wins (prefix letters ds : jsstring) :
  In prefix shortPrefixes -> map asciiUpper letters = prefix ->
  length ds = 4 -> forallb isDigit ds = true ->
  fst (tryPatterns upperUnicode
         (before ++ (letters ++ ds) ++ [hyphen; d] ++ after) patterns)
  = Some ((prefix ++ ds) ++ [hyphen; d]).
Proof.
  intros Hp Hl Hn Hds.
  assert (Hr : Root (letters ++ ds) (prefix ++ ds)) by now apply RootShort.
  unfold shortPrefixes in Hp.
  repeat (destruct Hp as [<-|Hp]); try (now destruct Hp); letter_cases;
    (eapply family_wins with (fam := 3);
     [ reflexivity
     | found 3 (map prefixThenDigit shortPrefixes) starts_short in_short
         ltac:(apply (@head_prefixed true shortPrefix _ 4);
               [reads_letters|reflexivity|exact before_nonword|exact Hds|exact Hn
               |exact d_digit|exact after_nonword])
     | reflexivity
     | change (firstn 3 patterns)
         with [nth 0 patterns valid6; nth 1 patterns valid6;
               nth 2 patterns valid6];
       cbn [forallb];
       replace (exec (nth 0 patterns valid6) _) with (@None (nat * state))
         by (symmetry; nowhere 0 [nineDigits] starts_nine in_nine);
       replace (exec (nth 1 patterns valid6) _) with (@None (nat * state))
         by (symmetry; nowhere 1 [nineDigits] starts_ten in_nine);
       replace (exec (nth 2 patterns valid6) _) with (@None (nat * state))
         by (symmetry; nowhere 2 [prefixThenDigit (js "EL")] starts_EL in_EL);
       reflexivity
     | exact Hr
     | reflexivity
     | exact d_digit ]).
Qed.

Lemma EL_wins (e1 l1 e2 l2 : char) (ds : jsstring) :
  isE e1 = true -> isL l1 = true -> isE e2 = true -> isL l2 = true ->
  length ds = 6 -> forallb isDigit ds = true ->
  fst (tryPatterns upperUnicode
         (before ++ ([e1; l1] ++ ds ++ [e2; l2]) ++ [hyphen; d] ++ after)
         patterns)
  = Some ((js "EL" ++ ds ++ js "EL") ++ [hyphen; d]).
Proof.
  intros He1 Hl1 He2 Hl2 Hn Hds.
  assert (Hr : Root ([e1; l1] ++ ds ++ [e2; l2]) (js "EL" ++ ds ++ js "EL"))
    by now apply RootEL.
  assert (Hhead := @head_EL e1 l1 e2 l2 d ds after (lastOr None before)
                     (length before) He1 Hl1 He2 Hl2 before_nonword
                     Hds Hn d_digit after_nonword).
  assert (W : forallb isWordChar ([e1; l1] ++ ds ++ [e2; l2]) = true).
  { rewrite !forallb_app, (digits_word _ Hds). letter_cases; reflexivity. }
  assert (D : isDigit e1 = false) by (letter_cases; reflexivity).
  eapply family_wins with (fam := 2).
  - reflexivity.
  - apply (@exec_at_word (nth 2 patterns valid6) [prefixThenDigit (js "EL")]
             starts_EL);
      [ exact before_nonword
      | intros preds H; apply numberStarts_word, in_EL, H
      | intros preds H; apply before_plain, in_EL, H
      | exact Hhead ].
  - reflexivity.
  - change (firstn 2 patterns)
      with [nth 0 patterns valid6; nth 1 patterns valid6].
    cbn [forallb].
    assert (Hnine : forall preds, In preds [nineDigits] ->
              matchesAt preds (([e1; l1] ++ ds ++ [e2; l2]) ++ [hyphen]) = false).
    { intros preds [<-|[]]. cbn [app nineDigits repeat matchesAt]. now rewrite D. }
    replace (exec (nth 0 patterns valid6) _) with (@None (nat * state)).
    2:{ symmetry. apply (@exec_nowhere (nth 0 patterns valid6) [nineDigits] starts_nine);
          [ exact before_nonword | exact W | discriminate | exact d_digit
          | exact after_nonword
          | intros preds H; apply numberStarts_word, in_nine, H
          | intros preds H; apply before_plain, in_nine, H
          | intros preds H; apply after_plain, in_nine, H
          | exact Hnine ]. }
    replace (exec (nth 1 patterns valid6) _) with (@None (nat * state)).
    2:{ symmetry. apply (@exec_nowhere (nth 1 patterns valid6) [nineDigits] starts_ten);
          [ exact before_nonword | exact W | discriminate | exact d_digit
          | exact after_nonword
          | intros preds H; apply numberStarts_word, in_nine, H
          | intros preds H; apply before_plain, in_nine, H
          | intros preds H; apply after_plain, in_nine, H
          | exact Hnine ]. }
    reflexivity.
  - exact Hr.
  - cbn [app prefixed]. now rewrite D.
  - exact d_digit.
Qed.

(** A root of a family with a prefix, followed by one suffix, is what the
    cascade returns when no word of the text around it begins like an order
    number. *)
Lemma prefixed_wins (root canonical : jsstring) :
  Root root canonical -> prefixed root = true ->
  fst (tryPatterns upperUnicode
         (before ++ root ++ [hyphen; d] ++ after) patterns)
  = Some (canonical ++ [hyphen; d]).
Proof.
  intros Hr Hx. destruct Hr as
    [prefix letters ds Hp Hl Hn Hds | prefix letters ds Hp Hl Hn Hds
    | e1 l1 e2 l2 ds He1 Hl1 He2 Hl2 Hn Hds | ds Hn Hds | ds Hn Hds | ds Hn Hds].
  - now apply long_wins.
  - now apply short_wins.
  - now apply EL_wins.
  - cbn [prefixed] in Hx. discriminate Hx.
  - destruct ds as [|c ds]; [discriminate Hn|]. cbn [forallb] in Hds.
    apply andb_true_iff in Hds as [Hc _]. cbn [prefixed] in Hx. now rewrite Hc in Hx.
  - destruct ds as [|c ds]; [discriminate Hn|]. cbn [forallb] in Hds.
    apply andb_true_iff in Hds as [Hc _]. cbn [prefixed] in Hx. now rewrite Hc in Hx.
Qed.

End Framed.

(** ** The dash glyphs and the word [Order #] around the number *)

Lemma dashGlyph_nonword (c : char) : isDashGlyph c = true -> isWordChar c = false.
Proof.
  unfold isDashGlyph. intros H. apply orb_true_iff in H as [H|H];
    apply N.eqb_eq in H; subst c; reflexivity.
Qed.

Lemma normalizeDash_word (c : char) : isWordChar (normalizeDash c) = isWordChar c.
Proof.
  unfold normalizeDash. destruct (isDashGlyph c) eqn:E; [|reflexivity].
  now rewrite (dashGlyph_nonword _ E).
Qed.

Lemma normalizeDash_wordOnly (q : char -> bool) (c : char) :
  (forall c', q c' = true -> isWordChar c' = true) -> q (normalizeDash c) = q c.
Proof.
  intros Hq. unfold normalizeDash. destruct (isDashGlyph c) eqn:E; [|reflexivity].
  pose proof (dashGlyph_nonword _ E) as Hc.
  destruct (q hyphen) eqn:E1; [apply Hq in E1; discriminate E1|].
  destruct (q c) eqn:E2; [apply Hq in E2; congruence|reflexivity].
Qed.

Lemma matchesAt_normalized (preds : list (char -> bool)) :
  WordOnly preds ->
  forall s, matchesAt preds (map normalizeDash s) = matchesAt preds s.
Proof.
  induction preds as [|q preds IH]; intros Hw s; [reflexivity|].
  destruct s as [|c s]; [reflexivity|]. cbn [map matchesAt].
  rewrite normalizeDash_wordOnly by (apply Hw; now left).
  rewrite IH; [reflexivity|]. intros q' Hq'. apply Hw. now right.
Qed.

Lemma wordStarts_normalized (preds : list (char -> bool)) :
  WordOnly preds ->
  forall s p,
    wordStarts preds (option_map normalizeDash p) (map normalizeDash s)
    = wordStarts preds p s.
Proof.
  intros Hw. induction s as [|c s IH]; intros p.
  - cbn [map wordStarts]. destruct p as [c|]; cbn [option_map isWordOpt];
      [now rewrite normalizeDash_word|reflexivity].
  - rewrite !wordStarts_cons. change (Some (normalizeDash c))
      with (option_map normalizeDash (Some c)). cbn [map].
    rewrite wordStarts_cons.
    change (normalizeDash c :: map normalizeDash s) with (map normalizeDash (c :: s)).
    rewrite (matchesAt_normalized Hw).
    change (Some (normalizeDash c)) with (option_map normalizeDash (Some c)).
    rewrite IH. destruct p as [c0|]; cbn [option_map isWordOpt];
      [now rewrite normalizeDash_word|reflexivity].
Qed.

Lemma hd_normalized (s : jsstring) :
  isWordOpt (hd_error (map normalizeDash s)) = isWordOpt (hd_error s).
Proof. destruct s as [|c s]; [reflexivity|]. apply normalizeDash_word. Qed.

Lemma lastOr_normalized (s : jsstring) :
  forall p, isWordOpt (lastOr (option_map normalizeDash p) (map normalizeDash s))
            = isWordOpt (lastOr p s).
Proof.
  induction s as [|c s IH]; intros p.
  - destruct p; [apply normalizeDash_word|reflexivity].
  - cbn [map lastOr]. exact (IH (Some c)).
Qed.

Lemma plain_spec (s : jsstring) :
  plain s = true ->
  forall preds, In preds numberStarts -> wordStarts preds None s = false.
Proof.
  unfold plain. intros H preds Hin. rewrite forallb_forall in H.
  apply negb_true_iff. now apply H.
Qed.

Lemma plain_normalized (s : jsstring) :
  plain s = true ->
  forall preds, In preds numberStarts ->
    wordStarts preds None (map normalizeDash s) = false.
Proof.
  intros H preds Hin. change (@None char) with (option_map normalizeDash None).
  rewrite wordStarts_normalized by (apply (numberStarts_word Hin)).
  now apply plain_spec.
Qed.

(** No word of [Order #] begins like an order number, whatever comes
    before it, and nothing that begins before it goes on into it. *)
Lemma label_plain (preds : list (char -> bool)) (x : jsstring) :
  In preds numberStarts -> wordStarts preds None x = false ->
  wordStarts preds None (x ++ js "Order #") = false.
Proof.
  intros Hin Hx.
  assert (Hne : preds <> []).
  { destruct (numberStarts_word Hin) as [_ Hl].
    destruct preds; [cbn in Hl; lia|discriminate]. }
  assert (Hstop : forall q, In q (tl preds) -> q 79%N = false).
  { unfold numberStarts, shortPrefixes, longPrefixes in Hin. cbn [map app In] in Hin.
    repeat (destruct Hin as [<-|Hin]);
      try (intros q Hq; cbn in Hq;
           repeat (destruct Hq as [<-|Hq]; [reflexivity|]); now destruct Hq).
    destruct Hin. }
  rewrite wordStarts_app; [|exact Hne|apply closed_stop; exact Hstop].
  rewrite Hx. cbn [orb].
  assert (Hlabel : matchesAt preds (js "Order #") = false
                   /\ wordStarts preds (Some 79%N) (js "rder #") = false).
  { unfold numberStarts, shortPrefixes, longPrefixes in Hin. cbn [map app In] in Hin.
    repeat (destruct Hin as [<-|Hin]); try (split; vm_compute; reflexivity).
    destruct Hin. }
  destruct Hlabel as [H1 H2].
  change (js "Order #") with (79%N :: js "rder #") in *.
  rewrite wordStarts_cons. apply orb_false_iff.
  split; [apply andb_false_iff; right; exact H1|exact H2].
Qed.

Lemma word_noDashGlyph (c : char) : isWordChar c = true -> noDashGlyph c = true.
Proof.
  intros H. unfold noDashGlyph. destruct (isDashGlyph c) eqn:E; [|reflexivity].
  rewrite (dashGlyph_nonword _ E) in H. discriminate H.
Qed.

Lemma Root_word (root canonical : jsstring) :
  Root root canonical -> forallb isWordChar root = true.
Proof.
  intros [prefix letters ds Hp Hl Hn Hds | prefix letters ds Hp Hl Hn Hds
         | e1 l1 e2 l2 ds He1 Hl1 He2 Hl2 Hn Hds | ds Hn Hds | ds Hn Hds | ds Hn Hds].
  - rewrite forallb_app, (digits_word _ Hds). unfold longPrefixes in Hp.
    repeat (destruct Hp as [<-|Hp]); try (now destruct Hp); letter_cases; reflexivity.
  - rewrite forallb_app, (digits_word _ Hds). unfold shortPrefixes in Hp.
    repeat (destruct Hp as [<-|Hp]); try (now destruct Hp); letter_cases; reflexivity.
  - rewrite !forallb_app, (digits_word _ Hds). letter_cases; reflexivity.
  - cbn [forallb]. now rewrite (digits_word _ Hds).
  - now apply digits_word.
  - now apply digits_word.
Qed.

Lemma normalized_number (root canonical pre post : jsstring) (d : char) :
  Root root canonical -> isDigit d = true ->
  map normalizeDash (pre ++ root ++ [hyphen; d] ++ post)
  = map normalizeDash pre ++ root ++ [hyphen; d] ++ map normalizeDash post.
Proof.
  intros Hr Hd. rewrite !map_app. f_equal. f_equal.
  - apply normalizeDash_fixed.
    apply (forallb_impl _ _ _ word_noDashGlyph (Root_word Hr)).
  - f_equal. cbn [map]. change (normalizeDash hyphen) with hyphen.
    replace (normalizeDash d) with d; [reflexivity|].
    unfold normalizeDash. destruct (isDashGlyph d) eqn:E; [|reflexivity].
    apply dashGlyph_nonword in E. rewrite (digit_isWordChar _ Hd) in E.
    discriminate E.
Qed.

(** C5, as the code has it.  An order number of a family with a prefix
    (EL...EL, R, AL, EJR, EJC, MH) with one suffix, after the label
    [Order #] or standing as a word of its own, is what [extractOrderNumber]
    returns, in canonical case, whatever else the text holds -- bare
    numbers of six digits with a suffix among it -- provided that no word of
    the rest begins like an order number that the cascade tries before the
    bare numbers of six digits (with nine digits, or with one of the
    prefixes and a digit) and that no word character follows the number. *)
Theorem labelled_prefixed_wins (upperUnicode : jsstring -> jsstring)
    (root canonical pre post : jsstring) (d : char) :
  Root root canonical -> prefixed root = true -> isDigit d = true ->
  plain pre = true -> plain post = true -> isWordOpt (hd_error post) = false ->
  fst (extractOrderNumber upperUnicode
         (pre ++ js "Order #" ++ root ++ [hyphen; d] ++ post))
  = Some (canonical ++ [hyphen; d])
  /\ (isWordOpt (lastOr None pre) = false ->
      fst (extractOrderNumber upperUnicode (pre ++ root ++ [hyphen; d] ++ post))
      = Some (canonical ++ [hyphen; d])).
Proof.
  intros Hr Hx Hd Hpre Hpost Hhd. split.
  - rewrite extractOrderNumber_fst, replaceAll_dashGlyphs.
    rewrite (app_assoc pre), (@normalized_number root canonical _ post d Hr Hd), map_app.
    change (map normalizeDash (js "Order #")) with (js "Order #").
    apply prefixed_wins; [|exact Hd|now rewrite hd_normalized| |
                          |exact Hr|exact Hx].
    + now rewrite lastOr_app.
    + intros preds Hin. apply label_plain; [exact Hin|].
      now apply plain_normalized.
    + now apply plain_normalized.
  - intros Hlast. rewrite extractOrderNumber_fst, replaceAll_dashGlyphs.
    rewrite (@normalized_number root canonical pre post d Hr Hd).
    apply prefixed_wins; [|exact Hd|now rewrite hd_normalized| |
                          |exact Hr|exact Hx].
    + change (@None char) with (option_map normalizeDash None).
      now rewrite lastOr_normalized.
    + now apply plain_normalized.
    + now apply plain_normalized.
Qed.

Lemma labelled_prefixed_wins_witness :
  Root (js "R" ++ js "3817") (js "R" ++ js "3817")
  /\ prefixed (js "R" ++ js "3817") = true /\ isDigit 49%N = true
  /\ plain (js "Ship to: J. Doe, ") = true
  /\ plain (js ", item 123456-1 qty 2") = true
  /\ isWordOpt (hd_error (js ", item 123456-1 qty 2")) = false
  /\ js "Ship to: J. Doe, Order #R3817-1, item 123456-1 qty 2"
     = js "Ship to: J. Doe, " ++ js "Order #" ++ (js "R" ++ js "3817")
       ++ [hyphen; 49%N] ++ js ", item 123456-1 qty 2"
  /\ fst (extractOrderNumber upperKeep
            (js "Ship to: J. Doe, " ++ js "Order #" ++ (js "R" ++ js "3817")
             ++ [hyphen; 49%N] ++ js ", item 123456-1 qty 2"))
     = Some ((js "R" ++ js "3817") ++ [hyphen; 49%N])
  /\ Root (js "al" ++ js "5862") (js "AL" ++ js "5862")
  /\ plain [] = true /\ plain (js " 123456-1") = true
  /\ js "Order #al5862-1 123456-1"
     = [] ++ js "Order #" ++ (js "al" ++ js "5862") ++ [hyphen; 49%N]
       ++ js " 123456-1"
  /\ fst (extractOrderNumber upperKeep
            ([] ++ js "Order #" ++ (js "al" ++ js "5862") ++ [hyphen; 49%N]
             ++ js " 123456-1"))
     = Some ((js "AL" ++ js "5862") ++ [hyphen; 49%N])
  /\ Root (js "mh" ++ js "649453") (js "MH" ++ js "649453")
  /\ plain (js "123456-1  ") = true
  /\ isWordOpt (lastOr None (js "123456-1  ")) = false
  /\ fst (extractOrderNumber upperKeep
            (js "123456-1  " ++ (js "mh" ++ js "649453") ++ [hyphen; 50%N] ++ []))
     = Some ((js "MH" ++ js "649453") ++ [hyphen; 50%N])
  /\ fst (extractOrderNumber upperKeep
            ([] ++ (js "R" ++ js "3817") ++ [hyphen; 49%N] ++ js " 123456-1"))
     = Some ((js "R" ++ js "3817") ++ [hyphen; 49%N]).
Proof.
  assert (HR : Root (js "R" ++ js "3817") (js "R" ++ js "3817"))
    by (apply RootShort; [now left|reflexivity|reflexivity|reflexivity]).
  assert (HAL : Root (js "al" ++ js "5862") (js "AL" ++ js "5862"))
    by (apply RootShort; [right; now left|reflexivity|reflexivity|reflexivity]).
  assert (HMH : Root (js "mh" ++ js "649453") (js "MH" ++ js "649453"))
    by (apply RootLong; [right; right; now left|reflexivity|reflexivity|reflexivity]).
  split; [exact HR|]. do 6 (split; [vm_compute; reflexivity|]).
  split.
  { apply (@labelled_prefixed_wins upperKeep (js "R" ++ js "3817")
             (js "R" ++ js "3817") (js "Ship to: J. Doe, ")
             (js ", item 123456-1 qty 2") 49%N HR);
      vm_compute; reflexivity. }
  split; [exact HAL|]. do 3 (split; [vm_compute; reflexivity|]).
  split.
  { apply (@labelled_prefixed_wins upperKeep (js "al" ++ js "5862")
             (js "AL" ++ js "5862") [] (js " 123456-1") 49%N HAL);
      vm_compute; reflexivity. }
  split; [exact HMH|]. do 2 (split; [vm_compute; reflexivity|]).
  split.
  - apply (@labelled_prefixed_wins upperKeep (js "mh" ++ js "649453")
             (js "MH" ++ js "649453") (js "123456-1  ") [] 50%N HMH);
      vm_compute; reflexivity.
  - apply (@labelled_prefixed_wins upperKeep (js "R" ++ js "3817")
             (js "R" ++ js "3817") [] (js " 123456-1") 49%N HR);
      vm_compute; reflexivity.
Defined.

(** The labelled number among other text, in three more texts. *)
Example labelled_among_text :
  fst (extractOrderNumber upperKeep (js "Order #AL5862-1 123456-1")) = Some (js "AL5862-1")
  /\ fst (extractOrderNumber upperKeep (js "R3817-1 123456-1")) = Some (js "R3817-1")
  /\ fst (extractOrderNumber upperKeep (js "Order #R3817-1  123456-1")) = Some (js "R3817-1").
Proof. repeat split; vm_compute; reflexivity. Qed.

(** * The log of a successful extraction *)

Lemma step_capWithin (lo : nat) (f : char -> bool) (st st' : state) :
  capWithin lo st -> In st' (step f st) -> capWithin lo st'.
Proof.
  unfold step, capWithin. destruct (rest st) as [|c s]; [intros _ []|].
  destruct (f c); [|intros _ []]. intros [H1 H2] [<-|[]]. cbn [pos cap].
  split; [lia|]. destruct (cap st) as [[a b]|]; [lia|exact I].
Qed.

Lemma repeatMatcher_capWithin (lo : nat) (f : state -> list state) :
  (forall st st', capWithin lo st -> In st' (f st) -> capWithin lo st') ->
  forall fuel min max st st',
    capWithin lo st -> In st' (repeatMatcher f fuel min max st) -> capWithin lo st'.
Proof.
  intros Hf. induction fuel as [|fuel IH]; intros min max st st' Hst H; [destruct H|].
  simpl in H.
  assert (Hiter : forall m l, (forall x, In x l -> capWithin lo x) ->
            In st' (flat_map (repeatMatcher f fuel m (decrMax max)) l) ->
            capWithin lo st').
  { intros m l Hl Hin. apply in_flat_map in Hin as (x & Hx & Hx').
    eapply IH; [apply Hl, Hx|exact Hx']. }
  assert (Hbody : In st'
            match min with
            | S min' => flat_map (repeatMatcher f fuel min' (decrMax max)) (f st)
            | 0 => flat_map (repeatMatcher f fuel 0 (decrMax max))
                     (filter (fun x => negb (pos x =? pos st)) (f st)) ++ [st]
            end -> capWithin lo st').
  { destruct min as [|min'].
    - intros Hin. apply in_app_or in Hin as [Hin|[<-|[]]]; [|exact Hst].
      eapply Hiter; [|exact Hin]. intros x Hx. apply filter_In in Hx as [Hx _].
      now apply (Hf st).
    - apply Hiter. intros x Hx. now apply (Hf st). }
  destruct max as [[|n]|]; [destruct H as [<-|[]]; exact Hst| |]; auto.
Qed.

(** The group of a match lies inside the match. *)
Lemma matcher_capWithin (ic : bool) (lo : nat) (r : regex) :
  forall st st', capWithin lo st -> In st' (matcher ic r st) -> capWithin lo st'.
Proof.
  induction r; intros st st' Hst H; cbn [matcher] in H;
    try (eapply step_capWithin; [exact Hst|exact H]).
  - destruct (xorb _ _); [destruct H as [<-|[]]; exact Hst|destruct H].
  - destruct (prev st); [destruct H|destruct H as [<-|[]]; exact Hst].
  - destruct (rest st); [destruct H as [<-|[]]; exact Hst|destruct H].
  - destruct H as [<-|[]]; exact Hst.
  - apply in_flat_map in H as (x & Hx & Hx'). eauto.
  - apply in_app_or in H as [H|H]; eauto.
  - eapply repeatMatcher_capWithin; [exact IHr|exact Hst|exact H].
  - apply in_map_iff in H as (x & <- & Hx).
    pose proof (matcher_shrinks _ _ _ _ Hx) as [_ Hp].
    destruct Hst as [Hlo _]. unfold capWithin, setCap. cbn [pos cap]. lia.
Qed.

(** What a match reads: digits, white space, and the characters written in
    the expression. *)
Lemma Matches_literals (ic : bool) (r : regex) (p : option char) (w s : jsstring) :
  Matches ic r p w s ->
  forall c, In c w ->
    isDigit c = true \/ isSpace c = true
    \/ exists a, In a (literals r) /\ charEq ic a c = true.
Proof.
  induction 1; cbn [literals]; intros x Hx; try (now destruct Hx).
  - destruct Hx as [<-|[]]. right; right. exists c. split; [now left|exact H].
  - destruct Hx as [<-|[]]. now left.
  - destruct Hx as [<-|[]]. right; now left.
  - destruct Hx as [<-|[]]. right; right. apply existsb_exists in H. exact H.
  - apply in_app_or in Hx as [Hx|Hx];
      [destruct (IHMatches1 _ Hx) as [?|[?|(a & Ha & E)]]
      |destruct (IHMatches2 _ Hx) as [?|[?|(a & Ha & E)]]]; auto;
      right; right; exists a; (split; [apply in_or_app; auto|exact E]).
  - destruct (IHMatches _ Hx) as [?|[?|(a & Ha & E)]]; auto.
    right; right; exists a. split; [apply in_or_app; auto|exact E].
  - destruct (IHMatches _ Hx) as [?|[?|(a & Ha & E)]]; auto.
    right; right; exists a. split; [apply in_or_app; auto|exact E].
  - apply in_app_or in Hx as [Hx|Hx]; auto.
  - auto.
Qed.

Lemma charEq_plain (ic : bool) (a c : char) :
  isAscii a || isDashGlyph a = true -> charEq ic a c = true ->
  isAscii c || isDashGlyph c = true.
Proof.
  unfold charEq, isAscii, isDashGlyph, emDash, enDash. intros Ha E.
  apply N.eqb_eq in E. destruct ic; unfold canonicalize in E; [|now subst].
  destruct (asciiUpper_cases a) as [[Ha' Ea]|[Ha' Ea]],
           (asciiUpper_cases c) as [[Hc Ec]|[Hc Ec]]; rewrite Ea, Ec in E.
  - apply orb_true_iff. left. apply N.ltb_lt. lia.
  - apply orb_true_iff. left. apply N.ltb_lt. lia.
  - apply orb_true_iff in Ha as [Ha|Ha].
    + apply N.ltb_lt in Ha. apply orb_true_iff. left. apply N.ltb_lt. lia.
    + apply orb_true_iff in Ha as [Ha|Ha]; apply N.eqb_eq in Ha; lia.
  - now subst.
Qed.

Lemma In_skipn (A : Type) (n : nat) (l : list A) (x : A) :
  In x (skipn n l) -> In x l.
Proof.
  revert l; induction n as [|n IH]; intros [|a l]; simpl; try tauto.
  intros H; right; now apply IH.
Qed.

(** A part of a text between two positions of a part [w] is made of
    characters of [w]. *)
Lemma substring_within (a0 w s : jsstring) (a b : nat) (x : char) :
  length a0 <= a -> b <= length a0 + length w ->
  In x (substring (a0 ++ w ++ s) a b) -> In x w.
Proof.
  intros Ha Hb. unfold substring.
  replace a with ((a - length a0) + length a0) at 2 by lia.
  rewrite <- skipn_skipn, skipn_app, skipn_all, Nat.sub_diag. cbn [skipn app].
  rewrite skipn_app, firstn_app. intros H. apply in_app_or in H as [H|H].
  - apply firstn_In in H. now apply In_skipn in H.
  - replace (b - a - length (skipn (a - length a0) w)) with 0 in H
      by (rewrite length_skipn; lia).
    destruct H.
Qed.

Lemma patterns_literals :
  forallb (fun pattern =>
             forallb (fun a => isAscii a || isDashGlyph a) (literals (tree pattern)))
    patterns = true.
Proof. vm_compute. reflexivity. Qed.

(** What a pattern of the cascade captures in a text without dash glyphs is
    white space and ASCII: digits, letters, hyphens. *)
Lemma exec_reads (pattern : regexp) (text : jsstring) (mt : nat * state) :
  In pattern patterns -> forallb noDashGlyph text = true ->
  exec pattern text = Some mt ->
  forallb (fun c => isSpace c || isAscii c)
    (orElse (group1 text mt) (group0 text mt)) = true.
Proof.
  intros Hin Hg H. destruct mt as [start st']. unfold exec in H.
  apply searchFrom_Some in H as (a0 & s1 & l & -> & -> & Hm).
  change (0 + length a0) with (length a0) in *.
  assert (Hst : In st' (matcher (ignoreCase pattern) (tree pattern)
                          (mkState (lastOr None a0) (length a0) s1 None)))
    by (rewrite Hm; now left).
  assert (Hinit : capWithin (length a0)
                    (mkState (lastOr None a0) (length a0) s1 None))
    by (split; [apply le_n|exact I]).
  pose proof (matcher_capWithin _ _ _ Hinit Hst) as [_ Hcap].
  apply matcher_sound in Hst as (w & E & Hp & _ & M). cbn [rest pos prev] in E, Hp, M.
  subst s1.
  assert (Hw : forall c, In c w -> isSpace c || isAscii c = true).
  { intros c Hc.
    assert (Hn : noDashGlyph c = true).
    { rewrite forallb_forall in Hg. apply Hg.
      apply in_or_app; right; apply in_or_app; now left. }
    destruct (Matches_literals M _ Hc) as [Hd|[Hs|(a & Ha & Ea)]].
    - apply digit_bounds in Hd. apply orb_true_iff; right. apply N.ltb_lt. lia.
    - now rewrite Hs.
    - pose proof patterns_literals as Hl. rewrite forallb_forall in Hl.
      specialize (Hl _ Hin). rewrite forallb_forall in Hl.
      pose proof (charEq_plain _ _ _ (Hl _ Ha) Ea) as Hc'.
      unfold noDashGlyph in Hn. apply negb_true_iff in Hn. rewrite Hn in Hc'.
      rewrite orb_false_r in Hc'. rewrite Hc'. apply orb_true_r. }
  apply forallb_forall. intros c Hc.
  assert (H0 : group0 (a0 ++ w ++ rest st') (length a0, st') = w).
  { unfold group0. cbn [fst snd]. rewrite Hp. apply substring_app. }
  unfold group1 in Hc. cbn [snd] in Hc.
  destruct (cap st') as [[a b]|].
  - destruct (substring (a0 ++ w ++ rest st') a b) as [|y g] eqn:Eg.
    + cbn [orElse] in Hc. rewrite H0 in Hc. auto.
    + cbn [orElse] in Hc. rewrite <- Eg in Hc. apply Hw.
      apply substring_within in Hc; [exact Hc|lia|lia].
  - cbn [orElse] in Hc. rewrite H0 in Hc. auto.
Qed.

Lemma filter_notSpace_trim (s : jsstring) :
  filter notSpace (trim s) = filter notSpace s.
Proof.
  unfold trim. rewrite filter_rev, filter_dropWhile_isSpace, <- filter_rev.
  rewrite rev_involutive. apply filter_dropWhile_isSpace.
Qed.

(** The clean-up of a match of a text without dash glyphs takes the white
    space out and leaves the rest as it is. *)
Lemma cleanUp_filter (s : jsstring) :
  forallb noDashGlyph s = true -> cleanUp s = filter notSpace s.
Proof.
  intros H. unfold cleanUp.
  rewrite replaceAll_dashGlyphs, replaceAll_spaceRuns, filter_notSpace_trim.
  apply normalizeDash_fixed. apply forallb_forall. intros c Hc.
  apply filter_In in Hc as [Hc _]. rewrite forallb_forall in H. auto.
Qed.

Lemma normalized_noDashGlyph (text : jsstring) :
  forallb noDashGlyph (map normalizeDash text) = true.
Proof.
  apply forallb_forall. intros c Hc. apply in_map_iff in Hc as (x & <- & _).
  unfold normalizeDash, noDashGlyph. destruct (isDashGlyph x) eqn:E; [reflexivity|].
  now rewrite E.
Qed.

Section UpperCased.

Variable upperUnicode : jsstring -> jsstring.

Lemma toUpperCase_all_ascii (s : jsstring) :
  forallb isAscii s = true -> toUpperCase upperUnicode s = map asciiUpper s.
Proof.
  induction s as [|c s IH]; [reflexivity|]. cbn [forallb toUpperCase map].
  intros H. apply andb_true_iff in H as [Hc H]. unfold isAscii in Hc.
  now rewrite Hc, IH.
Qed.

Lemma replaceEL_pair (c1 c2 : char) (t : jsstring) :
  replaceEL (c1 :: c2 :: t)
  = if isE c1 && isL c2 then 69%N :: 76%N :: replaceEL t
    else c1 :: replaceEL (c2 :: t).
Proof. reflexivity. Qed.

Lemma replaceEL_upper :
  forall n s, length s <= n -> map asciiUpper (replaceEL s) = map asciiUpper s.
Proof.
  induction n as [|n IH]; intros s Hn.
  - destruct s; [reflexivity|cbn in Hn; lia].
  - destruct s as [|c1 [|c2 t]]; [reflexivity|reflexivity|].
    rewrite replaceEL_pair. cbn [length] in Hn.
    destruct (isE c1 && isL c2) eqn:E.
    + apply andb_true_iff in E as [E1 E2].
      destruct (isE_upper _ E1) as [_ U1]. destruct (isL_upper _ E2) as [_ U2].
      cbn [map]. rewrite U1, U2. do 2 f_equal. apply IH. lia.
    + rewrite (map_cons asciiUpper c1 (replaceEL (c2 :: t))).
      rewrite IH by (cbn [length]; lia). reflexivity.
Qed.

Lemma normalizePrefix_upper (s : jsstring) (prefixes : list jsstring) :
  forallb isAscii s = true ->
  (forall prefix, In prefix prefixes ->
     toUpperCase upperUnicode prefix = prefix /\ map asciiUpper prefix = prefix) ->
  map asciiUpper (normalizePrefix upperUnicode s prefixes) = map asciiUpper s.
Proof.
  intros Hs. induction prefixes as [|prefix prefixes IH]; intros Hp; [reflexivity|].
  cbn [normalizePrefix]. destruct (Hp prefix (or_introl eq_refl)) as [E1 E2].
  rewrite E1, (toUpperCase_all_ascii _ Hs).
  destruct (startsWith (map asciiUpper s) prefix) eqn:E.
  - apply startsWith_iff in E as (r & E).
    rewrite map_app, E2, <- skipn_map, E, skipn_app, skipn_all, Nat.sub_diag.
    reflexivity.
  - apply IH. intros q Hq. apply Hp. now right.
Qed.

(** The special handling of the case only changes the case of letters. *)
Lemma normalizeCase_upper (s : jsstring) :
  forallb isAscii s = true ->
  map asciiUpper (normalizeCase upperUnicode s) = map asciiUpper s.
Proof.
  intros Hs. unfold normalizeCase.
  destruct (startsWith _ _ && includes _ _).
  - rewrite replaceAll_elPairs. now apply replaceEL_upper with (n := length s).
  - apply normalizePrefix_upper; [exact Hs|].
    intros prefix Hp. unfold longPrefixes, shortPrefixes in Hp. cbn [app] in Hp.
    repeat (destruct Hp as [<-|Hp]; [split; reflexivity|]). destruct Hp.
Qed.

(** The candidate of a match of a text without dash glyphs is what the match
    captured without its white space, up to the case of the letters. *)
Lemma candidate_upper (pattern : regexp) (text : jsstring) (mt : nat * state) :
  In pattern patterns -> forallb noDashGlyph text = true ->
  exec pattern text = Some mt ->
  map asciiUpper (candidate upperUnicode text mt)
  = map asciiUpper (filter notSpace (orElse (group1 text mt) (group0 text mt))).
Proof.
  intros Hin Hg H. pose proof (exec_reads _ Hin Hg H) as Hr.
  unfold candidate.
  assert (Hn : forallb noDashGlyph (orElse (group1 text mt) (group0 text mt)) = true).
  { apply forallb_forall. intros c Hc. rewrite forallb_forall in Hg. apply Hg.
    unfold group1, group0, substring in Hc.
    destruct (cap (snd mt)) as [[a b]|]; cbn [orElse] in Hc.
    - destruct (firstn (b - a) (skipn a text)) as [|y g] eqn:Eg.
      + apply firstn_In in Hc. now apply In_skipn in Hc.
      + rewrite <- Eg in Hc. apply firstn_In in Hc. now apply In_skipn in Hc.
    - apply firstn_In in Hc. now apply In_skipn in Hc. }
  rewrite (cleanUp_filter _ Hn). apply normalizeCase_upper.
  apply forallb_forall. intros c Hc. apply filter_In in Hc as [Hc Hs].
  rewrite forallb_forall in Hr. specialize (Hr _ Hc).
  unfold notSpace in Hs. apply negb_true_iff in Hs. now rewrite Hs in Hr.
Qed.

Lemma tryPatterns_found (text : jsstring) (ps : list regexp) (found : jsstring) :
  fst (tryPatterns upperUnicode text ps) = Some found ->
  exists i pattern mt,
    nth_error ps i = Some pattern
    /\ exec pattern text = Some mt
    /\ found = candidate upperUnicode text mt
    /\ exists notes,
         snd (tryPatterns upperUnicode text ps)
         = notes ++ [(INFO, js "Found order number: " ++ found
                            ++ js " (matched pattern: " ++ toString pattern
                            ++ js ")")].
Proof.
  induction ps as [|pattern ps IH]; [discriminate|].
  rewrite tryPatterns_fst. cbn [tryPatterns].
  destruct (exec pattern text) as [mt|] eqn:E.
  - destruct (isValidFormat (candidate upperUnicode text mt)) eqn:V.
    + intros [= <-]. exists 0, pattern, mt. repeat split; [exact E|].
      exists []. rewrite snd_bind. reflexivity.
    + intros H. destruct (IH H) as (i & p & mt' & Hin & Hex & Hc & notes & Hn).
      exists (S i), p, mt'. repeat split; [exact Hin|exact Hex|exact Hc|].
      rewrite snd_bind, Hn. cbn [info snd fst].
      eexists. rewrite app_assoc. reflexivity.
  - intros H. destruct (IH H) as (i & p & mt' & Hin & Hex & Hc & notes & Hn).
    exists (S i), p, mt'. repeat split; [exact Hin|exact Hex|exact Hc|].
    exists notes. exact Hn.
Qed.

(** X21.  When [extractOrderNumber] returns an order number, the last line
    it has logged, at level INFO, gives that order number and the source of
    the pattern that found it, as JavaScript prints it: the pattern at some
    place of the cascade, which matches the text with its dashes
    normalized, and of whose match the order number is the captured group
    without its white space, up to the case of its letters. *)
Theorem found_order_number_logged (text found : jsstring) :
  fst (extractOrderNumber upperUnicode text) = Some found ->
  exists i pattern mt printed,
    nth_error patterns i = Some pattern
    /\ nth_error cascadeSources i = Some printed
    /\ exec pattern (map normalizeDash text) = Some mt
    /\ map asciiUpper found
       = map asciiUpper
           (filter notSpace (orElse (group1 (map normalizeDash text) mt)
                                    (group0 (map normalizeDash text) mt)))
    /\ last (snd (extractOrderNumber upperUnicode text)) (INFO, [])
       = (INFO, js "Found order number: " ++ found ++ js " (matched pattern: "
                ++ printed ++ js ")").
Proof.
  intros H. pose proof H as H'. rewrite extractOrderNumber_fst in H'.
  destruct (tryPatterns_found _ _ H')
    as (i & pattern & mt & Hi & Hex & Hc & notes & Hn).
  rewrite replaceAll_dashGlyphs in Hex, Hc.
  exists i, pattern, mt, (toString pattern). split; [exact Hi|]. split.
  - rewrite <- patterns_printed. now apply map_nth_error.
  - split; [exact Hex|]. split.
    + rewrite Hc. apply candidate_upper with (pattern := pattern);
        [exact (nth_error_In _ _ Hi)|apply normalized_noDashGlyph|exact Hex].
    + unfold extractOrderNumber. rewrite !snd_bind. rewrite H'.
      cbn [ret snd fst info]. rewrite Hn, app_nil_r, app_assoc. apply last_last.
Qed.

End UpperCased.

Lemma found_order_number_logged_witness :
  fst (extractOrderNumber upperKeep sampleText) = Some sampleOrderNumber
  /\ last (snd (extractOrderNumber upperKeep sampleText)) (INFO, [])
     = (INFO, js "Found order number: R3817-1 (matched pattern: /\b((?:R|AL)\d{4}(?:-\d)?)\b/i)")
  /\ exists i pattern mt printed,
       nth_error patterns i = Some pattern
       /\ nth_error cascadeSources i = Some printed
       /\ exec pattern (map normalizeDash sampleText) = Some mt
       /\ map asciiUpper sampleOrderNumber
          = map asciiUpper
              (filter notSpace (orElse (group1 (map normalizeDash sampleText) mt)
                                       (group0 (map normalizeDash sampleText) mt)))
       /\ last (snd (extractOrderNumber upperKeep sampleText)) (INFO, [])
          = (INFO, js "Found order number: " ++ sampleOrderNumber
                   ++ js " (matched pattern: " ++ printed ++ js ")").
Proof.
  split; [exact sample_order|]. split; [vm_compute; reflexivity|].
  exact (@found_order_number_logged upperKeep _ _ sample_order).
Defined.

(** * The messages, the requests and the files of a run *)







(** X3.  The requests of [processOrder], in their order: the lookup of the
    order number (GET), then, when the service answered with orders of
    which one awaits shipment, the request that marks the first such order
    as shipped (POST, with its id, the carrier usps and the tracking
    number), then at most the request that assigns the user (POST, with the
    same id). *)
Theorem processOrder_requests_in_order (orderNumber trackingNumber : jsstring)
    (t : list event) (o : outcome result) :
  Run (processOrder orderNumber trackingNumber) t o ->
  requests t
  = [fetch (js "https://shipstation-proxy.info-ba2.workers.dev/orders?orderNumber="
            ++ orderNumber)
       (mkRequestInit (js "GET") [(js "Content-Type", js "application/json")] None)]
  \/ exists data before firstUnfulfilled after,
       lookups t = [data]
       /\ ordersOf data = before ++ firstUnfulfilled :: after
       /\ orderStatus firstUnfulfilled = js "awaiting_shipment"
       /\ (forall x, In x before -> orderStatus x <> js "awaiting_shipment")
       /\ exists next,
            requests t
            = [fetch (js "https://shipstation-proxy.info-ba2.workers.dev/orders?orderNumber="
                      ++ orderNumber)
                 (mkRequestInit (js "GET")
                    [(js "Content-Type", js "application/json")] None);
               fetch (js "https://shipstation-proxy.info-ba2.workers.dev/orders/markasshipped")
                 (mkRequestInit (js "POST")
                    [(js "Content-Type", js "application/json")]
                    (Some (markAsShippedBody (orderId firstUnfulfilled) (js "usps")
                             trackingNumber true true)))]
              ++ next
            /\ (next = []
                \/ next
                   = [fetch (js "https://shipstation-proxy.info-ba2.workers.dev/orders/assignuser")
                        (mkRequestInit (js "POST")
                           [(js "Content-Type", js "application/json")]
                           (Some (assignUserBody [orderId firstUnfulfilled]
                                    (js "1f021469-eff0-4cf3-a9ab-e6edccdc84f7"))))]).
Proof.
  intros R.
  destruct (Run_always R _ (processOrder_runs orderNumber trackingNumber))
    as (r & _ & _ & _ & _ & _ & [H|(data & x & Hl & Hfind & H)] & _);
    [left; exact H|right].
  apply find_first in Hfind as (before & after & E & Hx & Hb).
  exists data, before, x, after. split; [exact Hl|]. split; [exact E|].
  split; [now apply eqString_eq|]. split.
  - intros y Hy Ey. apply Hb in Hy. apply eqString_eq in Ey.
    unfold awaitingShipment in Hy. congruence.
  - destruct H as [H|H]; rewrite H; eexists; (split; [reflexivity|]);
      [now left|now right].
Qed.

Lemma processOrder_requests_in_order_witness :
  Run (processOrder sampleOrderNumber sampleTracking)
      (shippedTrace sampleOrderNumber sampleTracking) (Returned shippedResult)
  /\ (requests (shippedTrace sampleOrderNumber sampleTracking)
      = [fetch (js "https://shipstation-proxy.info-ba2.workers.dev/orders?orderNumber="
                ++ sampleOrderNumber)
           (mkRequestInit (js "GET") [(js "Content-Type", js "application/json")]
              None)]
      \/ exists data before firstUnfulfilled after,
           lookups (shippedTrace sampleOrderNumber sampleTracking) = [data]
           /\ ordersOf data = before ++ firstUnfulfilled :: after
           /\ orderStatus firstUnfulfilled = js "awaiting_shipment"
           /\ (forall x, In x before -> orderStatus x <> js "awaiting_shipment")
           /\ exists next,
                requests (shippedTrace sampleOrderNumber sampleTracking)
                = [fetch (js "https://shipstation-proxy.info-ba2.workers.dev/orders?orderNumber="
                          ++ sampleOrderNumber)
                     (mkRequestInit (js "GET")
                        [(js "Content-Type", js "application/json")] None);
                   fetch (js "https://shipstation-proxy.info-ba2.workers.dev/orders/markasshipped")
                     (mkRequestInit (js "POST")
                        [(js "Content-Type", js "application/json")]
                        (Some (markAsShippedBody (orderId firstUnfulfilled)
                                 (js "usps") sampleTracking true true)))]
                  ++ next
                /\ (next = []
                    \/ next
                       = [fetch (js "https://shipstation-proxy.info-ba2.workers.dev/orders/assignuser")
                            (mkRequestInit (js "POST")
                               [(js "Content-Type", js "application/json")]
                               (Some (assignUserBody [orderId firstUnfulfilled]
                                        (js "1f021469-eff0-4cf3-a9ab-e6edccdc84f7"))))])).
Proof.
  split; [apply shipped_runs|].
  exact (@processOrder_requests_in_order _ _ _ _
           (shipped_runs sampleOrderNumber sampleTracking)).
Defined.

Section FileRequests.

Variable upperUnicode : jsstring -> jsstring.

(** X10.  [processPDFFile] sends requests only with identifiers that the two
    extractors returned for the recognized text: the lookup carries the
    order number, which is of a valid format, and the request that marks
    the order as shipped carries the tracking number, 20 to 22 digits, and
    the id of the first order that awaits shipment. *)
Theorem requests_carry_validated_identifiers (filePath : jsstring)
    (t : list event) (o : outcome result) :
  Run (processPDFFile upperUnicode filePath) t o ->
  requests t = []
  \/ exists imagePath text found tracking,
       recognized t = [(imagePath, text)]
       /\ fst (extractOrderNumber upperUnicode text) = Some found
       /\ fst (extractTrackingNumber filePath text) = Some tracking
       /\ isValidFormat found = true
       /\ forallb isDigit tracking = true
       /\ 20 <= length tracking <= 22
       /\ exists later,
            requests t
            = fetch (js "https://shipstation-proxy.info-ba2.workers.dev/orders?orderNumber="
                     ++ found)
                (mkRequestInit (js "GET")
                   [(js "Content-Type", js "application/json")] None)
              :: later
            /\ (later = []
                \/ exists data before firstUnfulfilled after next,
                     lookups t = [data]
                     /\ ordersOf data = before ++ firstUnfulfilled :: after
                     /\ orderStatus firstUnfulfilled = js "awaiting_shipment"
                     /\ (forall x, In x before ->
                           orderStatus x <> js "awaiting_shipment")
                     /\ later
                        = fetch (js "https://shipstation-proxy.info-ba2.workers.dev/orders/markasshipped")
                            (mkRequestInit (js "POST")
                               [(js "Content-Type", js "application/json")]
                               (Some (markAsShippedBody (orderId firstUnfulfilled)
                                        (js "usps") tracking true true)))
                          :: next
                     /\ (next = []
                         \/ next
                            = [fetch (js "https://shipstation-proxy.info-ba2.workers.dev/orders/assignuser")
                                 (mkRequestInit (js "POST")
                                    [(js "Content-Type", js "application/json")]
                                    (Some (assignUserBody [orderId firstUnfulfilled]
                                             (js "1f021469-eff0-4cf3-a9ab-e6edccdc84f7"))))])).
Proof.
  intros R.
  destruct (Run_always R _ (processPDFFile_runs upperUnicode filePath))
    as (r & _ & Ho & _).
  destruct Ho as [e _ Hf _|imagePath text _ _ _ Hf _|imagePath text found _ _ _ _ Hf _
                 |imagePath text found tracking s m Hg Eo Et Hr _ _ _];
    try (left; unfold requests; now rewrite Hf).
  right. exists imagePath, text, found, tracking.
  destruct (tracking_digits _ _ Et) as [Hd Hl].
  split; [exact Hg|]. split; [exact Eo|]. split; [exact Et|].
  split; [exact (order_number_valid _ _ Eo)|]. split; [exact Hd|].
  split; [exact Hl|].
  destruct Hr as [Hr|(data & x & Hlook & Hfind & Hr)].
  { rewrite Hr. eexists. split; [reflexivity|now left]. }
  apply find_first in Hfind as (before & after & E & Hx & Hb).
  assert (Hbefore : forall y, In y before -> orderStatus y <> js "awaiting_shipment").
  { intros y Hy Ey. apply Hb in Hy. apply eqString_eq in Ey.
    unfold awaitingShipment in Hy. congruence. }
  apply eqString_eq in Hx.
  destruct Hr as [Hr|Hr]; rewrite Hr; eexists; (split; [reflexivity|]); right;
    exists data, before, x, after; eexists;
    (split; [exact Hlook|]); (split; [exact E|]); (split; [exact Hx|]);
    (split; [exact Hbefore|]); (split; [reflexivity|]); [now left|now right].
Qed.

End FileRequests.

Lemma requests_carry_validated_identifiers_witness :
  Run (processPDFFile upperKeep (js "/in/label.pdf")) processedTrace
      (Returned processedResult)
  /\ isValidFormat (js "R3817-1") = true
  /\ requests processedTrace
     = [fetch (js "https://shipstation-proxy.info-ba2.workers.dev/orders?orderNumber=R3817-1")
          (mkRequestInit (js "GET") [(js "Content-Type", js "application/json")]
             None);
        fetch (js "https://shipstation-proxy.info-ba2.workers.dev/orders/markasshipped")
          (mkRequestInit (js "POST") [(js "Content-Type", js "application/json")]
             (Some (markAsShippedBody 42 (js "usps") (js "9205123456789012345678")
                      true true)));
        fetch (js "https://shipstation-proxy.info-ba2.workers.dev/orders/assignuser")
          (mkRequestInit (js "POST") [(js "Content-Type", js "application/json")]
             (Some (assignUserBody [42%N]
                      (js "1f021469-eff0-4cf3-a9ab-e6edccdc84f7"))))]
  /\ (requests processedTrace = []
      \/ exists imagePath text found tracking,
           recognized processedTrace = [(imagePath, text)]
           /\ fst (extractOrderNumber upperKeep text) = Some found
           /\ fst (extractTrackingNumber (js "/in/label.pdf") text) = Some tracking
           /\ isValidFormat found = true
           /\ forallb isDigit tracking = true
           /\ 20 <= length tracking <= 22
           /\ exists later,
                requests processedTrace
                = fetch (js "https://shipstation-proxy.info-ba2.workers.dev/orders?orderNumber="
                         ++ found)
                    (mkRequestInit (js "GET")
                       [(js "Content-Type", js "application/json")] None)
                  :: later
                /\ (later = []
                    \/ exists data before firstUnfulfilled after next,
                         lookups processedTrace = [data]
                         /\ ordersOf data = before ++ firstUnfulfilled :: after
                         /\ orderStatus firstUnfulfilled = js "awaiting_shipment"
                         /\ (forall x, In x before ->
                               orderStatus x <> js "awaiting_shipment")
                         /\ later
                            = fetch (js "https://shipstation-proxy.info-ba2.workers.dev/orders/markasshipped")
                                (mkRequestInit (js "POST")
                                   [(js "Content-Type", js "application/json")]
                                   (Some (markAsShippedBody (orderId firstUnfulfilled)
                                            (js "usps") tracking true true)))
                              :: next
                         /\ (next = []
                             \/ next
                                = [fetch (js "https://shipstation-proxy.info-ba2.workers.dev/orders/assignuser")
                                     (mkRequestInit (js "POST")
                                        [(js "Content-Type", js "application/json")]
                                        (Some (assignUserBody [orderId firstUnfulfilled]
                                                 (js "1f021469-eff0-4cf3-a9ab-e6edccdc84f7"))))]))).
Proof.
  split; [exact processed_runs|]. split; [vm_compute; reflexivity|].
  split; [vm_compute; reflexivity|].
  exact (@requests_carry_validated_identifiers _ _ _ _ processed_runs).
Defined.







